(** * Agora master scheduler: a shallow embedding of [src/agora/agora.cc]

    The master thread of Agora ([Agora::Start]) is a single-threaded event
    loop.  It dequeues events (RX packets, worker completions, MAC
    responses), updates per-frame completion counters and rendezvous tables,
    and fans follow-on work out to the worker queues.  This file embeds that
    loop and the functions it calls as a state-and-error monad over an
    explicit [State] record, and proves properties of the pipeline state
    machine.

    Conventions.
    - [size_t] values are [N] with the 64-bit wrap-around written out
      ([add_sz], [sub_sz]).
    - A call that only enqueues work ([ScheduleSubcarriers], ...) or only
      prints or stamps a time is recorded in the [trace] of the state, newest
      entry first; the events such a call enqueues are given by the pure
      functions of the same names in section "Dispatch".
    - [assert], [RtAssert], [std::vector::at] out of range, [std::exit] and
      [front()] of an empty [std::queue] end the run with an [Error]. *)

From Stdlib Require Import NArith ZArith Lia List Bool String Ascii.
From Stdlib Require Import DecimalString DecimalN DecimalPos.
From stdpp Require Import base tactics option list numbers strings gmap.
Import ListNotations.

Local Open Scope N_scope.

(** ** Machine integers *)

Definition SIZE_MAX : N := 18446744073709551615.

(** [size_t] arithmetic wraps modulo 2^64. *)
Definition wrap (x : N) : N := x mod 18446744073709551616.
Definition add_sz (a b : N) : N := wrap (a + b).
Definition sub_sz (a b : N) : N := wrap (18446744073709551616 + a - b).
Definition mul_sz (a b : N) : N := wrap (a * b).

(** [uint8_t] arithmetic of [schedule_process_flags_]. *)
Definition add_u8 (a b : N) : N := (a + b) mod 256.

(** ** Enumerations *)

Inductive EventType :=
| kPacketRX | kFFT | kZF | kDemul | kIFFT | kPrecode | kPacketTX | kDecode
| kEncode | kPacketFromMac | kPacketToMac | kSNRReport | kRANUpdate.

Inductive SymbolType := kPilot | kUL | kDL | kCalDL | kCalUL | kGuard.

Inductive TsType :=
| kFirstSymbolRX | kPilotAllRX | kRCAllRX | kRXDone | kProcessingStarted
| kFFTPilotsDone | kRCDone | kZFDone | kDemulDone | kDecodeDone | kEncodeDone
| kPrecodeDone | kIFFTDone | kTXProcessedFirst | kTXDone.

Module PrintType.
Inductive t :=
  | kPacketRXPilots | kPacketRX | kFFTPilots | kFFTData | kFFTCal | kZF | kRC
  | kDemul | kDecode | kEncode | kPrecode | kIFFT | kPacketTXFirst | kPacketTX
  | kPacketToMac | kPacketFromMac.
End PrintType.

Scheme Equality for EventType.
#[global] Instance EventType_EqDecision : EqDecision EventType := EventType_eq_dec.
#[global] Instance SymbolType_eq_dec : EqDecision SymbolType.
Proof. solve_decision. Defined.
#[global] Instance TsType_eq_dec : EqDecision TsType.
Proof. solve_decision. Defined.
#[global] Instance PrintType_eq_dec : EqDecision PrintType.t.
Proof. solve_decision. Defined.

(** [ScheduleProcessingFlags]: the values added to the [uint8_t]
    [schedule_process_flags_]. *)
Definition kNone : N := 0.
Definition kUplinkComplete : N := 1.
Definition kDownlinkComplete : N := 2.
Definition kProcessingComplete : N := kUplinkComplete + kDownlinkComplete.

(** ** Configuration

    What [agora.cc] reads through [config_->...], [config_->Frame()...] and
    the compile-time constants of the headers.  Those declarations are not
    part of the translated sources, so every one is a field here and the
    development is parametric in it. *)

Record Config := {
  (* compile-time constants *)
  kFrameWnd : N;
  kScheduleQueues : N;
  kEnableMac : bool;
  kPrintPhyStats : bool;
  kPrintZfStats : bool;
  kDebugPrintPerFrameStart : bool;
  TX_FRAME_DELTA : N;
  (* mode flags *)
  BigstationMode : bool;
  IsRecCalEnabled : bool;
  FramesToTest : N;
  (* frame schedule: config_->Frame() *)
  NumPilotSyms : N;
  NumULSyms : N;
  NumDLSyms : N;
  NumDlDataSyms : N;
  ClientDlPilotSymbols : N;
  GetULSymbol : N -> N;
  GetDLSymbol : N -> N;
  GetULSymbolIdx : N -> N;
  GetDLSymbolIdx : N -> N;
  GetSymbolType : N -> SymbolType;
  IsPilot : N -> N -> bool;
  IsCalDlPilot : N -> N -> bool;
  IsCalUlPilot : N -> N -> bool;
  (* sizes *)
  BsAntNum : N;
  UeAntNum : N;
  AntGroupNum : N;
  SocketThreadNum : N;
  NumChannels : N;
  FftBlockSize : N;
  ZfEventsPerSymbol : N;
  ZfBlockSize : N;
  ZfBatchSize : N;
  DemulEventsPerSymbol : N;
  DemulBlockSize : N;
  EncodeBlockSize : N;
  NumBlocksInSymbol : N          (* LdpcConfig().NumBlocksInSymbol() *)
}.

(** ** Tags and events *)

(** Modelled from the spec: the tag types [gen_tag_t], [rx_tag_t] and
    [rx_mac_tag_t] are declared outside the translated sources.  The spec
    describes a tag as a packed coordinate (frame, symbol, and one of antenna,
    subcarrier, codeblock, user) with one layout for all variants; the
    embedding keeps the three coordinates and leaves the bit packing out.
    For an RX event the coordinates are those of the packet header the tag
    points to; for a [kPacketFromMac] event [frame_id] is the tag's
    [offset_]. *)
Record Tag := mkTag { frame_id : N; symbol_id : N; aux_id : N }.

#[global] Instance Tag_eq_dec : EqDecision Tag.
Proof. solve_decision. Defined.

(** [EventData]: [num_tags_] is the length of [tags]. *)
Record EventData := mkEvent { event_type : EventType; tags : list Tag }.

(** [event.tags_[i]]: the tag array has fixed storage, so an index past
    [num_tags_] reads a slot the event did not fill; the embedding reads the
    zero tag there. *)
Definition tag_at (ev : EventData) (i : nat) : Tag :=
  nth i (tags ev) (mkTag 0 0 0).

(** ** Trace of the master's calls *)

Inductive SchedCall :=
| CallSubcarriers (ev : EventType) (frame symbol : N)
| CallCodeblocks (ev : EventType) (frame symbol : N)
| CallAntennas (ev : EventType) (frame symbol : N)
| CallAntennasTX (frame symbol : N)
| CallUsers (ev : EventType) (frame symbol : N)
| CallSnrReport (ev : EventType) (frame symbol : N).

Inductive Action :=
| Sched (c : SchedCall)
| EnqueueFft (qid : N) (fft_tags : list Tag)
| MasterSetTsc (ts : TsType) (frame : N)
| PrintPerFrameDone (pt : PrintType.t) (frame : N)
| PrintPerSymbolDone (pt : PrintType.t) (frame symbol : N)
| PrintPerTaskDone (pt : PrintType.t) (frame symbol idx : N)
| PrintDeferring (frame : N)
| PrintSchedulingDeferred (deferred_frame cur_proc : N)
| PrintFrameStart (frame : N)
| PrintTxThroughput
| PrintZfStats (frame : N)
| PrintSnrStats (frame : N)
| PrintCalibSnrStats (frame_grp : N)
| UpdateStats (frame : N)
| PrintSummary
| UpdateRanConfig (mod_order_bits : Tag)
| ErrorFutureFrame (pkt_frame cur_sche wnd : N)
| ErrorWrongEventType.

#[global] Instance SchedCall_eq_dec : EqDecision SchedCall.
Proof. solve_decision. Defined.
#[global] Instance Action_eq_dec : EqDecision Action.
Proof. solve_decision. Defined.

(** ** Stage counters *)

(** Modelled from the spec: the class [FrameCounters] is declared outside the
    translated sources.  The spec (section 3, "Counter") gives it, per frame
    slot [frame_id mod W], a per-symbol task count and a symbols-complete
    count, with the configured [tasks_per_symbol] and [symbols_per_frame], and
    the operations [complete_task(frame, symbol)] (true on the last task of
    the symbol), [complete_symbol(frame)] (true on the last symbol of the
    frame), [reset(frame)], [get_task_count], [get_symbol_count] and
    [is_last_symbol].  Counters without symbol granularity (ZF,
    reciprocity calibration) collapse to the single per-frame count. *)
Record FrameCounters := mkCounters {
  task_count : N -> N -> N;       (* frame slot, symbol *)
  symbol_count : N -> N;          (* frame slot *)
  max_symbol_count : N;
  max_task_count : N
}.

Definition upd {A} (f : N -> A) (k : N) (v : A) : N -> A :=
  fun x => if x =? k then v else f x.

Definition upd2 {A} (f : N -> N -> A) (k1 k2 : N) (v : A) : N -> N -> A :=
  fun x y => if (x =? k1) && (y =? k2) then v else f x y.

Module FrameCounters.
Definition Init (max_symbol max_task : N) : FrameCounters :=
    mkCounters (fun _ _ => 0) (fun _ => 0) max_symbol max_task.

Definition CompleteTask (wnd : N) (c : FrameCounters) (frame symbol : N)
    : bool * FrameCounters :=
    let slot := frame mod wnd in
    let n := add_sz (task_count c slot symbol) 1 in
    (n =? max_task_count c,
     mkCounters (upd2 (task_count c) slot symbol n) (symbol_count c)
                (max_symbol_count c) (max_task_count c)).

Definition CompleteSymbol (wnd : N) (c : FrameCounters) (frame : N)
    : bool * FrameCounters :=
    let slot := frame mod wnd in
    let n := add_sz (symbol_count c slot) 1 in
    (n =? max_symbol_count c,
     mkCounters (task_count c) (upd (symbol_count c) slot n)
                (max_symbol_count c) (max_task_count c)).

Definition Reset (wnd : N) (c : FrameCounters) (frame : N) : FrameCounters :=
    let slot := frame mod wnd in
    mkCounters (upd (task_count c) slot (fun _ => 0))
               (upd (symbol_count c) slot 0)
               (max_symbol_count c) (max_task_count c).

Definition IsLastSymbol (wnd : N) (c : FrameCounters) (frame : N) : bool :=
    symbol_count c (frame mod wnd) =? max_symbol_count c.

Definition GetSymbolCount (wnd : N) (c : FrameCounters) (frame : N) : N :=
    symbol_count c (frame mod wnd).

Definition GetTaskCount (wnd : N) (c : FrameCounters) (frame symbol : N) : N :=
    task_count c (frame mod wnd) symbol.
End FrameCounters.

(** The twelve counters of the master, one per pipeline stage. *)
Inductive Stage :=
| pilot_fft_counters | uplink_fft_counters | rc_counters | zf_counters
| demul_counters | decode_counters | tomac_counters | mac_to_phy_counters
| encode_counters | precode_counters | ifft_counters | tx_counters.

Scheme Equality for Stage.
#[global] Instance Stage_EqDecision : EqDecision Stage := Stage_eq_dec.

(** [rx_counters_]: packets seen per frame slot.  The per-frame maxima are
    computed from the configuration in [InitializeUplinkBuffers]. *)
Record RxCounters := mkRx {
  num_pkts : N -> N;
  num_pilot_pkts : N -> N;
  num_reciprocity_pkts : N -> N
}.

Definition num_pkts_per_frame (cfg : Config) : N :=
  mul_sz (BsAntNum cfg)
    (add_sz (add_sz (NumPilotSyms cfg) (NumULSyms cfg))
            (if IsRecCalEnabled cfg then 1 else 0)).
Definition num_pilot_pkts_per_frame (cfg : Config) : N :=
  mul_sz (BsAntNum cfg) (NumPilotSyms cfg).
Definition num_reciprocity_pkts_per_frame (cfg : Config) : N := BsAntNum cfg.

(** ** Master state *)

Record State := mkState {
  running : bool;
  is_turn_to_dequeue_from_io : bool;
  cur_sche_frame_id : N;
  cur_proc_frame_id : N;
  schedule_process_flags : N;
  zf_last_frame : N;
  rc_last_frame : N;
  fft_cur_frame_for_symbol : list N;
  encode_cur_frame_for_symbol : list N;
  ifft_cur_frame_for_symbol : list N;
  ifft_next_symbol : N;
  encode_deferral : list N;
  counters : Stage -> FrameCounters;
  rx_counters : RxCounters;
  fft_queue_arr : N -> list Tag;
  fft_created_count : N;
  max_equaled_frame : N;
  dl_bits_buffer_status : N -> N -> N;
  tx_count : N;
  trace : list Action
}.

Definition set_running (v : bool) (st : State) : State :=
  mkState v (st.(is_turn_to_dequeue_from_io)) (st.(cur_sche_frame_id))
  (st.(cur_proc_frame_id)) (st.(schedule_process_flags)) (st.(zf_last_frame))
  (st.(rc_last_frame)) (st.(fft_cur_frame_for_symbol))
  (st.(encode_cur_frame_for_symbol)) (st.(ifft_cur_frame_for_symbol))
  (st.(ifft_next_symbol)) (st.(encode_deferral)) (st.(counters))
  (st.(rx_counters)) (st.(fft_queue_arr)) (st.(fft_created_count))
  (st.(max_equaled_frame)) (st.(dl_bits_buffer_status)) (st.(tx_count))
  (st.(trace)).
Definition set_is_turn_to_dequeue_from_io (v : bool) (st : State) : State :=
  mkState (st.(running)) v (st.(cur_sche_frame_id)) (st.(cur_proc_frame_id))
  (st.(schedule_process_flags)) (st.(zf_last_frame)) (st.(rc_last_frame))
  (st.(fft_cur_frame_for_symbol)) (st.(encode_cur_frame_for_symbol))
  (st.(ifft_cur_frame_for_symbol)) (st.(ifft_next_symbol))
  (st.(encode_deferral)) (st.(counters)) (st.(rx_counters))
  (st.(fft_queue_arr)) (st.(fft_created_count)) (st.(max_equaled_frame))
  (st.(dl_bits_buffer_status)) (st.(tx_count)) (st.(trace)).
Definition set_cur_sche_frame_id (v : N) (st : State) : State :=
  mkState (st.(running)) (st.(is_turn_to_dequeue_from_io)) v
  (st.(cur_proc_frame_id)) (st.(schedule_process_flags)) (st.(zf_last_frame))
  (st.(rc_last_frame)) (st.(fft_cur_frame_for_symbol))
  (st.(encode_cur_frame_for_symbol)) (st.(ifft_cur_frame_for_symbol))
  (st.(ifft_next_symbol)) (st.(encode_deferral)) (st.(counters))
  (st.(rx_counters)) (st.(fft_queue_arr)) (st.(fft_created_count))
  (st.(max_equaled_frame)) (st.(dl_bits_buffer_status)) (st.(tx_count))
  (st.(trace)).
Definition set_cur_proc_frame_id (v : N) (st : State) : State :=
  mkState (st.(running)) (st.(is_turn_to_dequeue_from_io))
  (st.(cur_sche_frame_id)) v (st.(schedule_process_flags))
  (st.(zf_last_frame)) (st.(rc_last_frame)) (st.(fft_cur_frame_for_symbol))
  (st.(encode_cur_frame_for_symbol)) (st.(ifft_cur_frame_for_symbol))
  (st.(ifft_next_symbol)) (st.(encode_deferral)) (st.(counters))
  (st.(rx_counters)) (st.(fft_queue_arr)) (st.(fft_created_count))
  (st.(max_equaled_frame)) (st.(dl_bits_buffer_status)) (st.(tx_count))
  (st.(trace)).
Definition set_schedule_process_flags (v : N) (st : State) : State :=
  mkState (st.(running)) (st.(is_turn_to_dequeue_from_io))
  (st.(cur_sche_frame_id)) (st.(cur_proc_frame_id)) v (st.(zf_last_frame))
  (st.(rc_last_frame)) (st.(fft_cur_frame_for_symbol))
  (st.(encode_cur_frame_for_symbol)) (st.(ifft_cur_frame_for_symbol))
  (st.(ifft_next_symbol)) (st.(encode_deferral)) (st.(counters))
  (st.(rx_counters)) (st.(fft_queue_arr)) (st.(fft_created_count))
  (st.(max_equaled_frame)) (st.(dl_bits_buffer_status)) (st.(tx_count))
  (st.(trace)).
Definition set_zf_last_frame (v : N) (st : State) : State :=
  mkState (st.(running)) (st.(is_turn_to_dequeue_from_io))
  (st.(cur_sche_frame_id)) (st.(cur_proc_frame_id))
  (st.(schedule_process_flags)) v (st.(rc_last_frame))
  (st.(fft_cur_frame_for_symbol)) (st.(encode_cur_frame_for_symbol))
  (st.(ifft_cur_frame_for_symbol)) (st.(ifft_next_symbol))
  (st.(encode_deferral)) (st.(counters)) (st.(rx_counters))
  (st.(fft_queue_arr)) (st.(fft_created_count)) (st.(max_equaled_frame))
  (st.(dl_bits_buffer_status)) (st.(tx_count)) (st.(trace)).
Definition set_rc_last_frame (v : N) (st : State) : State :=
  mkState (st.(running)) (st.(is_turn_to_dequeue_from_io))
  (st.(cur_sche_frame_id)) (st.(cur_proc_frame_id))
  (st.(schedule_process_flags)) (st.(zf_last_frame)) v
  (st.(fft_cur_frame_for_symbol)) (st.(encode_cur_frame_for_symbol))
  (st.(ifft_cur_frame_for_symbol)) (st.(ifft_next_symbol))
  (st.(encode_deferral)) (st.(counters)) (st.(rx_counters))
  (st.(fft_queue_arr)) (st.(fft_created_count)) (st.(max_equaled_frame))
  (st.(dl_bits_buffer_status)) (st.(tx_count)) (st.(trace)).
Definition set_fft_cur_frame_for_symbol (v : list N) (st : State) : State :=
  mkState (st.(running)) (st.(is_turn_to_dequeue_from_io))
  (st.(cur_sche_frame_id)) (st.(cur_proc_frame_id))
  (st.(schedule_process_flags)) (st.(zf_last_frame)) (st.(rc_last_frame)) v
  (st.(encode_cur_frame_for_symbol)) (st.(ifft_cur_frame_for_symbol))
  (st.(ifft_next_symbol)) (st.(encode_deferral)) (st.(counters))
  (st.(rx_counters)) (st.(fft_queue_arr)) (st.(fft_created_count))
  (st.(max_equaled_frame)) (st.(dl_bits_buffer_status)) (st.(tx_count))
  (st.(trace)).
Definition set_encode_cur_frame_for_symbol (v : list N) (st : State) : State :=
  mkState (st.(running)) (st.(is_turn_to_dequeue_from_io))
  (st.(cur_sche_frame_id)) (st.(cur_proc_frame_id))
  (st.(schedule_process_flags)) (st.(zf_last_frame)) (st.(rc_last_frame))
  (st.(fft_cur_frame_for_symbol)) v (st.(ifft_cur_frame_for_symbol))
  (st.(ifft_next_symbol)) (st.(encode_deferral)) (st.(counters))
  (st.(rx_counters)) (st.(fft_queue_arr)) (st.(fft_created_count))
  (st.(max_equaled_frame)) (st.(dl_bits_buffer_status)) (st.(tx_count))
  (st.(trace)).
Definition set_ifft_cur_frame_for_symbol (v : list N) (st : State) : State :=
  mkState (st.(running)) (st.(is_turn_to_dequeue_from_io))
  (st.(cur_sche_frame_id)) (st.(cur_proc_frame_id))
  (st.(schedule_process_flags)) (st.(zf_last_frame)) (st.(rc_last_frame))
  (st.(fft_cur_frame_for_symbol)) (st.(encode_cur_frame_for_symbol)) v
  (st.(ifft_next_symbol)) (st.(encode_deferral)) (st.(counters))
  (st.(rx_counters)) (st.(fft_queue_arr)) (st.(fft_created_count))
  (st.(max_equaled_frame)) (st.(dl_bits_buffer_status)) (st.(tx_count))
  (st.(trace)).
Definition set_ifft_next_symbol (v : N) (st : State) : State :=
  mkState (st.(running)) (st.(is_turn_to_dequeue_from_io))
  (st.(cur_sche_frame_id)) (st.(cur_proc_frame_id))
  (st.(schedule_process_flags)) (st.(zf_last_frame)) (st.(rc_last_frame))
  (st.(fft_cur_frame_for_symbol)) (st.(encode_cur_frame_for_symbol))
  (st.(ifft_cur_frame_for_symbol)) v (st.(encode_deferral)) (st.(counters))
  (st.(rx_counters)) (st.(fft_queue_arr)) (st.(fft_created_count))
  (st.(max_equaled_frame)) (st.(dl_bits_buffer_status)) (st.(tx_count))
  (st.(trace)).
Definition set_encode_deferral (v : list N) (st : State) : State :=
  mkState (st.(running)) (st.(is_turn_to_dequeue_from_io))
  (st.(cur_sche_frame_id)) (st.(cur_proc_frame_id))
  (st.(schedule_process_flags)) (st.(zf_last_frame)) (st.(rc_last_frame))
  (st.(fft_cur_frame_for_symbol)) (st.(encode_cur_frame_for_symbol))
  (st.(ifft_cur_frame_for_symbol)) (st.(ifft_next_symbol)) v (st.(counters))
  (st.(rx_counters)) (st.(fft_queue_arr)) (st.(fft_created_count))
  (st.(max_equaled_frame)) (st.(dl_bits_buffer_status)) (st.(tx_count))
  (st.(trace)).
Definition set_counters (v : Stage -> FrameCounters) (st : State) : State :=
  mkState (st.(running)) (st.(is_turn_to_dequeue_from_io))
  (st.(cur_sche_frame_id)) (st.(cur_proc_frame_id))
  (st.(schedule_process_flags)) (st.(zf_last_frame)) (st.(rc_last_frame))
  (st.(fft_cur_frame_for_symbol)) (st.(encode_cur_frame_for_symbol))
  (st.(ifft_cur_frame_for_symbol)) (st.(ifft_next_symbol))
  (st.(encode_deferral)) v (st.(rx_counters)) (st.(fft_queue_arr))
  (st.(fft_created_count)) (st.(max_equaled_frame))
  (st.(dl_bits_buffer_status)) (st.(tx_count)) (st.(trace)).
Definition set_rx_counters (v : RxCounters) (st : State) : State :=
  mkState (st.(running)) (st.(is_turn_to_dequeue_from_io))
  (st.(cur_sche_frame_id)) (st.(cur_proc_frame_id))
  (st.(schedule_process_flags)) (st.(zf_last_frame)) (st.(rc_last_frame))
  (st.(fft_cur_frame_for_symbol)) (st.(encode_cur_frame_for_symbol))
  (st.(ifft_cur_frame_for_symbol)) (st.(ifft_next_symbol))
  (st.(encode_deferral)) (st.(counters)) v (st.(fft_queue_arr))
  (st.(fft_created_count)) (st.(max_equaled_frame))
  (st.(dl_bits_buffer_status)) (st.(tx_count)) (st.(trace)).
Definition set_fft_queue_arr (v : N -> list Tag) (st : State) : State :=
  mkState (st.(running)) (st.(is_turn_to_dequeue_from_io))
  (st.(cur_sche_frame_id)) (st.(cur_proc_frame_id))
  (st.(schedule_process_flags)) (st.(zf_last_frame)) (st.(rc_last_frame))
  (st.(fft_cur_frame_for_symbol)) (st.(encode_cur_frame_for_symbol))
  (st.(ifft_cur_frame_for_symbol)) (st.(ifft_next_symbol))
  (st.(encode_deferral)) (st.(counters)) (st.(rx_counters)) v
  (st.(fft_created_count)) (st.(max_equaled_frame))
  (st.(dl_bits_buffer_status)) (st.(tx_count)) (st.(trace)).
Definition set_fft_created_count (v : N) (st : State) : State :=
  mkState (st.(running)) (st.(is_turn_to_dequeue_from_io))
  (st.(cur_sche_frame_id)) (st.(cur_proc_frame_id))
  (st.(schedule_process_flags)) (st.(zf_last_frame)) (st.(rc_last_frame))
  (st.(fft_cur_frame_for_symbol)) (st.(encode_cur_frame_for_symbol))
  (st.(ifft_cur_frame_for_symbol)) (st.(ifft_next_symbol))
  (st.(encode_deferral)) (st.(counters)) (st.(rx_counters))
  (st.(fft_queue_arr)) v (st.(max_equaled_frame)) (st.(dl_bits_buffer_status))
  (st.(tx_count)) (st.(trace)).
Definition set_max_equaled_frame (v : N) (st : State) : State :=
  mkState (st.(running)) (st.(is_turn_to_dequeue_from_io))
  (st.(cur_sche_frame_id)) (st.(cur_proc_frame_id))
  (st.(schedule_process_flags)) (st.(zf_last_frame)) (st.(rc_last_frame))
  (st.(fft_cur_frame_for_symbol)) (st.(encode_cur_frame_for_symbol))
  (st.(ifft_cur_frame_for_symbol)) (st.(ifft_next_symbol))
  (st.(encode_deferral)) (st.(counters)) (st.(rx_counters))
  (st.(fft_queue_arr)) (st.(fft_created_count)) v (st.(dl_bits_buffer_status))
  (st.(tx_count)) (st.(trace)).
Definition set_dl_bits_buffer_status (v : N -> N -> N) (st : State) : State :=
  mkState (st.(running)) (st.(is_turn_to_dequeue_from_io))
  (st.(cur_sche_frame_id)) (st.(cur_proc_frame_id))
  (st.(schedule_process_flags)) (st.(zf_last_frame)) (st.(rc_last_frame))
  (st.(fft_cur_frame_for_symbol)) (st.(encode_cur_frame_for_symbol))
  (st.(ifft_cur_frame_for_symbol)) (st.(ifft_next_symbol))
  (st.(encode_deferral)) (st.(counters)) (st.(rx_counters))
  (st.(fft_queue_arr)) (st.(fft_created_count)) (st.(max_equaled_frame)) v
  (st.(tx_count)) (st.(trace)).
Definition set_tx_count (v : N) (st : State) : State :=
  mkState (st.(running)) (st.(is_turn_to_dequeue_from_io))
  (st.(cur_sche_frame_id)) (st.(cur_proc_frame_id))
  (st.(schedule_process_flags)) (st.(zf_last_frame)) (st.(rc_last_frame))
  (st.(fft_cur_frame_for_symbol)) (st.(encode_cur_frame_for_symbol))
  (st.(ifft_cur_frame_for_symbol)) (st.(ifft_next_symbol))
  (st.(encode_deferral)) (st.(counters)) (st.(rx_counters))
  (st.(fft_queue_arr)) (st.(fft_created_count)) (st.(max_equaled_frame))
  (st.(dl_bits_buffer_status)) v (st.(trace)).
Definition set_trace (v : list Action) (st : State) : State :=
  mkState (st.(running)) (st.(is_turn_to_dequeue_from_io))
  (st.(cur_sche_frame_id)) (st.(cur_proc_frame_id))
  (st.(schedule_process_flags)) (st.(zf_last_frame)) (st.(rc_last_frame))
  (st.(fft_cur_frame_for_symbol)) (st.(encode_cur_frame_for_symbol))
  (st.(ifft_cur_frame_for_symbol)) (st.(ifft_next_symbol))
  (st.(encode_deferral)) (st.(counters)) (st.(rx_counters))
  (st.(fft_queue_arr)) (st.(fft_created_count)) (st.(max_equaled_frame))
  (st.(dl_bits_buffer_status)) (st.(tx_count)) v.


(** ** The state-and-error monad of the master *)

Inductive Error :=
| AssertFailed        (* assert(...) *)
| RtAssertFailed      (* RtAssert(...) throws *)
| OutOfRange          (* std::vector::at *)
| EmptyQueueFront     (* front() of an empty std::queue: undefined behaviour *)
| DivisionByZero
| ProcessExit.        (* std::exit *)

Inductive Result (A : Type) :=
| Ok (a : A) (st : State)
| Err (e : Error).
Arguments Ok {A} a st.
Arguments Err {A} e.

Definition M (A : Type) : Type := State -> Result A.

Definition ret {A} (a : A) : M A := fun st => Ok a st.
Definition bind {A B} (m : M A) (k : A -> M B) : M B :=
  fun st => match m st with Ok a st' => k a st' | Err e => Err e end.
Definition gets {A} (f : State -> A) : M A := fun st => Ok (f st) st.
Definition modify (f : State -> State) : M unit := fun st => Ok tt (f st).
Definition throw {A} (e : Error) : M A := fun _ => Err e.

Declare Scope master_scope.
Delimit Scope master_scope with master.
Notation "'let*' x ':=' m 'in' k" := (bind m (fun x => k))
  (at level 10, x name, m at level 100, k at level 200,
   format "'[v' 'let*'  x  ':='  m  'in' '/' k ']'") : master_scope.
Notation "m ;; k" := (bind m (fun _ => k))
  (at level 100, k at level 200, right associativity,
   format "'[v' m  ;; '/' k ']'") : master_scope.
Local Open Scope master_scope.

Definition emit (a : Action) : M unit :=
  modify (fun st => set_trace (a :: trace st) st).
Definition call (c : SchedCall) : M unit := emit (Sched c).
Definition assert_ (b : bool) : M unit :=
  if b then ret tt else throw AssertFailed.
Definition RtAssert (b : bool) : M unit :=
  if b then ret tt else throw RtAssertFailed.
Definition when (b : bool) (m : M unit) : M unit := if b then m else ret tt.

Fixpoint for_each {A} (l : list A) (body : A -> M unit) : M unit :=
  match l with
  | [] => ret tt
  | x :: l' => body x ;; for_each l' body
  end.

(** The indices [lo, lo+1, ..., hi-1] of [for (i = lo; i < hi; i++)]. *)
Definition N_range (lo hi : N) : list N :=
  map (fun k => lo + N.of_nat k) (seq 0 (N.to_nat (hi - lo))).
Definition for_range (lo hi : N) (body : N -> M unit) : M unit :=
  for_each (N_range lo hi) body.

(** [v.at(i)] and [v.at(i) = x] of a [std::vector<size_t>]. *)
Definition vec_lookup (v : list N) (i : N) : option N :=
  if i <? N.of_nat (length v) then v !! N.to_nat i else None.
Definition vec_at (f : State -> list N) (i : N) : M N :=
  let* v := gets f in
  match vec_lookup v i with
  | Some x => ret x
  | None => throw OutOfRange
  end.
Definition vec_set (f : State -> list N) (set : list N -> State -> State)
    (i x : N) : M unit :=
  let* v := gets f in
  if i <? N.of_nat (length v) then modify (set (<[N.to_nat i := x]> v))
  else throw OutOfRange.

(** Counter operations lifted to the master state. *)
Section CounterOps.
Context (cfg : Config).

Definition set_counter (s : Stage) (c : FrameCounters) (st : State) : State :=
    set_counters (fun s' => if Stage_beq s' s then c else counters st s') st.

Definition CompleteTask (s : Stage) (frame symbol : N) : M bool :=
    let* c := gets (fun st => counters st s) in
    let '(last, c') := FrameCounters.CompleteTask (kFrameWnd cfg) c frame symbol in
    modify (set_counter s c') ;; ret last.

Definition CompleteSymbol (s : Stage) (frame : N) : M bool :=
    let* c := gets (fun st => counters st s) in
    let '(last, c') := FrameCounters.CompleteSymbol (kFrameWnd cfg) c frame in
    modify (set_counter s c') ;; ret last.

  (** [CompleteTask(frame_id)] of a counter without symbol granularity. *)
Definition CompleteFrameTask (s : Stage) (frame : N) : M bool :=
    CompleteSymbol s frame.

Definition Reset (s : Stage) (frame : N) : M unit :=
    let* c := gets (fun st => counters st s) in
    modify (set_counter s (FrameCounters.Reset (kFrameWnd cfg) c frame)).

Definition IsLastSymbol (s : Stage) (frame : N) : M bool :=
    gets (fun st => FrameCounters.IsLastSymbol (kFrameWnd cfg) (counters st s) frame).

Definition GetSymbolCount (s : Stage) (frame : N) : M N :=
    gets (fun st => FrameCounters.GetSymbolCount (kFrameWnd cfg) (counters st s) frame).

Definition GetTaskCount (s : Stage) (frame symbol : N) : M N :=
    gets (fun st => FrameCounters.GetTaskCount (kFrameWnd cfg) (counters st s) frame symbol).
End CounterOps.

(** ** Dispatch: what each [Schedule...] call enqueues

    These functions touch no master state: they build events and enqueue
    them.  [N.div] and [N.modulo] by zero stand for a division the source
    leaves undefined; every statement about the batches assumes a non-zero
    block size. *)

Inductive QueueId :=
| Conq (ev : EventType) (qid : N)     (* GetConq(event_type, qid) *)
| TxConq (radio_handler : N)          (* GetConq(kPacketTX, 0), tx_ptoks_ptr_[radio_handler] *)
| MacRequestQueue.                    (* mac_request_queue_ *)

(** One [TryEnqueueFallback] (a single event) or [TryEnqueueBulkFallback]. *)
Record Enqueued := Enq { enq_queue : QueueId; enq_events : list EventData }.

(** [for (size_t i = 0; i < n; i++)] over a tuple of mutable locals. *)
Definition loop {S} (n : N) (body : N -> S -> S) (s0 : S) : S :=
  fold_left (fun s i => body i s) (N_range 0 n) s0.

Section Dispatch.
Context (cfg : Config).

Definition ScheduleAntennas (event_type : EventType) (frame_id symbol_id : N)
    : list Enqueued :=
    let num_remainder := BsAntNum cfg mod FftBlockSize cfg in
    let num_blocks := BsAntNum cfg / FftBlockSize cfg
                      + (if 0 <? num_remainder then 1 else 0) in
    let qid := N.land frame_id 1 in
    let '(_, _, out) :=
      loop num_blocks
        (fun i '(num_tags, ant_id, out) =>
           let num_tags :=
             if (i =? num_blocks - 1) && (0 <? num_remainder)
             then num_remainder else num_tags in
           let tags := map (fun j => mkTag frame_id symbol_id (ant_id + j))
                           (N_range 0 num_tags) in
           (num_tags, ant_id + num_tags,
            out ++ [Enq (Conq event_type qid) [mkEvent event_type tags]]))
        (FftBlockSize cfg, 0, []) in
    out.

Definition ceil_events_per_handler : N :=
    BsAntNum cfg / SocketThreadNum cfg
    + (if 0 <? BsAntNum cfg mod SocketThreadNum cfg then 1 else 0).

Definition ScheduleAntennasTX (frame_id symbol_id : N) : list Enqueued :=
    let total_antennas := BsAntNum cfg in
    let handler_threads := SocketThreadNum cfg in
    let '(_, out) :=
      loop handler_threads
        (fun radio_handler '(schedule_antenna, out) =>
           (* the inner loop stops at [ceil_events_per_handler] events or when
              every antenna is scheduled *)
           let tx_event :=
             N.min ceil_events_per_handler (total_antennas - schedule_antenna) in
           let events :=
             map (fun j => mkEvent kPacketTX
                             [mkTag frame_id symbol_id (schedule_antenna + j)])
                 (N_range 0 tx_event) in
           (schedule_antenna + tx_event,
            out ++ [Enq (TxConq radio_handler) events]))
        (0, []) in
    out.

Definition ScheduleSubcarriers (event_type : EventType) (frame_id symbol_id : N)
    : list Enqueued :=
    let qid := N.land frame_id 1 in
    match event_type with
    | kZF =>
        let num_events := ZfEventsPerSymbol cfg in
        let block_size := ZfBlockSize cfg in
        let num_remainder := num_events mod ZfBatchSize cfg in
        let num_blocks := num_events / ZfBatchSize cfg
                          + (if 0 <? num_remainder then 1 else 0) in
        let '(_, out) :=
          loop num_blocks
            (fun i '(num_tags, out) =>
               let num_tags :=
                 if (i =? num_blocks - 1) && (0 <? num_remainder)
                 then num_remainder else num_tags in
               let tags :=
                 map (fun j => mkTag frame_id symbol_id
                                 (block_size * (i * num_tags + j)))
                     (N_range 0 num_tags) in
               (num_tags, out ++ [Enq (Conq kZF qid) [mkEvent kZF tags]]))
            (ZfBatchSize cfg, []) in
        out
    | _ =>
        (* kDemul, kPrecode *)
        let num_events := DemulEventsPerSymbol cfg in
        let block_size := DemulBlockSize cfg in
        map (fun i => Enq (Conq event_type qid)
                        [mkEvent event_type
                           [mkTag frame_id symbol_id (block_size * i)]])
            (N_range 0 num_events)
    end.

Definition ScheduleCodeblocks (event_type : EventType) (frame_id symbol_idx : N)
    : list Enqueued :=
    let num_tasks := mul_sz (UeAntNum cfg) (NumBlocksInSymbol cfg) in
    let num_remainder := num_tasks mod EncodeBlockSize cfg in
    let num_blocks := num_tasks / EncodeBlockSize cfg
                      + (if 0 <? num_remainder then 1 else 0) in
    let qid := N.land frame_id 1 in
    let '(_, _, out) :=
      loop num_blocks
        (fun i '(num_tags, cb_id, out) =>
           let num_tags :=
             if (i =? num_blocks - 1) && (0 <? num_remainder)
             then num_remainder else num_tags in
           let tags := map (fun j => mkTag frame_id symbol_idx (cb_id + j))
                           (N_range 0 num_tags) in
           (num_tags, cb_id + num_tags,
            out ++ [Enq (Conq event_type qid) [mkEvent event_type tags]]))
        (EncodeBlockSize cfg, 0, []) in
    out.

Definition ScheduleUsers (frame_id symbol_id : N) : list Enqueued :=
    map (fun i => Enq MacRequestQueue
                    [mkEvent kPacketToMac [mkTag frame_id symbol_id i]])
        (N_range 0 (UeAntNum cfg)).

  (** The second tag word of an SNR report (the SNR as a float) is left out. *)
Definition SendSnrReport (frame_id symbol_id : N) : list Enqueued :=
    map (fun i => Enq MacRequestQueue
                    [mkEvent kSNRReport [mkTag frame_id symbol_id i]])
        (N_range 0 (UeAntNum cfg)).

Definition enqueued_by_call (c : SchedCall) : list Enqueued :=
    match c with
    | CallSubcarriers ev f s => ScheduleSubcarriers ev f s
    | CallCodeblocks ev f s => ScheduleCodeblocks ev f s
    | CallAntennas ev f s => ScheduleAntennas ev f s
    | CallAntennasTX f s => ScheduleAntennasTX f s
    | CallUsers _ f s => ScheduleUsers f s
    | CallSnrReport _ f s => SendSnrReport f s
    end.

  (** Everything an action puts on a queue. *)
Definition enqueued_by (a : Action) : list Enqueued :=
    match a with
    | Sched c => enqueued_by_call c
    | EnqueueFft qid fft_tags => [Enq (Conq kFFT qid) [mkEvent kFFT fft_tags]]
    | _ => []
    end.
End Dispatch.

(** ** The master's functions *)

Section Master.
Context (cfg : Config).

Definition slot_of (frame : N) : N := frame mod kFrameWnd cfg.

  (** The [Schedule...] calls as the master sees them.  The assertions on the
      event type hold at every call site; [ScheduleAntennasTX] also asserts
      that contiguous channels share a queue. *)
Definition CallScheduleAntennasTX (frame_id symbol_id : N) : M unit :=
    assert_ (ceil_events_per_handler cfg mod NumChannels cfg =? 0) ;;
    call (CallAntennasTX frame_id symbol_id).

  (** [Agora::ScheduleDownlinkProcessing] *)
Definition ScheduleDownlinkProcessing (frame_id : N) : M unit :=
    let num_pilot_symbols := ClientDlPilotSymbols cfg in
    for_range 0 num_pilot_symbols (fun i =>
      let* zf := gets zf_last_frame in
      if zf =? frame_id
      then call (CallSubcarriers kPrecode frame_id (GetDLSymbol cfg i))
      else vec_set encode_cur_frame_for_symbol set_encode_cur_frame_for_symbol
                   i frame_id) ;;
    for_range num_pilot_symbols (NumDLSyms cfg) (fun i =>
      call (CallCodeblocks kEncode frame_id (GetDLSymbol cfg i))).

  (** [Agora::CheckIncrementScheduleFrame] *)
Definition CheckIncrementScheduleFrame (frame_id completed : N) : M unit :=
    modify (fun st =>
      set_schedule_process_flags (add_u8 (schedule_process_flags st) completed) st) ;;
    let* cs := gets cur_sche_frame_id in
    assert_ (cs =? frame_id) ;;
    let* flags := gets schedule_process_flags in
    when (flags =? kProcessingComplete) (
      modify (fun st => set_cur_sche_frame_id (add_sz (cur_sche_frame_id st) 1) st) ;;
      modify (set_schedule_process_flags kNone) ;;
      when (NumULSyms cfg =? 0) (
        modify (fun st =>
          set_schedule_process_flags
            (add_u8 (schedule_process_flags st) kUplinkComplete) st)) ;;
      when (NumDLSyms cfg =? 0) (
        modify (fun st =>
          set_schedule_process_flags
            (add_u8 (schedule_process_flags st) kDownlinkComplete) st))).

  (** The drain of [encode_deferral_] inside [CheckFrameComplete]: the body
      of [for (encode = 0; encode < kScheduleQueues; encode++)], with [fuel]
      the iterations left.  [front()] is read without an emptiness test. *)
Fixpoint drain_encode_deferral (fuel : nat) : M unit :=
    match fuel with
    | O => ret tt
    | S fuel' =>
        let* q := gets encode_deferral in
        match q with
        | [] => throw EmptyQueueFront
        | deferred_frame :: rest =>
            let* cp := gets cur_proc_frame_id in
            if deferred_frame <? add_sz cp (kScheduleQueues cfg) then
              emit (PrintSchedulingDeferred deferred_frame cp) ;;
              RtAssert (cp <=? deferred_frame) ;;
              ScheduleDownlinkProcessing deferred_frame ;;
              modify (fun st => set_encode_deferral (tl (encode_deferral st)) st) ;;
              drain_encode_deferral fuel'
            else ret tt
        end
    end.

  (** The retirement condition of [CheckFrameComplete]. *)
Definition frame_complete (st : State) (frame_id : N) : bool :=
    let last s := FrameCounters.IsLastSymbol (kFrameWnd cfg) (counters st s) frame_id in
    last ifft_counters && last tx_counters
    && ((negb (kEnableMac cfg) && last decode_counters)
        || (kEnableMac cfg && last tomac_counters)).

  (** [Agora::CheckFrameComplete] *)
Definition CheckFrameComplete (frame_id : N) : M bool :=
    let* complete := gets (fun st => frame_complete st frame_id) in
    if complete then
      emit (UpdateStats frame_id) ;;
      let* cp := gets cur_proc_frame_id in
      assert_ (frame_id =? cp) ;;
      Reset cfg decode_counters frame_id ;;
      Reset cfg tomac_counters frame_id ;;
      Reset cfg ifft_counters frame_id ;;
      Reset cfg tx_counters frame_id ;;
      when (0 <? NumDLSyms cfg) (
        modify (fun st =>
          set_dl_bits_buffer_status
            (fun ue_id slot =>
               if (ue_id <? UeAntNum cfg) && (slot =? slot_of frame_id) then 0
               else dl_bits_buffer_status st ue_id slot) st)) ;;
      modify (fun st => set_cur_proc_frame_id (add_sz (cur_proc_frame_id st) 1) st) ;;
      let* q := gets encode_deferral in
      when (negb (if q is [] then true else false)) (
        drain_encode_deferral (N.to_nat (kScheduleQueues cfg))) ;;
      ret (frame_id =? sub_sz (FramesToTest cfg) 1)
    else ret false.

  (** The trigger of downlink encoding shared by [UpdateRxCounters] and the
      [kPacketFromMac] handler: defer, or schedule at once. *)
Definition defer_or_schedule (frame_id : N) : M unit :=
    let* q := gets encode_deferral in
    let* cp := gets cur_proc_frame_id in
    if negb (if q is [] then true else false)
       || (add_sz cp (kScheduleQueues cfg) <=? frame_id)
    then
      emit (PrintDeferring frame_id) ;;
      modify (fun st => set_encode_deferral (encode_deferral st ++ [frame_id]) st)
    else ScheduleDownlinkProcessing frame_id.

Definition upd_rx (f : RxCounters -> RxCounters) : M unit :=
    modify (fun st => set_rx_counters (f (rx_counters st)) st).

  (** [Agora::UpdateRxCounters] *)
Definition UpdateRxCounters (frame_id symbol_id : N) : M unit :=
    let frame_slot := slot_of frame_id in
    (if IsPilot cfg frame_id symbol_id then
       upd_rx (fun r => mkRx (num_pkts r)
                 (upd (num_pilot_pkts r) frame_slot
                      (add_sz (num_pilot_pkts r frame_slot) 1))
                 (num_reciprocity_pkts r)) ;;
       let* n := gets (fun st => num_pilot_pkts (rx_counters st) frame_slot) in
       when (n =? num_pilot_pkts_per_frame cfg) (
         upd_rx (fun r => mkRx (num_pkts r) (upd (num_pilot_pkts r) frame_slot 0)
                               (num_reciprocity_pkts r)) ;;
         emit (MasterSetTsc kPilotAllRX frame_id) ;;
         emit (PrintPerFrameDone PrintType.kPacketRXPilots frame_id))
     else if IsCalDlPilot cfg frame_id symbol_id || IsCalUlPilot cfg frame_id symbol_id then
       upd_rx (fun r => mkRx (num_pkts r) (num_pilot_pkts r)
                 (upd (num_reciprocity_pkts r) frame_slot
                      (add_sz (num_reciprocity_pkts r frame_slot) 1))) ;;
       let* n := gets (fun st => num_reciprocity_pkts (rx_counters st) frame_slot) in
       when (n =? num_reciprocity_pkts_per_frame cfg) (
         upd_rx (fun r => mkRx (num_pkts r) (num_pilot_pkts r)
                               (upd (num_reciprocity_pkts r) frame_slot 0)) ;;
         emit (MasterSetTsc kRCAllRX frame_id))
     else ret tt) ;;
    (* Receive first packet in a frame *)
    let* first := gets (fun st => num_pkts (rx_counters st) frame_slot =? 0) in
    when first (
      when (negb (kEnableMac cfg)) (defer_or_schedule frame_id) ;;
      emit (MasterSetTsc kFirstSymbolRX frame_id) ;;
      when (kDebugPrintPerFrameStart cfg) (emit (PrintFrameStart frame_id))) ;;
    upd_rx (fun r => mkRx (upd (num_pkts r) frame_slot
                               (add_sz (num_pkts r frame_slot) 1))
                          (num_pilot_pkts r) (num_reciprocity_pkts r)) ;;
    let* n := gets (fun st => num_pkts (rx_counters st) frame_slot) in
    when (n =? num_pkts_per_frame cfg) (
      emit (MasterSetTsc kRXDone frame_id) ;;
      emit (PrintPerFrameDone PrintType.kPacketRX frame_id) ;;
      upd_rx (fun r => mkRx (upd (num_pkts r) frame_slot 0)
                            (num_pilot_pkts r) (num_reciprocity_pkts r))).

  (** [Agora::HandleEventFft] *)
Definition HandleEventFft (tag : Tag) : M unit :=
    let frame_id := tag.(frame_id) in
    let symbol_id := tag.(symbol_id) in
    match GetSymbolType cfg symbol_id with
    | kPilot =>
        let* last_fft_task := CompleteTask cfg pilot_fft_counters frame_id symbol_id in
        when last_fft_task (
          emit (PrintPerSymbolDone PrintType.kFFTPilots frame_id symbol_id) ;;
          let* rc := gets rc_last_frame in
          when (negb (IsRecCalEnabled cfg) || (IsRecCalEnabled cfg && (rc =? frame_id))) (
            (* If CSI of all UEs is ready, schedule ZF/prediction *)
            let* last_pilot_fft := CompleteSymbol cfg pilot_fft_counters frame_id in
            when last_pilot_fft (
              emit (MasterSetTsc kFFTPilotsDone frame_id) ;;
              emit (PrintPerFrameDone PrintType.kFFTPilots frame_id) ;;
              Reset cfg pilot_fft_counters frame_id ;;
              when (kPrintPhyStats cfg) (
                emit (PrintSnrStats frame_id) ;;
                when (IsRecCalEnabled cfg) (
                  let frame_grp_id :=
                    sub_sz frame_id (TX_FRAME_DELTA cfg) / AntGroupNum cfg in
                  when ((sub_sz frame_id (TX_FRAME_DELTA cfg) mod AntGroupNum cfg =? 0)
                        && (0 <? frame_grp_id)) (
                    emit (PrintCalibSnrStats (frame_grp_id - 1))))) ;;
              when (kEnableMac cfg) (call (CallSnrReport kSNRReport frame_id symbol_id)) ;;
              call (CallSubcarriers kZF frame_id 0))))
    | kUL =>
        let symbol_idx_ul := GetULSymbolIdx cfg symbol_id in
        let* last_fft_per_symbol :=
          CompleteTask cfg uplink_fft_counters frame_id symbol_id in
        when last_fft_per_symbol (
          vec_set fft_cur_frame_for_symbol set_fft_cur_frame_for_symbol
                  symbol_idx_ul frame_id ;;
          emit (PrintPerSymbolDone PrintType.kFFTData frame_id symbol_id) ;;
          (* If precoder exist, schedule demodulation *)
          let* zf := gets zf_last_frame in
          when (zf =? frame_id) (call (CallSubcarriers kDemul frame_id symbol_id)) ;;
          let* last_uplink_fft := CompleteSymbol cfg uplink_fft_counters frame_id in
          when last_uplink_fft (Reset cfg uplink_fft_counters frame_id))
    | kCalDL | kCalUL =>
        emit (PrintPerSymbolDone PrintType.kFFTCal frame_id symbol_id) ;;
        let* last_rc_task := CompleteFrameTask cfg rc_counters frame_id in
        when last_rc_task (
          emit (PrintPerFrameDone PrintType.kFFTCal frame_id) ;;
          Reset cfg rc_counters frame_id ;;
          emit (MasterSetTsc kRCDone frame_id) ;;
          modify (set_rc_last_frame frame_id))
    | _ => ret tt
    end.

  (** *** The cases of the [switch] in [Agora::Start]

      A handler returns [true] where the source jumps to [finish]. *)

  (** Loop over the tags of an event, leaving at the first [goto finish]. *)
Fixpoint for_tags (l : list Tag) (body : Tag -> M bool) : M bool :=
    match l with
    | [] => ret false
    | t :: l' =>
        let* finished := body t in
        if finished then ret true else for_tags l' body
    end.

Definition push_fft (slot : N) (t : Tag) : M unit :=
    modify (fun st =>
      set_fft_queue_arr (upd (fft_queue_arr st) slot (fft_queue_arr st slot ++ [t])) st).

Definition handle_PacketRX (event : EventData) : M bool :=
    let pkt := tag_at event 0 in
    let* cs := gets cur_sche_frame_id in
    if add_sz cs (kFrameWnd cfg) <=? pkt.(frame_id) then
      emit (ErrorFutureFrame pkt.(frame_id) cs (kFrameWnd cfg)) ;;
      modify (set_running false) ;;
      ret false
    else
      UpdateRxCounters pkt.(frame_id) pkt.(symbol_id) ;;
      push_fft (slot_of pkt.(frame_id)) pkt ;;
      ret false.

Definition handle_FFT (event : EventData) : M bool :=
    for_each (tags event) HandleEventFft ;; ret false.

Definition handle_ZF_tag (tag : Tag) : M unit :=
    let frame_id := tag.(frame_id) in
    let* n := gets (fun st =>
      FrameCounters.GetSymbolCount (kFrameWnd cfg) (counters st zf_counters) frame_id) in
    emit (PrintPerTaskDone PrintType.kZF frame_id 0 n) ;;
    let* last_zf_task := CompleteFrameTask cfg zf_counters frame_id in
    when last_zf_task (
      emit (MasterSetTsc kZFDone frame_id) ;;
      modify (set_zf_last_frame frame_id) ;;
      emit (PrintPerFrameDone PrintType.kZF frame_id) ;;
      Reset cfg zf_counters frame_id ;;
      when (kPrintZfStats cfg) (emit (PrintZfStats frame_id)) ;;
      for_range 0 (NumULSyms cfg) (fun i =>
        let* f := vec_at fft_cur_frame_for_symbol i in
        when (f =? frame_id) (
          call (CallSubcarriers kDemul frame_id (GetULSymbol cfg i)))) ;;
      (* Schedule precoding for downlink symbols *)
      for_range 0 (NumDLSyms cfg) (fun i =>
        let* last_encoded_frame := vec_at encode_cur_frame_for_symbol i in
        when (negb (last_encoded_frame =? SIZE_MAX) && (frame_id <=? last_encoded_frame)) (
          call (CallSubcarriers kPrecode frame_id (GetDLSymbol cfg i))))).

Definition handle_ZF (event : EventData) : M bool :=
    for_each (tags event) handle_ZF_tag ;; ret false.

Definition handle_Demul (event : EventData) : M bool :=
    let frame_id := (tag_at event 0).(frame_id) in
    let symbol_id := (tag_at event 0).(symbol_id) in
    let base_sc_id := (tag_at event 0).(aux_id) in
    emit (PrintPerTaskDone PrintType.kDemul frame_id symbol_id base_sc_id) ;;
    let* last_demul_task := CompleteTask cfg demul_counters frame_id symbol_id in
    when last_demul_task (
      call (CallCodeblocks kDecode frame_id symbol_id) ;;
      emit (PrintPerSymbolDone PrintType.kDemul frame_id symbol_id) ;;
      let* last_demul_symbol := CompleteSymbol cfg demul_counters frame_id in
      when last_demul_symbol (
        Reset cfg demul_counters frame_id ;;
        modify (set_max_equaled_frame frame_id) ;;
        (if negb (BigstationMode cfg) then
           let* cs := gets cur_sche_frame_id in
           assert_ (cs =? frame_id) ;;
           CheckIncrementScheduleFrame frame_id kUplinkComplete
         else
           call (CallCodeblocks kDecode frame_id symbol_id)) ;;
        emit (MasterSetTsc kDemulDone frame_id) ;;
        emit (PrintPerFrameDone PrintType.kDemul frame_id))) ;;
    ret false.

Definition handle_Decode (event : EventData) : M bool :=
    let frame_id := (tag_at event 0).(frame_id) in
    let symbol_id := (tag_at event 0).(symbol_id) in
    let* last_decode_task := CompleteTask cfg decode_counters frame_id symbol_id in
    if last_decode_task then
      when (kEnableMac cfg) (call (CallUsers kPacketToMac frame_id symbol_id)) ;;
      emit (PrintPerSymbolDone PrintType.kDecode frame_id symbol_id) ;;
      let* last_decode_symbol := CompleteSymbol cfg decode_counters frame_id in
      if last_decode_symbol then
        emit (MasterSetTsc kDecodeDone frame_id) ;;
        emit (PrintPerFrameDone PrintType.kDecode frame_id) ;;
        if negb (kEnableMac cfg) then
          let* cp := gets cur_proc_frame_id in
          assert_ (cp =? frame_id) ;;
          CheckFrameComplete frame_id
        else ret false
      else ret false
    else ret false.

Definition handle_RANUpdate (event : EventData) : M bool :=
    emit (UpdateRanConfig (tag_at event 1)) ;; ret false.

Definition handle_PacketToMac (event : EventData) : M bool :=
    let frame_id := (tag_at event 0).(frame_id) in
    let symbol_id := (tag_at event 0).(symbol_id) in
    let* last_tomac_task := CompleteTask cfg tomac_counters frame_id symbol_id in
    if last_tomac_task then
      emit (PrintPerSymbolDone PrintType.kPacketToMac frame_id symbol_id) ;;
      let* last_tomac_symbol := CompleteSymbol cfg tomac_counters frame_id in
      if last_tomac_symbol then
        let* cp := gets cur_proc_frame_id in
        assert_ (cp =? frame_id) ;;
        emit (PrintPerFrameDone PrintType.kPacketToMac frame_id) ;;
        CheckFrameComplete frame_id
      else ret false
    else ret false.

Definition handle_PacketFromMac (event : EventData) : M bool :=
    let frame_id := (tag_at event 0).(frame_id) in
    let* last_ue := CompleteTask cfg mac_to_phy_counters frame_id 0 in
    when last_ue (
      (* schedule this frame's encoding *)
      defer_or_schedule frame_id ;;
      Reset cfg mac_to_phy_counters frame_id ;;
      emit (PrintPerFrameDone PrintType.kPacketFromMac frame_id)) ;;
    ret false.

Definition handle_Encode_tag (tag : Tag) : M unit :=
    let frame_id := tag.(frame_id) in
    let symbol_id := tag.(symbol_id) in
    let* last_encode_task := CompleteTask cfg encode_counters frame_id symbol_id in
    when last_encode_task (
      vec_set encode_cur_frame_for_symbol set_encode_cur_frame_for_symbol
              (GetDLSymbolIdx cfg symbol_id) frame_id ;;
      (* If precoder of the current frame exists *)
      let* zf := gets zf_last_frame in
      when (zf =? frame_id) (call (CallSubcarriers kPrecode frame_id symbol_id)) ;;
      emit (PrintPerSymbolDone PrintType.kEncode frame_id symbol_id) ;;
      let* last_encode_symbol := CompleteSymbol cfg encode_counters frame_id in
      when last_encode_symbol (
        Reset cfg encode_counters frame_id ;;
        emit (MasterSetTsc kEncodeDone frame_id) ;;
        emit (PrintPerFrameDone PrintType.kEncode frame_id))).

Definition handle_Encode (event : EventData) : M bool :=
    for_each (tags event) handle_Encode_tag ;; ret false.

Definition handle_Precode (event : EventData) : M bool :=
    let sc_id := (tag_at event 0).(aux_id) in
    let frame_id := (tag_at event 0).(frame_id) in
    let symbol_id := (tag_at event 0).(symbol_id) in
    emit (PrintPerTaskDone PrintType.kPrecode frame_id symbol_id sc_id) ;;
    let* last_precode_task := CompleteTask cfg precode_counters frame_id symbol_id in
    when last_precode_task (
      call (CallAntennas kIFFT frame_id symbol_id) ;;
      emit (PrintPerSymbolDone PrintType.kPrecode frame_id symbol_id) ;;
      let* last_precode_symbol := CompleteSymbol cfg precode_counters frame_id in
      when last_precode_symbol (
        Reset cfg precode_counters frame_id ;;
        emit (MasterSetTsc kPrecodeDone frame_id) ;;
        emit (PrintPerFrameDone PrintType.kPrecode frame_id))) ;;
    ret false.

  (** The inner loop of the [kIFFT] case:
      [for (sym_id = symbol_idx_dl; sym_id <= GetSymbolCount(frame_id); sym_id++)],
      with [fuel] the iterations left; it leaves at the first symbol whose
      IFFT is not done for this frame. *)
Fixpoint schedule_tx_in_order (fuel : nat) (sym_id frame_id : N) : M unit :=
    match fuel with
    | O => ret tt
    | S fuel' =>
        let* symbol_ifft_frame := vec_at ifft_cur_frame_for_symbol sym_id in
        if symbol_ifft_frame =? frame_id then
          CallScheduleAntennasTX frame_id (GetDLSymbol cfg sym_id) ;;
          modify (fun st => set_ifft_next_symbol (add_sz (ifft_next_symbol st) 1) st) ;;
          schedule_tx_in_order fuel' (sym_id + 1) frame_id
        else ret tt
    end.

Definition handle_IFFT_tag (tag : Tag) : M bool :=
    (* IFFT is done, schedule data transmission *)
    let ant_id := tag.(aux_id) in
    let frame_id := tag.(frame_id) in
    let symbol_id := tag.(symbol_id) in
    let symbol_idx_dl := GetDLSymbolIdx cfg symbol_id in
    emit (PrintPerTaskDone PrintType.kIFFT frame_id symbol_id ant_id) ;;
    let* last_ifft_task := CompleteTask cfg ifft_counters frame_id symbol_id in
    if last_ifft_task then
      vec_set ifft_cur_frame_for_symbol set_ifft_cur_frame_for_symbol
              symbol_idx_dl frame_id ;;
      let* next := gets ifft_next_symbol in
      when (symbol_idx_dl =? next) (
        (* Check the available symbols starting from the current symbol
           Only schedule symbols that are continuously available *)
        let* count := GetSymbolCount cfg ifft_counters frame_id in
        schedule_tx_in_order (N.to_nat (count + 1 - symbol_idx_dl))
                             symbol_idx_dl frame_id) ;;
      emit (PrintPerSymbolDone PrintType.kIFFT frame_id symbol_id) ;;
      let* last_ifft_symbol := CompleteSymbol cfg ifft_counters frame_id in
      if last_ifft_symbol then
        modify (set_ifft_next_symbol 0) ;;
        emit (MasterSetTsc kIFFTDone frame_id) ;;
        emit (PrintPerFrameDone PrintType.kIFFT frame_id) ;;
        let* cp := gets cur_proc_frame_id in
        assert_ (frame_id =? cp) ;;
        CheckIncrementScheduleFrame frame_id kDownlinkComplete ;;
        CheckFrameComplete frame_id
      else ret false
    else ret false.

Definition handle_IFFT (event : EventData) : M bool :=
    for_tags (tags event) handle_IFFT_tag.

Definition handle_PacketTX (event : EventData) : M bool :=
    (* Data is sent *)
    let ant_id := (tag_at event 0).(aux_id) in
    let frame_id := (tag_at event 0).(frame_id) in
    let symbol_id := (tag_at event 0).(symbol_id) in
    emit (PrintPerTaskDone PrintType.kPacketTX frame_id symbol_id ant_id) ;;
    let* last_tx_task := CompleteTask cfg tx_counters frame_id symbol_id in
    if last_tx_task then
      emit (PrintPerSymbolDone PrintType.kPacketTX frame_id symbol_id) ;;
      (* If tx of the first symbol is done *)
      when (symbol_id =? GetDLSymbol cfg 0) (
        emit (MasterSetTsc kTXProcessedFirst frame_id) ;;
        emit (PrintPerFrameDone PrintType.kPacketTXFirst frame_id)) ;;
      let* last_tx_symbol := CompleteSymbol cfg tx_counters frame_id in
      let* work_finished :=
        (if last_tx_symbol then
           emit (MasterSetTsc kTXDone frame_id) ;;
           emit (PrintPerFrameDone PrintType.kPacketTX frame_id) ;;
           CheckFrameComplete frame_id
         else ret false) in
      if work_finished then ret true
      else
        modify (fun st => set_tx_count (add_sz (tx_count st) 1) st) ;;
        let* n := gets tx_count in
        let* m := gets (fun st => max_symbol_count (counters st tx_counters)) in
        when (n =? mul_sz m 9000) (
          modify (set_tx_count 0) ;;
          emit PrintTxThroughput) ;;
        ret false
    else ret false.

  (** The [switch (event.event_type_)] of [Agora::Start]. *)
Definition handle_switch (event : EventData) : M bool :=
    match event.(event_type) with
    | kPacketRX => handle_PacketRX event
    | kFFT => handle_FFT event
    | kZF => handle_ZF event
    | kDemul => handle_Demul event
    | kDecode => handle_Decode event
    | kRANUpdate => handle_RANUpdate event
    | kPacketToMac => handle_PacketToMac event
    | kPacketFromMac => handle_PacketFromMac event
    | kEncode => handle_Encode event
    | kPrecode => handle_Precode event
    | kIFFT => handle_IFFT event
    | kPacketTX => handle_PacketTX event
    | kSNRReport => emit ErrorWrongEventType ;; throw ProcessExit
    end.

  (** The FFT scheduling that follows the [switch] for every event. *)
Definition pop_fft (slot : N) : M Tag :=
    let* q := gets (fun st => fft_queue_arr st slot) in
    match q with
    | [] => throw EmptyQueueFront
    | t :: rest =>
        modify (fun st => set_fft_queue_arr (upd (fft_queue_arr st) slot rest) st) ;;
        ret t
    end.

Fixpoint fill_fft_task (fuel : nat) (slot : N) : M (list Tag) :=
    match fuel with
    | O => ret []
    | S fuel' =>
        let* t := pop_fft slot in
        let* created := gets fft_created_count in
        let* cs := gets cur_sche_frame_id in
        when (created =? 0) (emit (MasterSetTsc kProcessingStarted cs)) ;;
        modify (fun st => set_fft_created_count (add_sz (fft_created_count st) 1) st) ;;
        let* created := gets fft_created_count in
        when (created =? num_pkts_per_frame cfg) (
          modify (set_fft_created_count 0) ;;
          when (BigstationMode cfg) (
            let* cs := gets cur_sche_frame_id in
            CheckIncrementScheduleFrame cs kUplinkComplete)) ;;
        let* ts := fill_fft_task fuel' slot in
        ret (t :: ts)
    end.

Definition schedule_fft : M unit :=
    let* cs := gets cur_sche_frame_id in
    let slot := slot_of cs in
    let qid := N.land cs 1 in
    let* size := gets (fun st => N.of_nat (length (fft_queue_arr st slot))) in
    when (FftBlockSize cfg <=? size) (
      (if FftBlockSize cfg =? 0 then throw DivisionByZero else ret tt) ;;
      let num_fft_blocks := size / FftBlockSize cfg in
      for_range 0 num_fft_blocks (fun _ =>
        let* ts := fill_fft_task (N.to_nat (FftBlockSize cfg)) slot in
        emit (EnqueueFft qid ts))).

  (** One iteration of [for (ev_i = 0; ev_i < num_events; ev_i++)]. *)
Definition handle_event (event : EventData) : M bool :=
    let* finished := handle_switch event in
    if finished then ret true
    else schedule_fft ;; ret false.

Fixpoint handle_events (events : list EventData) : M bool :=
    match events with
    | [] => ret false
    | ev :: rest =>
        let* finished := handle_event ev in
        if finished then ret true else handle_events rest
    end.

  (** The code after the label [finish]: statistics, then [Stop()]. *)
Definition finish : M unit :=
    emit PrintSummary ;; modify (set_running false).

  (** [Agora::Start], the event loop.  Each element of [batches] is what one
      iteration dequeues: on an I/O turn the events of the RX producers and
      the MAC response queue, otherwise the events of
      [complete_task_queue_[cur_proc_frame_id_ & 1]].  The loop leaves when
      [Running()] is false or a handler jumps to [finish]; when [batches] is
      used up the run is cut there.  The start of packet I/O before the loop
      and the exit signal of [SignalHandler] are outside the embedding. *)
Definition loop_iteration (batch : list EventData) : M bool :=
    modify (fun st =>
      set_is_turn_to_dequeue_from_io (negb (is_turn_to_dequeue_from_io st)) st) ;;
    handle_events batch.

Fixpoint Start (batches : list (list EventData)) : M unit :=
    match batches with
    | [] => ret tt
    | batch :: rest =>
        let* r := gets running in
        if r then
          let* finished := loop_iteration batch in
          if finished then finish else Start rest
        else finish
    end.

  (** The state the constructor and [Initialize...Buffers] leave.  The
      constructor calls [CheckIncrementScheduleFrame(0, kProcessingComplete)]
      to set the schedule flags and then zeroes both frame counters.  The
      scalars whose initialisers are in the class declaration
      ([zf_last_frame_], [rc_last_frame_], [max_equaled_frame_],
      [ifft_next_symbol_]) start like the rendezvous vectors and counters
      they accompany: no frame ([SIZE_MAX]) and zero. *)
Definition init_flags : N :=
    add_u8 (add_u8 kNone (if NumULSyms cfg =? 0 then kUplinkComplete else 0))
           (if NumDLSyms cfg =? 0 then kDownlinkComplete else 0).

Definition no_counters : FrameCounters := FrameCounters.Init 0 0.

Definition init_counters (s : Stage) : FrameCounters :=
    let dl := 0 <? NumDLSyms cfg in
    match s with
    | pilot_fft_counters => FrameCounters.Init (NumPilotSyms cfg) (BsAntNum cfg)
    | uplink_fft_counters => FrameCounters.Init (NumULSyms cfg) (BsAntNum cfg)
    | rc_counters => FrameCounters.Init (BsAntNum cfg) 0
    | zf_counters => FrameCounters.Init (ZfEventsPerSymbol cfg) 0
    | demul_counters => FrameCounters.Init (NumULSyms cfg) (DemulEventsPerSymbol cfg)
    | decode_counters =>
        FrameCounters.Init (NumULSyms cfg) (mul_sz (NumBlocksInSymbol cfg) (UeAntNum cfg))
    | tomac_counters => FrameCounters.Init (NumULSyms cfg) (UeAntNum cfg)
    | encode_counters =>
        if dl then FrameCounters.Init (NumDlDataSyms cfg)
                     (mul_sz (NumBlocksInSymbol cfg) (UeAntNum cfg))
        else no_counters
    | precode_counters =>
        if dl then FrameCounters.Init (NumDLSyms cfg) (DemulEventsPerSymbol cfg)
        else no_counters
    | ifft_counters =>
        if dl then FrameCounters.Init (NumDLSyms cfg) (BsAntNum cfg) else no_counters
    | tx_counters =>
        if dl then FrameCounters.Init (NumDLSyms cfg) (BsAntNum cfg) else no_counters
    | mac_to_phy_counters =>
        if dl then FrameCounters.Init 1 (UeAntNum cfg) else no_counters
    end.

Definition init_state : State :=
    {| running := true;
       is_turn_to_dequeue_from_io := true;
       cur_sche_frame_id := 0;
       cur_proc_frame_id := 0;
       schedule_process_flags := init_flags;
       zf_last_frame := SIZE_MAX;
       rc_last_frame := SIZE_MAX;
       fft_cur_frame_for_symbol := repeat SIZE_MAX (N.to_nat (NumULSyms cfg));
       encode_cur_frame_for_symbol := repeat SIZE_MAX (N.to_nat (NumDLSyms cfg));
       ifft_cur_frame_for_symbol := repeat SIZE_MAX (N.to_nat (NumDLSyms cfg));
       ifft_next_symbol := 0;
       encode_deferral := [];
       counters := init_counters;
       rx_counters := mkRx (fun _ => 0) (fun _ => 0) (fun _ => 0);
       fft_queue_arr := fun _ => [];
       fft_created_count := 0;
       max_equaled_frame := SIZE_MAX;
       dl_bits_buffer_status := fun _ _ => 0;
       tx_count := 0;
       trace := [] |}.
End Master.

(** * The worker threads *)

(** The computations a worker owns (the subclasses of [Doer]). *)
Inductive Doer := DoZF | DoFFT | DoIFFT | DoPrecode | DoEncode | DoDecode | DoDemul.

(** One call of [TryLaunch] on a computer, with the queue
    [GetConq(event_type, qid)], the completion queue
    [complete_task_queue_[out]] and the token [worker_ptoks_ptr_[tid][out]]:
    the computation, the queue it takes its task from and the completion
    queue it answers on. *)
Record Poll := mkPoll {
  poll_doer : Doer;
  poll_queue : QueueId;
  poll_complete : N
}.

#[global] Instance Doer_eq_dec : EqDecision Doer.
Proof. solve_decision. Defined.

(** ** [Agora::Worker] *)

(** [computers_vec] and [events_vec], filled side by side. *)
Definition computers (cfg : Config) : list (Doer * EventType) :=
  [(DoZF, kZF); (DoFFT, kFFT)]
  ++ (if 0 <? NumULSyms cfg then [(DoDecode, kDecode); (DoDemul, kDemul)] else [])
  ++ (if 0 <? NumDLSyms cfg
      then [(DoIFFT, kIFFT); (DoPrecode, kPrecode); (DoEncode, kEncode)] else []).

(** The calls of the [for] loop over [computers_vec] for the queue set
    [cur_qid], in the order they are tried. *)
Definition polls_of (cfg : Config) (cur_qid : N) : list Poll :=
  map (fun c => mkPoll (fst c) (Conq (snd c) cur_qid) cur_qid) (computers cfg).

(** The locals of the loop; [empty_queue] is true at the head of every
    iteration. *)
Record WorkerState := mkWorker {
  cur_qid : N;
  empty_queue_itrs : N
}.

Definition init_worker : WorkerState := mkWorker 0 0.

(** What one iteration of [while (Running())] meets: the answer of each
    [TryLaunch], and the values of [cur_sche_frame_id_] and
    [cur_proc_frame_id_] it reads (the master writes them meanwhile). *)
Record WorkerInput := mkInput {
  launches : Poll -> bool;
  seen_sche : N;
  seen_proc : N
}.

(** One iteration: the first computer whose [TryLaunch] succeeds ends the
    [for] loop; when none does, the iteration counts as empty, and at the
    fifth count the worker chooses its queue set anew. *)
Definition Worker_iteration (cfg : Config) (i : WorkerInput) (w : WorkerState)
  : option Poll * WorkerState :=
  match find (launches i) (polls_of cfg (cur_qid w)) with
  | Some p => (Some p, w)
  | None =>
      let itrs := add_sz (empty_queue_itrs w) 1 in
      if itrs =? 5 then
        (None,
         mkWorker (if negb (seen_sche i =? seen_proc i)
                   then N.lxor (cur_qid w) 1
                   else N.land (seen_sche i) 1)
                  0)
      else (None, mkWorker (cur_qid w) itrs)
  end.

(** The iterations for a list of inputs, with what each one launched. *)
Fixpoint Worker_run (cfg : Config) (ins : list WorkerInput) (w : WorkerState)
  : list (option Poll) * WorkerState :=
  match ins with
  | [] => ([], w)
  | i :: rest =>
      let '(o, w') := Worker_iteration cfg i w in
      let '(os, w'') := Worker_run cfg rest w' in
      (o :: os, w'')
  end.

(** ** The workers of bigstation mode *)

Inductive WorkerKind := kWorker | kWorkerFFT | kWorkerZF | kWorkerDemul | kWorkerDecode.

#[global] Instance WorkerKind_eq_dec : EqDecision WorkerKind.
Proof. solve_decision. Defined.

(** The calls one iteration of the loop of [WorkerFft], [WorkerZf],
    [WorkerDemul] and [WorkerDecode] makes, in order.  [WorkerDemul] reaches
    its loop only when assertions are compiled out: [assert(false)] precedes
    it. *)
Definition WorkerFft_polls (cfg : Config) (launch : Poll -> bool) : list Poll :=
  let fft := mkPoll DoFFT (Conq kFFT 0) 0 in
  if launch fft then [fft]
  else if 0 <? NumDLSyms cfg then [fft; mkPoll DoIFFT (Conq kIFFT 0) 0]
  else [fft].

Definition WorkerZf_polls : list Poll := [mkPoll DoZF (Conq kZF 0) 0].

Definition WorkerDemul_polls (cfg : Config) : list Poll :=
  if 0 <? NumDLSyms cfg then [mkPoll DoPrecode (Conq kDemul 0) 0]
  else [mkPoll DoDemul (Conq kPrecode 0) 0].

Definition WorkerDecode_polls (cfg : Config) : list Poll :=
  if 0 <? NumDLSyms cfg then [mkPoll DoEncode (Conq kEncode 0) 0]
  else [mkPoll DoDecode (Conq kDecode 0) 0].

Definition bigstation_polls (cfg : Config) (k : WorkerKind) (launch : Poll -> bool)
  : list Poll :=
  match k with
  | kWorkerFFT => WorkerFft_polls cfg launch
  | kWorkerZF => WorkerZf_polls
  | kWorkerDemul => WorkerDemul_polls cfg
  | kWorkerDecode => WorkerDecode_polls cfg
  | kWorker => []
  end.

(** ** [Agora::CreateThreads] *)

(** The thread counts of the configuration. *)
Record ThreadNums := mkThreads {
  FftThreadNum : N;
  ZfThreadNum : N;
  DemulThreadNum : N;
  WorkerThreadNum : N
}.

(** The threads put in [workers_], in order: the function each one runs and
    its [tid].  The bounds of the loops are sums in [size_t]. *)
Definition CreateThreads (cfg : Config) (t : ThreadNums) : list (WorkerKind * N) :=
  if BigstationMode cfg then
    let fz := add_sz (FftThreadNum t) (ZfThreadNum t) in
    let fzd := add_sz fz (DemulThreadNum t) in
    map (pair kWorkerFFT) (N_range 0 (FftThreadNum t))
    ++ map (pair kWorkerZF) (N_range (FftThreadNum t) fz)
    ++ map (pair kWorkerDemul) (N_range fz fzd)
    ++ map (pair kWorkerDecode) (N_range fzd (WorkerThreadNum t))
  else map (pair kWorker) (N_range 0 (WorkerThreadNum t)).

(** * The UDP server of [src/common/udp_server.h]

    The operating system is outside the embedding: what a system call
    returns is an argument of the function that makes the call. *)

(** [errno] after a failed call. *)
Inductive Errno := EAGAIN | EWOULDBLOCK | EOTHER (code : N).

(** What [recv] and [recvfrom] hand back: the return value and [errno]. *)
Record SysResult := mkSys { sys_ret : Z; sys_errno : Errno }.

(** The messages printed on [stderr]. *)
Inductive UdpLog :=
| LogRecvFailed (e : Errno)        (* recv() failed with unexpected error *)
| LogRecvFromFailed (e : Errno)    (* recvfrom() failed with unexpected error *)
| LogRecvZero.                     (* recv() failed with return of 0 *)

(** The exceptions thrown. *)
Inductive UdpError :=
| FailedToResolve (remote_uri : string)
| FcntlGetFlagsFailed
| FcntlSetBlockingFailed
| SocketNotBlocking
| SetTimeoutFailed.

Inductive UdpResult (A : Type) :=
| UdpOk (a : A)
| UdpThrow (e : UdpError).
Arguments UdpOk {A} a.
Arguments UdpThrow {A} e.

(** The tail shared by [Recv] and [RecvFrom]: the value returned for the
    result [r] of the system call, and what is printed. *)
Definition recv_outcome (failed : Errno -> UdpLog) (r : SysResult) : Z * list UdpLog :=
  if (sys_ret r =? -1)%Z then
    match sys_errno r with
    | EAGAIN | EWOULDBLOCK => (0%Z, [])
    | e => (sys_ret r, [failed e])
    end
  else if (sys_ret r =? 0)%Z then (sys_ret r, [LogRecvZero])
  else (sys_ret r, []).

(** [UDPServer::Recv] *)
Definition UDPServer_Recv (recv : SysResult) : Z * list UdpLog :=
  recv_outcome LogRecvFailed recv.

(** [std::to_string] of an unsigned number: its decimal digits. *)
Definition to_string (n : N) : string := NilZero.string_of_uint (N.to_uint n).

(** The key of the cache: [src_address + ":" + std::to_string(src_port)]. *)
Definition remote_uri (src_address : string) (src_port : N) : string :=
  String.append src_address (String.append ":" (to_string src_port)).

(** An [addrinfo*] handed out by the resolver. *)
Definition AddrInfo := N.

(** [UDPServer::RecvFrom], on the cache [addrinfo_map_].  [getaddrinfo] gives
    its return code and the list it stored through the out pointer (absent
    for [nullptr]); [recvfrom] is the result of the system call for the
    address it is given. *)
Definition UDPServer_RecvFrom
    (getaddrinfo : string -> string -> Z * option AddrInfo)
    (recvfrom : AddrInfo -> SysResult)
    (src_address : string) (src_port : N)
    (addrinfo_map : gmap string AddrInfo)
  : UdpResult (Z * list UdpLog * gmap string AddrInfo) :=
  let uri := remote_uri src_address src_port in
  let receive (rem_addrinfo : AddrInfo) (m : gmap string AddrInfo) :=
    let '(ret, log) := recv_outcome LogRecvFromFailed (recvfrom rem_addrinfo) in
    UdpOk (ret, log, m) in
  match addrinfo_map !! uri with
  | None =>
      match getaddrinfo src_address (to_string src_port) with
      | (r, Some rem_addrinfo) =>
          if (r =? 0)%Z then receive rem_addrinfo (<[uri := rem_addrinfo]> addrinfo_map)
          else UdpThrow (FailedToResolve uri)
      | (_, None) => UdpThrow (FailedToResolve uri)
      end
  | Some rem_addrinfo => receive rem_addrinfo addrinfo_map
  end.

(** The calls [UDPServer::MakeBlocking] makes. *)
Inductive Syscall :=
| FcntlGetFl
| FcntlSetFl (flags : Z)
| SetRcvTimeo (timeout_sec : N).

(** [UDPServer::MakeBlocking(timeout_sec)].  [flags1] is what the first
    [fcntl(F_GETFL)] returns, [set_status] what [fcntl(F_SETFL)] returns,
    [flags2] what the second [fcntl(F_GETFL)] returns and [opt_status] what
    [setsockopt] returns, each looked at only if the call is made.  The
    result is the list of the calls made, in order. *)
Definition UDPServer_MakeBlocking (O_NONBLOCK : Z)
    (flags1 set_status flags2 opt_status : Z) (timeout_sec : N)
  : UdpResult (list Syscall) :=
  if (flags1 =? -1)%Z then UdpThrow FcntlGetFlagsFailed
  else
    let desired_flags := Z.land flags1 (Z.lnot O_NONBLOCK) in
    let set_timeout (calls : list Syscall) :=
      if timeout_sec =? 0 then UdpOk calls
      else if (opt_status =? 0)%Z then UdpOk (calls ++ [SetRcvTimeo timeout_sec])
      else UdpThrow SetTimeoutFailed in
    if negb (desired_flags =? flags1)%Z then
      if (set_status =? -1)%Z then UdpThrow FcntlSetBlockingFailed
      else if (flags2 =? -1)%Z then UdpThrow FcntlGetFlagsFailed
      else if negb (flags2 =? desired_flags)%Z then UdpThrow SocketNotBlocking
      else set_timeout [FcntlGetFl; FcntlSetFl desired_flags; FcntlGetFl]
    else set_timeout [FcntlGetFl].

(** * Specification vocabulary *)

(** ** What a counter reports *)

(** The answer [CompleteTask] would give in state [st]: this completion is
    the last task of its symbol. *)
Definition is_last_task (cfg : Config) (st : State) (s : Stage) (frame symbol : N) : bool :=
  fst (FrameCounters.CompleteTask (kFrameWnd cfg) (counters st s) frame symbol).

(** The answer [CompleteSymbol] would give in state [st]: this symbol is the
    last of its frame. *)
Definition is_last_symbol (cfg : Config) (st : State) (s : Stage) (frame : N) : bool :=
  fst (FrameCounters.CompleteSymbol (kFrameWnd cfg) (counters st s) frame).

(** ** Reading the trace *)

(** The [Schedule...] calls among trace entries, in the order of the list. *)
Definition calls_in (l : list Action) : list SchedCall :=
  omap (fun a => match a with Sched c => Some c | _ => None end) l.

(** Between [st] and [st'] the master made exactly the calls [cs], in this
    order (the trace is newest first). *)
Definition dispatched (st st' : State) (cs : list SchedCall) : Prop :=
  exists new, trace st' = new ++ trace st /\ calls_in (rev new) = cs.

(** The calls [ScheduleSubcarriers(k, ...)] among trace entries. *)
Definition is_subcarriers (k : EventType) (a : Action) : bool :=
  match a with
  | Sched (CallSubcarriers ev _ _) => EventType_beq ev k
  | _ => false
  end.
Definition subcarrier_calls (k : EventType) (l : list Action) : list Action :=
  List.filter (is_subcarriers k) l.

(** The number of tags of each event put on a queue, in order. *)
Definition batch_sizes (l : list Enqueued) : list N :=
  flat_map (fun e => map (fun ev => N.of_nat (length (tags ev))) (enq_events e)) l.

Definition decode_call (frame symbol : N) : Action :=
  Sched (CallCodeblocks kDecode frame symbol).

(** ** The environment of the master *)

(** [frame_id & 0x1]: the queue set a frame's work is put on. *)
Definition parity (x : N) : N := N.land x 1.

(** The frames an event names: the handlers read [tags_[0]] or every tag. *)
Definition event_frames (ev : EventData) : list N :=
  frame_id (tag_at ev 0) :: map frame_id (tags ev).

(** Frame numbers stay below [SIZE_MAX], the "no frame" mark of the
    rendezvous tables. *)
Definition frames_in_range (ev : EventData) : Prop :=
  Forall (fun f => f < SIZE_MAX) (event_frames ev).

(** Events that workers put on a completion queue. *)
Definition worker_completion (k : EventType) : bool :=
  match k with
  | kFFT | kZF | kDemul | kDecode | kEncode | kPrecode | kIFFT => true
  | _ => false
  end.

(** The worker contract: the master enqueues the work of frame [f] on the
    queues of parity [f & 1], a worker answers on the completion queue of the
    same parity, and an iteration of the master drains
    [complete_task_queue_[cur_proc_frame_id_ & 1]].  So a completion dequeued
    when [cur_proc_frame_id_ & 1 = p] names frames of parity [p]. *)
Definition from_parity_queue (p : N) (ev : EventData) : Prop :=
  worker_completion (event_type ev) = true ->
  Forall (fun f => parity f = p) (event_frames ev).

(** The contract on a dequeued event used for the invariants: frames in
    range and the worker contract, whichever queue is polled ([io] is not
    looked at). *)
Definition gated_event (io : bool) (p : N) (ev : EventData) : Prop :=
  frames_in_range ev /\ from_parity_queue p ev.

(** The contract of the loop as written: on its I/O turn the master polls the
    message queue of the socket threads and the MAC response queue, which
    hold no worker completion; on the other turn it polls the completion
    queue of parity [p], which holds nothing else. *)
Definition queue_event (io : bool) (p : N) (ev : EventData) : Prop :=
  frames_in_range ev /\
  worker_completion (event_type ev) = negb io /\
  from_parity_queue p ev.

Definition queue_eventb (io : bool) (p : N) (ev : EventData) : bool :=
  forallb (fun f => f <? SIZE_MAX) (event_frames ev)
  && Bool.eqb (worker_completion (event_type ev)) (negb io)
  && (negb (worker_completion (event_type ev))
      || forallb (fun f => parity f =? p) (event_frames ev)).

(** States of the event loop reachable from the initial state, when every
    dequeued event satisfies [contract] for the turn and for the parity of
    [cur_proc_frame_id_] at the time of the dequeue, and no assertion
    fails.  A state left by a jump to [finish] is kept as a state from which
    the loop might go on: the relation has more states than the program. *)
Inductive reachable (cfg : Config) (contract : bool -> N -> EventData -> Prop)
  : State -> Prop :=
| reachable_init : reachable cfg contract (init_state cfg)
| reachable_iteration st batch finished st' :
    reachable cfg contract st ->
    running st = true ->
    Forall (contract (is_turn_to_dequeue_from_io st) (parity (cur_proc_frame_id st)))
           batch ->
    loop_iteration cfg batch st = Ok finished st' ->
    reachable cfg contract st'
| reachable_finish st st' :
    reachable cfg contract st ->
    finish st = Ok tt st' ->
    reachable cfg contract st'.

(** A run of the loop over [batches] from [st] that the program can make:
    the loop is running, each batch is what the polled queue can hold, no
    iteration fails, and none but the last jumps to [finish]. *)
Fixpoint run_ok (cfg : Config) (batches : list (list EventData)) (st : State) : bool :=
  match batches with
  | [] => true
  | batch :: rest =>
      running st
      && forallb (queue_eventb (is_turn_to_dequeue_from_io st)
                               (parity (cur_proc_frame_id st))) batch
      && match loop_iteration cfg batch st with
         | Ok finished st' =>
             (negb finished || (if rest is [] then true else false))
             && run_ok cfg rest st'
         | Err _ => false
         end
  end.

(** The state after the iterations [batches], or the state at which the run
    stopped with an error. *)
Fixpoint iterate (cfg : Config) (batches : list (list EventData)) (st : State) : State :=
  match batches with
  | [] => st
  | batch :: rest =>
      match loop_iteration cfg batch st with
      | Ok _ st' => iterate cfg rest st'
      | Err _ => st
      end
  end.

(** Within one batch of parity [p]: the schedule frame is at most one ahead
    of the processed frame, and when it is ahead it has the other parity. *)
Definition window_inv (p : N) (st : State) : Prop :=
  cur_sche_frame_id st <= cur_proc_frame_id st + 1 /\
  (cur_sche_frame_id st = cur_proc_frame_id st + 1 ->
   parity (cur_sche_frame_id st) <> p).

(** ** Test configurations

    One pilot symbol (symbol 0), then [n_ul] uplink symbols, then [n_dl]
    downlink symbols of which the first [n_dl_pilots] are client pilots; one
    antenna, one user, and one task per symbol in every stage. *)
Definition test_cfg (big mac : bool) (n_ul n_dl n_dl_pilots frames : N) : Config :=
  {| kFrameWnd := 8; kScheduleQueues := 2; kEnableMac := mac;
     kPrintPhyStats := false; kPrintZfStats := false;
     kDebugPrintPerFrameStart := false; TX_FRAME_DELTA := 0;
     BigstationMode := big; IsRecCalEnabled := false; FramesToTest := frames;
     NumPilotSyms := 1; NumULSyms := n_ul; NumDLSyms := n_dl;
     NumDlDataSyms := n_dl - n_dl_pilots; ClientDlPilotSymbols := n_dl_pilots;
     GetULSymbol := fun i => if i <? n_ul then 1 + i else SIZE_MAX;
     GetDLSymbol := fun i => if i <? n_dl then 1 + n_ul + i else SIZE_MAX;
     GetULSymbolIdx := fun s =>
       if (1 <=? s) && (s <=? n_ul) then s - 1 else SIZE_MAX;
     GetDLSymbolIdx := fun s =>
       if (n_ul <? s) && (s <=? n_ul + n_dl) then s - 1 - n_ul else SIZE_MAX;
     GetSymbolType := fun s =>
       if s =? 0 then kPilot else if s <=? n_ul then kUL
       else if s <=? n_ul + n_dl then kDL else kGuard;
     IsPilot := fun _ s => s =? 0;
     IsCalDlPilot := fun _ _ => false; IsCalUlPilot := fun _ _ => false;
     BsAntNum := 1; UeAntNum := 1; AntGroupNum := 1; SocketThreadNum := 1;
     NumChannels := 1; FftBlockSize := 1; ZfEventsPerSymbol := 1;
     ZfBlockSize := 1; ZfBatchSize := 1; DemulEventsPerSymbol := 1;
     DemulBlockSize := 1; EncodeBlockSize := 1; NumBlocksInSymbol := 1 |}.

(** An event with the single tag (frame, symbol, 0). *)
Definition event (k : EventType) (frame symbol : N) : EventData :=
  mkEvent k [mkTag frame symbol 0].

(** * Reasoning about master computations *)

(** [wpg E m Q st]: running [m] from [st] either returns [a] in a state [st']
    with [Q a st'], or ends with an error [e] with [E e]. *)
Definition wpg {A} (E : Error -> Prop) (m : M A) (Q : A -> State -> Prop)
    (st : State) : Prop :=
  match m st with
  | Ok a st' => Q a st'
  | Err e => E e
  end.

(** Partial correctness: errors are not constrained. *)
Abbreviation wlp := (wpg (fun _ => True)).
(** Total correctness: the computation returns. *)
Abbreviation wp := (wpg (fun _ => False)).

(** [m] keeps the invariant [I] whenever it returns. *)
Definition pres {A} (I : State -> Prop) (m : M A) : Prop :=
  forall st, I st -> wlp m (fun _ => I) st.

(** ** What the scheduling loops do, as lists *)

(** The calls of [ScheduleDownlinkProcessing(frame)]: Precode for the client
    pilot symbols when ZF of the frame is done, and Encode for the data
    symbols. *)
Definition pilot_precodes (cfg : Config) (frame : N) : list SchedCall :=
  map (fun i => CallSubcarriers kPrecode frame (GetDLSymbol cfg i))
      (N_range 0 (ClientDlPilotSymbols cfg)).
Definition data_encodes (cfg : Config) (frame : N) : list SchedCall :=
  map (fun i => CallCodeblocks kEncode frame (GetDLSymbol cfg i))
      (N_range (ClientDlPilotSymbols cfg) (NumDLSyms cfg)).

(** [v.at(i) = frame] for each index of [idxs] in turn; [None] when an index
    is out of range. *)
Fixpoint mark_all (frame : N) (idxs : list N) (v : list N) : option (list N) :=
  match idxs with
  | [] => Some v
  | i :: rest =>
      if i <? N.of_nat (length v)
      then mark_all frame rest (<[N.to_nat i := frame]> v)
      else None
  end.

(** The calls of the two loops that follow the last ZF task of [frame]:
    Demul for the uplink symbols whose FFT is recorded for [frame], and
    Precode for the downlink symbols whose recorded frame is [frame] or
    later. *)
Definition flush_demul (cfg : Config) (frame : N) (v : list N) : list SchedCall :=
  omap (fun i =>
          match vec_lookup v i with
          | Some f => if f =? frame
                      then Some (CallSubcarriers kDemul frame (GetULSymbol cfg i))
                      else None
          | None => None
          end)
       (N_range 0 (NumULSyms cfg)).
Definition flush_precode (cfg : Config) (frame : N) (v : list N) : list SchedCall :=
  omap (fun i =>
          match vec_lookup v i with
          | Some e => if negb (e =? SIZE_MAX) && (frame <=? e)
                      then Some (CallSubcarriers kPrecode frame (GetDLSymbol cfg i))
                      else None
          | None => None
          end)
       (N_range 0 (NumDLSyms cfg)).

(** The test of the encode trigger: defer when frames are already deferred
    or the frame is [kScheduleQueues] or more ahead of the processed frame
    (the sum taken in [size_t]). *)
Definition defers (cfg : Config) (st : State) (frame : N) : bool :=
  negb (if encode_deferral st is [] then true else false)
  || (add_sz (cur_proc_frame_id st) (kScheduleQueues cfg) <=? frame).

(** ** The order of transmission *)



(** The calls [ScheduleAntennasTX(frame, symbol)] and the frames of the IFFT
    completions among trace entries, in the order of the list. *)
Definition tx_calls (l : list Action) : list (N * N) :=
  omap (fun a => match a with Sched (CallAntennasTX f s) => Some (f, s) | _ => None end) l.

(** A scan of the trace for the order of transmission.  Its state is the
    index of the downlink symbol to transmit next in the period and the frame
    of the IFFT completion in hand; a transmission out of turn, or for
    another frame, stops the scan. *)
Definition tx_step (cfg : Config) (s : option (N * option N)) (a : Action)
  : option (N * option N) :=
  match s with
  | None => None
  | Some (next, cur) =>
      match a with
      | PrintPerTaskDone PrintType.kIFFT f _ _ => Some (next, Some f)
      | MasterSetTsc kIFFTDone _ => Some (0, None)
      | Sched (CallAntennasTX f sym) =>
          match cur with
          | Some g =>
              if (f =? g) && (sym =? GetDLSymbol cfg next)
              then Some (next + 1, cur) else None
          | None => None
          end
      | _ => s
      end
  end.
Definition tx_state (cfg : Config) (tr : list Action) : option (N * option N) :=
  fold_right (fun a s => tx_step cfg s a) (Some (0, None)) tr.

(** The invariant of the loop on transmissions: the scan of the trace goes
    through and ends on [ifft_next_symbol_], which stays within the table of
    IFFT frames. *)
Definition tx_inv (cfg : Config) (cur : option N) (st : State) : Prop :=
  tx_state cfg (trace st) = Some (ifft_next_symbol st, cur) /\
  ifft_next_symbol st <= N.of_nat (length (ifft_cur_frame_for_symbol st)) /\
  N.of_nat (length (ifft_cur_frame_for_symbol st)) <= SIZE_MAX.
Definition tx_ordered (cfg : Config) (st : State) : Prop :=
  exists cur, tx_inv cfg cur st.

(** ** Precoding after ZF and encoding *)

Definition is_precode (a : Action) : bool :=
  match a with Sched (CallSubcarriers kPrecode _ _) => true | _ => false end.

(** The trace entries that record the last ZF task of a frame and the last
    Encode task of a symbol. *)
Definition zf_done (frame : N) : Action := MasterSetTsc kZFDone frame.
Definition encode_done (frame symbol : N) : Action :=
  PrintPerSymbolDone PrintType.kEncode frame symbol.

(** A client pilot symbol of the downlink: one of the first
    [ClientDlPilotSymbols] downlink symbols; it carries no encoded data. *)
Definition client_pilot (cfg : Config) (symbol : N) : Prop :=
  exists i, i < ClientDlPilotSymbols cfg /\ symbol = GetDLSymbol cfg i.

(** Among [older], the last Encode task of the downlink symbol of the index
    of [symbol] has completed for [frame] or for a later frame. *)
Definition encoded_by (cfg : Config) (older : list Action) (frame symbol : N) : Prop :=
  exists i G s',
    symbol = GetDLSymbol cfg i /\ GetDLSymbolIdx cfg s' = i /\ frame <= G /\
    In (encode_done G s') older.

(** Every Precode call on the trace (newest first) follows the completion of
    ZF for its frame, and is for a client pilot symbol, or is made at the
    completion of the last Encode task of its symbol (the entry [newer] that
    follows it records that completion), or follows such a completion.
    [newer] is the entry that follows the head of the trace, if any. *)
Fixpoint precode_justified (cfg : Config) (newer : option Action) (tr : list Action)
  : Prop :=
  match tr with
  | [] => True
  | a :: older =>
      match a with
      | Sched (CallSubcarriers kPrecode F s) =>
          In (zf_done F) older /\
          (newer = Some (encode_done F s) \/ client_pilot cfg s \/ encoded_by cfg older F s)
      | _ => True
      end /\ precode_justified cfg (Some a) older
  end.

(** The invariant of the loop on precoding. *)
Definition precode_inv (cfg : Config) (st : State) : Prop :=
  (zf_last_frame st = SIZE_MAX \/ In (zf_done (zf_last_frame st)) (trace st)) /\
  (forall i G, vec_lookup (encode_cur_frame_for_symbol st) i = Some G -> G <> SIZE_MAX ->
     i < ClientDlPilotSymbols cfg \/
     exists s', GetDLSymbolIdx cfg s' = i /\ In (encode_done G s') (trace st)) /\
  precode_justified cfg None (trace st) /\
  Forall (fun f => f < SIZE_MAX) (encode_deferral st).


(** ** The drain of the deferral queue *)

(** The frames whose deferred processing was scheduled, among trace entries,
    in the order of the list: the master prints each one just before it calls
    [ScheduleDownlinkProcessing]. *)
Definition deferred_scheduled (l : list Action) : list N :=
  omap (fun a => match a with PrintSchedulingDeferred f _ => Some f | _ => None end) l.

(** ** The events of ZF *)

(** The event that turn [i] of the ZF loop of [ScheduleSubcarriers] enqueues
    when [num_tags] is the value of [event.num_tags_] in that turn. *)
Definition zf_batch (cfg : Config) (frame symbol num_tags i : N) : Enqueued :=
  Enq (Conq kZF (N.land frame 1))
    [mkEvent kZF
       (map (fun j => mkTag frame symbol (ZfBlockSize cfg * (i * num_tags + j)))
            (N_range 0 num_tags))].

(** The third coordinate (antenna, subcarrier, ...) of every tag put on a
    queue, in order. *)
Definition aux_ids (l : list Enqueued) : list N :=
  flat_map (fun e => flat_map (fun ev => map aux_id (tags ev)) (enq_events e)) l.

(** A configuration with other sizes for ZF. *)
Definition with_zf (cfg : Config) (events batch block : N) : Config :=
  {| kFrameWnd := kFrameWnd cfg; kScheduleQueues := kScheduleQueues cfg;
     kEnableMac := kEnableMac cfg; kPrintPhyStats := kPrintPhyStats cfg;
     kPrintZfStats := kPrintZfStats cfg;
     kDebugPrintPerFrameStart := kDebugPrintPerFrameStart cfg;
     TX_FRAME_DELTA := TX_FRAME_DELTA cfg; BigstationMode := BigstationMode cfg;
     IsRecCalEnabled := IsRecCalEnabled cfg; FramesToTest := FramesToTest cfg;
     NumPilotSyms := NumPilotSyms cfg; NumULSyms := NumULSyms cfg;
     NumDLSyms := NumDLSyms cfg; NumDlDataSyms := NumDlDataSyms cfg;
     ClientDlPilotSymbols := ClientDlPilotSymbols cfg;
     GetULSymbol := GetULSymbol cfg; GetDLSymbol := GetDLSymbol cfg;
     GetULSymbolIdx := GetULSymbolIdx cfg; GetDLSymbolIdx := GetDLSymbolIdx cfg;
     GetSymbolType := GetSymbolType cfg; IsPilot := IsPilot cfg;
     IsCalDlPilot := IsCalDlPilot cfg; IsCalUlPilot := IsCalUlPilot cfg;
     BsAntNum := BsAntNum cfg; UeAntNum := UeAntNum cfg;
     AntGroupNum := AntGroupNum cfg; SocketThreadNum := SocketThreadNum cfg;
     NumChannels := NumChannels cfg; FftBlockSize := FftBlockSize cfg;
     ZfEventsPerSymbol := events; ZfBlockSize := block; ZfBatchSize := batch;
     DemulEventsPerSymbol := DemulEventsPerSymbol cfg;
     DemulBlockSize := DemulBlockSize cfg; EncodeBlockSize := EncodeBlockSize cfg;
     NumBlocksInSymbol := NumBlocksInSymbol cfg |}.

(** ** Auxiliary predicates of the proofs *)

(** Invariants of the form "these parts of the state are as in [st0]" for the
    parts the deferral drain never writes. *)
Definition retired_like (st0 st : State) : Prop :=
  cur_proc_frame_id st = cur_proc_frame_id st0 /\ counters st = counters st0.

(** The calls [ScheduleSubcarriers(k, ...)] on the trace are [old]. *)
Definition same_subcarrier_calls (k : EventType) (old : list Action) (st : State) : Prop :=
  subcarrier_calls k (trace st) = old.

(** One turn of the loop of the ZF branch of [ScheduleSubcarriers], on the
    pair of [num_tags] and the events enqueued so far. *)
Definition zf_loop_body (cfg : Config) (frame symbol : N) (i : N)
    (s : N * list Enqueued) : N * list Enqueued :=
  let B := ZfBatchSize cfg in
  let n := ZfEventsPerSymbol cfg in
  let nb := n / B + (if 0 <? n mod B then 1 else 0) in
  let '(num_tags, out) := s in
  let num_tags := if (i =? nb - 1) && (0 <? n mod B) then n mod B else num_tags in
  let tags := map (fun j => mkTag frame symbol (ZfBlockSize cfg * (i * num_tags + j)))
                  (N_range 0 num_tags) in
  (num_tags, out ++ [Enq (Conq kZF (N.land frame 1)) [mkEvent kZF tags]]).


(** The table of IFFT frames is [v] and the transmissions made are [old]. *)
Definition buffered (v : list N) (old : list (N * N)) (st : State) : Prop :=
  ifft_cur_frame_for_symbol st = v /\ tx_calls (trace st) = old.


(** ** Runs of the loop used as examples *)

(** The state after the uplink FFT of frame 0 finished before its ZF. *)
Definition fft_before_zf : State :=
  match Start (test_cfg false false 1 0 0 3)
          [[event kPacketRX 0 0; event kPacketRX 0 1]; [event kFFT 0 1]]
          (init_state (test_cfg false false 1 0 0 3)) with
  | Ok _ st => st
  | Err _ => init_state (test_cfg false false 1 0 0 3)
  end.

(** The run of the fourth scenario: the first packet of frame 2 arrives while
    frame 0 is in process and is deferred; frame 0 then goes through its
    uplink and downlink stages. *)
Definition deferred_frame_run : list (list EventData) :=
  [ [event kPacketRX 0 0; event kPacketRX 0 1; event kPacketRX 1 0; event kPacketRX 2 0];
    [event kFFT 0 0; event kEncode 0 2];
    [];
    [event kZF 0 0; event kFFT 0 1; event kDemul 0 1; event kDecode 0 1;
     event kPrecode 0 2; event kIFFT 0 2] ].

(** The state in which the last transmission of frame 0 is handled. *)
Definition before_retirement : State :=
  match Start (test_cfg false false 1 1 0 5) deferred_frame_run
          (init_state (test_cfg false false 1 1 0 5)) with
  | Ok _ st => st
  | Err _ => init_state (test_cfg false false 1 1 0 5)
  end.

(** The same state once the TX counter has recorded the last symbol of
    frame 0, as [CheckFrameComplete(0)] finds it. *)
Definition at_retirement : State :=
  set_counter tx_counters
    (snd (FrameCounters.CompleteSymbol 8 (counters before_retirement tx_counters) 0))
    before_retirement.

(** An uplink-only frame up to the end of demodulation. *)
Definition uplink_until_demul : list (list EventData) :=
  [ [event kPacketRX 0 0; event kPacketRX 0 1];
    [event kFFT 0 0; event kFFT 0 1];
    [];
    [event kZF 0 0];
    [];
    [event kDemul 0 1] ].

(** All the packets of frames 0, 1 and 2 of an uplink-only schedule, polled
    from the socket threads in one turn. *)
Definition three_frames_received : list (list EventData) :=
  [ [event kPacketRX 0 0; event kPacketRX 0 1;
     event kPacketRX 1 0; event kPacketRX 1 1;
     event kPacketRX 2 0; event kPacketRX 2 1] ].




(** * Further vocabulary *)

(** ** Batches of consecutive ids *)

(** The event put on a queue for the [count] ids from [first] on. *)
Definition id_batch (mk : N -> Tag) (enq : list Tag -> Enqueued) (first count : N)
  : Enqueued :=
  enq (map (fun j => mk (first + j)) (N_range 0 count)).

(** One turn of the loop shared by [ScheduleAntennas] and
    [ScheduleCodeblocks], on the triple of [event.num_tags_], the id of
    [base_tag] and the events enqueued so far: [n] ids in batches of [B]. *)
Definition counted_loop_body (B n : N) (mk : N -> Tag) (enq : list Tag -> Enqueued)
    (i : N) (s : N * N * list Enqueued) : N * N * list Enqueued :=
  let nb := n / B + (if 0 <? n mod B then 1 else 0) in
  let '(num_tags, id, out) := s in
  let num_tags := if (i =? nb - 1) && (0 <? n mod B) then n mod B else num_tags in
  (num_tags, id + num_tags, out ++ [id_batch mk enq id num_tags]).

(** The frame and symbol of every tag put on a queue, the types of the
    events and the queues, in order. *)
Definition tag_coordinates (l : list Enqueued) : list (N * N) :=
  flat_map (fun e => flat_map (fun ev => map (fun t => (frame_id t, symbol_id t)) (tags ev))
                              (enq_events e)) l.
Definition event_types (l : list Enqueued) : list EventType :=
  flat_map (fun e => map event_type (enq_events e)) l.
Definition queues (l : list Enqueued) : list QueueId := map enq_queue l.

(** Configurations with other numbers of antennas and socket threads, and
    with other numbers of users and code blocks. *)
Definition with_antennas (cfg : Config) (ants fft_block threads channels : N) : Config :=
  {| kFrameWnd := kFrameWnd cfg; kScheduleQueues := kScheduleQueues cfg;
     kEnableMac := kEnableMac cfg; kPrintPhyStats := kPrintPhyStats cfg;
     kPrintZfStats := kPrintZfStats cfg;
     kDebugPrintPerFrameStart := kDebugPrintPerFrameStart cfg;
     TX_FRAME_DELTA := TX_FRAME_DELTA cfg; BigstationMode := BigstationMode cfg;
     IsRecCalEnabled := IsRecCalEnabled cfg; FramesToTest := FramesToTest cfg;
     NumPilotSyms := NumPilotSyms cfg; NumULSyms := NumULSyms cfg;
     NumDLSyms := NumDLSyms cfg; NumDlDataSyms := NumDlDataSyms cfg;
     ClientDlPilotSymbols := ClientDlPilotSymbols cfg;
     GetULSymbol := GetULSymbol cfg; GetDLSymbol := GetDLSymbol cfg;
     GetULSymbolIdx := GetULSymbolIdx cfg; GetDLSymbolIdx := GetDLSymbolIdx cfg;
     GetSymbolType := GetSymbolType cfg; IsPilot := IsPilot cfg;
     IsCalDlPilot := IsCalDlPilot cfg; IsCalUlPilot := IsCalUlPilot cfg;
     BsAntNum := ants; UeAntNum := UeAntNum cfg;
     AntGroupNum := AntGroupNum cfg; SocketThreadNum := threads;
     NumChannels := channels; FftBlockSize := fft_block;
     ZfEventsPerSymbol := ZfEventsPerSymbol cfg; ZfBlockSize := ZfBlockSize cfg;
     ZfBatchSize := ZfBatchSize cfg;
     DemulEventsPerSymbol := DemulEventsPerSymbol cfg;
     DemulBlockSize := DemulBlockSize cfg; EncodeBlockSize := EncodeBlockSize cfg;
     NumBlocksInSymbol := NumBlocksInSymbol cfg |}.

Definition with_codeblocks (cfg : Config) (users blocks encode_block : N) : Config :=
  {| kFrameWnd := kFrameWnd cfg; kScheduleQueues := kScheduleQueues cfg;
     kEnableMac := kEnableMac cfg; kPrintPhyStats := kPrintPhyStats cfg;
     kPrintZfStats := kPrintZfStats cfg;
     kDebugPrintPerFrameStart := kDebugPrintPerFrameStart cfg;
     TX_FRAME_DELTA := TX_FRAME_DELTA cfg; BigstationMode := BigstationMode cfg;
     IsRecCalEnabled := IsRecCalEnabled cfg; FramesToTest := FramesToTest cfg;
     NumPilotSyms := NumPilotSyms cfg; NumULSyms := NumULSyms cfg;
     NumDLSyms := NumDLSyms cfg; NumDlDataSyms := NumDlDataSyms cfg;
     ClientDlPilotSymbols := ClientDlPilotSymbols cfg;
     GetULSymbol := GetULSymbol cfg; GetDLSymbol := GetDLSymbol cfg;
     GetULSymbolIdx := GetULSymbolIdx cfg; GetDLSymbolIdx := GetDLSymbolIdx cfg;
     GetSymbolType := GetSymbolType cfg; IsPilot := IsPilot cfg;
     IsCalDlPilot := IsCalDlPilot cfg; IsCalUlPilot := IsCalUlPilot cfg;
     BsAntNum := BsAntNum cfg; UeAntNum := users;
     AntGroupNum := AntGroupNum cfg; SocketThreadNum := SocketThreadNum cfg;
     NumChannels := NumChannels cfg; FftBlockSize := FftBlockSize cfg;
     ZfEventsPerSymbol := ZfEventsPerSymbol cfg; ZfBlockSize := ZfBlockSize cfg;
     ZfBatchSize := ZfBatchSize cfg;
     DemulEventsPerSymbol := DemulEventsPerSymbol cfg;
     DemulBlockSize := DemulBlockSize cfg; EncodeBlockSize := encode_block;
     NumBlocksInSymbol := blocks |}.

(** What is said of the events of a Schedule call that covers the ids
    [0 .. n-1] in batches of [B] for frame [F] and symbol [s]. *)
Definition covers_in_batches (out : list Enqueued) (Q : QueueId) (ev : EventType)
    (F s n B : N) : Prop :=
  aux_ids out = N_range 0 n /\
  batch_sizes out = repeat B (N.to_nat (n / B)) ++ (if 0 <? n mod B then [n mod B] else []) /\
  Forall (fun x => x = Q) (queues out) /\
  Forall (fun x => x = ev) (event_types out) /\
  Forall (fun x => x = (F, s)) (tag_coordinates out).

(** One turn of the loop over the radio handlers in [ScheduleAntennasTX], on
    the pair of [schedule_antenna] and the bulks enqueued so far. *)
Definition tx_loop_body (cfg : Config) (F s : N) (radio_handler : N)
    (st : N * list Enqueued) : N * list Enqueued :=
  let '(schedule_antenna, out) := st in
  let tx_event :=
    N.min (ceil_events_per_handler cfg) (BsAntNum cfg - schedule_antenna) in
  (schedule_antenna + tx_event,
   out ++ [Enq (TxConq radio_handler)
             (map (fun j => mkEvent kPacketTX [mkTag F s (schedule_antenna + j)])
                  (N_range 0 tx_event))]).

(** ** The stages of the pipeline *)

(** The kind of a Schedule call: the function called and the type of the
    events it enqueues. *)
Inductive CallKind :=
| KSubcarriers (ev : EventType)
| KCodeblocks (ev : EventType)
| KAntennas (ev : EventType)
| KAntennasTX
| KUsers (ev : EventType)
| KSnrReport (ev : EventType).

Scheme Equality for CallKind.

Definition call_kind (c : SchedCall) : CallKind :=
  match c with
  | CallSubcarriers ev _ _ => KSubcarriers ev
  | CallCodeblocks ev _ _ => KCodeblocks ev
  | CallAntennas ev _ _ => KAntennas ev
  | CallAntennasTX _ _ => KAntennasTX
  | CallUsers ev _ _ => KUsers ev
  | CallSnrReport ev _ _ => KSnrReport ev
  end.

(** The calls of [ScheduleDownlinkProcessing]. *)
Definition sdp_kinds : list CallKind := [KSubcarriers kPrecode; KCodeblocks kEncode].

(** The calls the handler of an event of type [k] can make.  The handlers
    that can retire a frame ([kDecode], [kPacketToMac], [kIFFT],
    [kPacketTX]) can start the downlink processing of deferred frames. *)
Definition stage_successors (k : EventType) : list CallKind :=
  match k with
  | kPacketRX | kPacketFromMac | kPacketToMac | kPacketTX => sdp_kinds
  | kFFT => [KSubcarriers kZF; KSubcarriers kDemul; KSnrReport kSNRReport]
  | kZF => [KSubcarriers kDemul; KSubcarriers kPrecode]
  | kDemul => [KCodeblocks kDecode]
  | kDecode => KUsers kPacketToMac :: sdp_kinds
  | kEncode => [KSubcarriers kPrecode]
  | kPrecode => [KAntennas kIFFT]
  | kIFFT => KAntennasTX :: sdp_kinds
  | kRANUpdate | kSNRReport => []
  end.

Definition allowedb (ks : list CallKind) (a : Action) : bool :=
  match a with
  | Sched c => existsb (CallKind_beq (call_kind c)) ks
  | _ => true
  end.

(** Since the trace was [tr0] the master made calls of the kinds [ks]
    only. *)
Definition only_calls (ks : list CallKind) (tr0 : list Action) (st : State) : Prop :=
  exists new, trace st = new ++ tr0 /\ forallb (allowedb ks) new = true.

(** The state of [fft_before_zf] after the master handled the [kFFT] event of
    the pilot symbol of frame 0. *)
Definition pilot_fft_handled : State :=
  match handle_event (test_cfg false false 1 0 0 3) (event kFFT 0 0) fft_before_zf with
  | Ok _ st => st
  | Err _ => fft_before_zf
  end.

(** ** The FFT dispatch *)

(** The FFT tasks among trace entries, with the parity of the queue each one
    is put on. *)
Definition fft_tasks (l : list Action) : list (N * list Tag) :=
  omap (fun a => match a with EnqueueFft q ts => Some (q, ts) | _ => None end) l.

(** The first [n] blocks of [B] elements of [l]. *)
Fixpoint blocks {A} (n B : nat) (l : list A) : list (list A) :=
  match n with
  | O => []
  | S n' => take B l :: blocks n' B (drop B l)
  end.

(** Against [st0], the FFT backlog of [slot] is [q] and the other backlogs
    are unchanged. *)
Definition fft_left (slot : N) (q : list Tag) (st0 st : State) : Prop :=
  fft_queue_arr st slot = q /\
  (forall x, x <> slot -> fft_queue_arr st x = fft_queue_arr st0 x).

(** Five received packets of frame 0 waiting in the FFT backlog, with FFT
    events of two tags. *)
Definition fft_cfg : Config := with_antennas (test_cfg false false 1 0 0 3) 5 2 1 1.
Definition five_in_backlog : State :=
  set_fft_queue_arr
    (upd (fft_queue_arr (init_state fft_cfg)) 0
         [mkTag 0 0 0; mkTag 0 0 1; mkTag 0 0 2; mkTag 0 0 3; mkTag 0 0 4])
    (init_state fft_cfg).

(** ** Retired frames *)

(** The frames handed to [Stats::UpdateStats] among trace entries: the frames
    [CheckFrameComplete] retired. *)
Definition retired (l : list Action) : list N :=
  omap (fun a => match a with UpdateStats f => Some f | _ => None end) l.

(** The trace (newest first) records the retirement of the frames below
    [cur_proc_frame_id_], each once and in increasing order. *)
Definition retire_inv (st : State) : Prop :=
  retired (trace st) = rev (N_range 0 (cur_proc_frame_id st)).

(** The contract that asks only for frame numbers below [SIZE_MAX], whatever
    queue the event is dequeued from. *)
Definition any_queue (io : bool) (p : N) (ev : EventData) : Prop :=
  frames_in_range ev.

(** Two uplink-only frames processed up to their retirement. *)
Definition two_uplink_frames : list (list EventData) :=
  [ [event kPacketRX 0 0; event kPacketRX 0 1];
    [event kFFT 0 0; event kFFT 0 1];
    [];
    [event kZF 0 0];
    [];
    [event kDemul 0 1];
    [];
    [event kDecode 0 1];
    [event kPacketRX 1 0; event kPacketRX 1 1];
    [event kFFT 1 0; event kFFT 1 1];
    [];
    [event kZF 1 0];
    [];
    [event kDemul 1 1];
    [];
    [event kDecode 1 1] ].

(** ** The deferral queue *)

(** The frames whose downlink processing was deferred, among trace entries:
    the master prints each one just before it pushes the frame on
    [encode_deferral_]. *)
Definition deferrals (l : list Action) : list N :=
  omap (fun a => match a with PrintDeferring f => Some f | _ => None end) l.

(** Over a trace (newest first): the frames deferred so far are the deferred
    frames scheduled so far followed by [q]. *)
Definition deferral_rel (q : State -> list N) (st : State) : Prop :=
  rev (deferrals (trace st)) = rev (deferred_scheduled (trace st)) ++ q st.

Definition deferral_inv : State -> Prop := deferral_rel encode_deferral.


(** ** The packet counters *)

(** The packet counters of every frame slot and the count of FFT tasks
    created are below their per-frame counts. *)
Definition rx_inv (cfg : Config) (st : State) : Prop :=
  (forall slot, num_pkts (rx_counters st) slot < num_pkts_per_frame cfg) /\
  fft_created_count st < num_pkts_per_frame cfg /\
  (0 < num_pilot_pkts_per_frame cfg ->
   forall slot, num_pilot_pkts (rx_counters st) slot < num_pilot_pkts_per_frame cfg) /\
  (0 < num_reciprocity_pkts_per_frame cfg ->
   forall slot, num_reciprocity_pkts (rx_counters st) slot
                < num_reciprocity_pkts_per_frame cfg).

(** The first packet of frame 0 has been received. *)
Definition first_packet_received : State :=
  iterate (test_cfg false false 1 0 0 3) [[event kPacketRX 0 0]]
    (init_state (test_cfg false false 1 0 0 3)).

(** ** Worker iterations *)

(** The iterations that launched nothing. *)
Definition empties (os : list (option Poll)) : nat :=
  length (List.filter (fun o => match o with None => true | Some _ => false end) os).

(** A worker that finds work four times out of five. *)
Definition busy_input : WorkerInput := mkInput (fun _ => true) 1 0.
Definition idle_input : WorkerInput := mkInput (fun _ => false) 1 0.

(** The frame a [Schedule...] call is for, and the calls whose events go to
    the queues of the workers. *)
Definition call_frame (c : SchedCall) : N :=
  match c with
  | CallSubcarriers _ f _ | CallCodeblocks _ f _ | CallAntennas _ f _
  | CallAntennasTX f _ | CallUsers _ f _ | CallSnrReport _ f _ => f
  end.

Definition is_worker_call (c : SchedCall) : bool :=
  match c with
  | CallSubcarriers _ _ _ | CallCodeblocks _ _ _ | CallAntennas _ _ _ => true
  | _ => false
  end.

(** The event type whose queue holds the tasks of a computation. *)
Definition doer_event (d : Doer) : EventType :=
  match d with
  | DoZF => kZF | DoFFT => kFFT | DoIFFT => kIFFT | DoPrecode => kPrecode
  | DoEncode => kEncode | DoDecode => kDecode | DoDemul => kDemul
  end.

(** A poll hands a computation the queue of its own event type. *)
Definition own_queue (p : Poll) : Prop :=
  exists q, poll_queue p = Conq (doer_event (poll_doer p)) q.

(** ** The queue of FFT work *)

(** Every tag of the FFT backlog of a slot is of a frame of that slot. *)
Definition backlog_in_slot (cfg : Config) (st : State) : Prop :=
  forall slot, Forall (fun t => slot_of cfg (frame_id t) = slot) (fft_queue_arr st slot).

(** An FFT task put on the queue of parity [qid]: its tags are of frames of
    the slot of some schedule frame [cs] of that parity. *)
Definition fft_task_ok (cfg : Config) (x : N * list Tag) : Prop :=
  exists cs, fst x = N.land cs 1 /\
             Forall (fun t => slot_of cfg (frame_id t) = slot_of cfg cs) (snd x).

Definition fft_inv (cfg : Config) (st : State) : Prop :=
  backlog_in_slot cfg st /\ Forall (fft_task_ok cfg) (fft_tasks (trace st)).

(** Three frames received and dispatched to FFT in bigstation mode. *)
Definition three_frames_dispatched : State :=
  iterate (test_cfg true false 1 0 0 3) three_frames_received
    (init_state (test_cfg true false 1 0 0 3)).

(** ** Pilots and reciprocity calibration *)

(** The calls of the pilot branch of [HandleEventFft] when it schedules ZF. *)
Definition zf_and_report (cfg : Config) (F s : N) : list SchedCall :=
  (if kEnableMac cfg then [CallSnrReport kSNRReport F s] else [])
  ++ [CallSubcarriers kZF F 0].

(** A configuration with reciprocity calibration, whose symbol [cal_symbol]
    is a downlink calibration symbol. *)
Definition with_calibration (cfg : Config) (cal_symbol : N) : Config :=
  {| kFrameWnd := kFrameWnd cfg; kScheduleQueues := kScheduleQueues cfg;
     kEnableMac := kEnableMac cfg; kPrintPhyStats := kPrintPhyStats cfg;
     kPrintZfStats := kPrintZfStats cfg;
     kDebugPrintPerFrameStart := kDebugPrintPerFrameStart cfg;
     TX_FRAME_DELTA := TX_FRAME_DELTA cfg; BigstationMode := BigstationMode cfg;
     IsRecCalEnabled := true; FramesToTest := FramesToTest cfg;
     NumPilotSyms := NumPilotSyms cfg; NumULSyms := NumULSyms cfg;
     NumDLSyms := NumDLSyms cfg; NumDlDataSyms := NumDlDataSyms cfg;
     ClientDlPilotSymbols := ClientDlPilotSymbols cfg;
     GetULSymbol := GetULSymbol cfg; GetDLSymbol := GetDLSymbol cfg;
     GetULSymbolIdx := GetULSymbolIdx cfg; GetDLSymbolIdx := GetDLSymbolIdx cfg;
     GetSymbolType := fun s => if s =? cal_symbol then kCalDL else GetSymbolType cfg s;
     IsPilot := IsPilot cfg;
     IsCalDlPilot := fun _ s => s =? cal_symbol; IsCalUlPilot := IsCalUlPilot cfg;
     BsAntNum := BsAntNum cfg; UeAntNum := UeAntNum cfg;
     AntGroupNum := AntGroupNum cfg; SocketThreadNum := SocketThreadNum cfg;
     NumChannels := NumChannels cfg; FftBlockSize := FftBlockSize cfg;
     ZfEventsPerSymbol := ZfEventsPerSymbol cfg; ZfBlockSize := ZfBlockSize cfg;
     ZfBatchSize := ZfBatchSize cfg;
     DemulEventsPerSymbol := DemulEventsPerSymbol cfg;
     DemulBlockSize := DemulBlockSize cfg; EncodeBlockSize := EncodeBlockSize cfg;
     NumBlocksInSymbol := NumBlocksInSymbol cfg |}.

Definition reccal_cfg : Config := with_calibration (test_cfg false false 1 0 0 3) 2.

(** ** Leaving the loop *)

Definition stopped (st : State) : Prop := running st = false.

(** A batch of two packets, the first of a frame beyond the window: the state
    after the error, and the state after the rest of the batch. *)
Definition future_frame_error : State :=
  set_running false
    (set_trace [ErrorFutureFrame 8 0 8]
       (set_is_turn_to_dequeue_from_io false (init_state (test_cfg false false 1 0 0 3)))).

Definition after_future_frame : State :=
  match (schedule_fft (test_cfg false false 1 0 0 3) ;;
         handle_events (test_cfg false false 1 0 0 3) [event kPacketRX 0 0])
          future_frame_error with
  | Ok _ st => st
  | Err _ => future_frame_error
  end.

(** ** The cache key of the UDP server *)

Fixpoint has_colon (s : string) : bool :=
  match s with
  | EmptyString => false
  | String c s' => Ascii.eqb c ":" || has_colon s'
  end.

(** ** The transmissions of a frame *)

(** A run of IFFT completions of frame [F] handled one after the other, with
    the downlink symbol indices of the completions that were the last task
    of their symbol, in the order of completion. *)
Inductive ifft_run (cfg : Config) (F : N) : State -> list N -> State -> Prop :=
| ifft_run_nil st : ifft_run cfg F st [] st
| ifft_run_task st t fin st1 done st2 :
    frame_id t = F ->
    is_last_task cfg st ifft_counters F (symbol_id t) = false ->
    handle_IFFT_tag cfg t st = Ok fin st1 ->
    ifft_run cfg F st1 done st2 ->
    ifft_run cfg F st done st2
| ifft_run_symbol st t fin st1 done st2 :
    frame_id t = F ->
    is_last_task cfg st ifft_counters F (symbol_id t) = true ->
    handle_IFFT_tag cfg t st = Ok fin st1 ->
    ifft_run cfg F st1 done st2 ->
    ifft_run cfg F st (GetDLSymbolIdx cfg (symbol_id t) :: done) st2.

(** The transmissions of the downlink symbols of index below [k] of frame
    [F], the newest first. *)
Definition tx_upto (cfg : Config) (F k : N) : list (N * N) :=
  rev (map (fun i => (F, GetDLSymbol cfg i)) (N_range 0 k)).

(** In the course of the IFFT of frame [F]: the symbols of [D] have
    completed and are the ones marked in [ifft_cur_frame_for_symbol_], [c]
    symbols have been counted, [ifft_next_symbol_] is the first symbol that
    has not completed, and the symbols below it have been transmitted, in
    order, after the transmissions [tx0]. *)
Definition period_state (cfg : Config) (F : N) (tx0 : list (N * N)) (D : list N)
    (c : N) (st : State) : Prop :=
  length (ifft_cur_frame_for_symbol st) = N.to_nat (NumDLSyms cfg) /\
  (forall i, vec_lookup (ifft_cur_frame_for_symbol st) i = Some F <-> In i D) /\
  symbol_count (counters st ifft_counters) (F mod kFrameWnd cfg) = c /\
  max_symbol_count (counters st ifft_counters) = NumDLSyms cfg /\
  (forall i, i < ifft_next_symbol st -> In i D) /\
  ~ In (ifft_next_symbol st) D /\
  tx_calls (trace st) = tx_upto cfg F (ifft_next_symbol st) ++ tx0.

(** Between two completions every completed symbol has been counted. *)
Definition period_inv (cfg : Config) (F : N) (tx0 : list (N * N)) (D : list N)
    (st : State) : Prop :=
  period_state cfg F tx0 D (N.of_nat (length D)) st.

(** Every downlink symbol of frame [F] has been transmitted, in order. *)
Definition all_transmitted (cfg : Config) (F : N) (tx0 : list (N * N)) (st : State)
  : Prop :=
  tx_calls (trace st) = tx_upto cfg F (NumDLSyms cfg) ++ tx0.

(** A frame with two downlink symbols up to the end of precoding, and the
    IFFT completions of its second and then of its first symbol. *)
Definition before_ifft : State :=
  iterate (test_cfg false false 0 2 0 3)
    [ [event kPacketRX 0 0];
      [event kFFT 0 0; event kEncode 0 1; event kEncode 0 2];
      [];
      [event kZF 0 0; event kPrecode 0 1; event kPrecode 0 2] ]
    (init_state (test_cfg false false 0 2 0 3)).

Definition ifft_second_done : State :=
  match handle_IFFT_tag (test_cfg false false 0 2 0 3) (mkTag 0 2 0) before_ifft with
  | Ok _ st => st
  | Err _ => before_ifft
  end.

Definition ifft_both_done : State :=
  match handle_IFFT_tag (test_cfg false false 0 2 0 3) (mkTag 0 1 0) ifft_second_done with
  | Ok _ st => st
  | Err _ => ifft_second_done
  end.

(** ** Rules *)

Section Rules.
Context {A B : Type} (E : Error -> Prop).
Implicit Types (st : State).

Lemma wpg_ret (a : A) Q st : Q a st -> wpg E (ret a) Q st.
  Proof. done. Qed.

Lemma wpg_bind (m : M A) (k : A -> M B) Q st :
    wpg E m (fun a st' => wpg E (k a) Q st') st -> wpg E (bind m k) Q st.
  Proof. unfold wpg, bind. by destruct (m st). Qed.

Lemma wpg_gets (f : State -> A) Q st : Q (f st) st -> wpg E (gets f) Q st.
  Proof. done. Qed.

Lemma wpg_modify (f : State -> State) Q st : Q tt (f st) -> wpg E (modify f) Q st.
  Proof. done. Qed.

Lemma wpg_throw e (Q : A -> State -> Prop) st : E e -> wpg E (throw e) Q st.
  Proof. done. Qed.

Lemma wpg_mono (m : M A) (Q Q' : A -> State -> Prop) st :
    wpg E m Q st -> (forall a st', Q a st' -> Q' a st') -> wpg E m Q' st.
  Proof. unfold wpg. destruct (m st); auto. Qed.

Lemma wpg_ok (m : M A) Q st a st' : m st = Ok a st' -> Q a st' -> wpg E m Q st.
  Proof. unfold wpg. intros H. by rewrite H. Qed.

Lemma wpg_inv (m : M A) Q st a st' : wpg E m Q st -> m st = Ok a st' -> Q a st'.
  Proof. unfold wpg. intros H H'. by rewrite H' in H. Qed.
End Rules.

Lemma wp_ok {A} (m : M A) Q st : wp m Q st -> exists a st', m st = Ok a st' /\ Q a st'.
Proof. unfold wpg. destruct (m st); [eauto | done]. Qed.


Lemma wpg_err {A} (m : M A) e st :
  wpg (fun e' => e' = e) m (fun _ _ => False) st -> m st = Err e.
Proof. unfold wpg. destruct (m st); [done|]. by intros ->. Qed.

Lemma wlp_for_each {A} (I : State -> Prop) (l : list A) (body : A -> M unit) :
  (forall x st, In x l -> I st -> wlp (body x) (fun _ => I) st) ->
  forall st, I st -> wlp (for_each l body) (fun _ => I) st.
Proof.
  induction l as [|x l IH]; intros Hb st HI; [done|].
  cbn [for_each]. apply wpg_bind.
  eapply wpg_mono; [apply Hb; [by left | done]|].
  intros ? st' HI'. apply IH; [|done]. intros; apply Hb; [by right | done].
Qed.

Lemma wlp_for_range (I : State -> Prop) lo hi (body : N -> M unit) :
  (forall i st, lo <= i < hi -> I st -> wlp (body i) (fun _ => I) st) ->
  forall st, I st -> wlp (for_range lo hi body) (fun _ => I) st.
Proof.
  intros Hb. apply wlp_for_each. intros i st Hin. apply Hb.
  unfold N_range in Hin. apply in_map_iff in Hin as (k & <- & Hk).
  apply in_seq in Hk. lia.
Qed.

Ltac head_of t := lazymatch t with ?f _ => head_of f | _ => t end.

(** Symbolic execution.  [st_simpl] computes the projections of an updated
    state and the counter operations; [wstep] runs one primitive of the
    monad, or unfolds the function at the head of the computation. *)
Ltac st_simpl :=
  cbn [running is_turn_to_dequeue_from_io cur_sche_frame_id cur_proc_frame_id
       schedule_process_flags zf_last_frame rc_last_frame
       fft_cur_frame_for_symbol encode_cur_frame_for_symbol
       ifft_cur_frame_for_symbol ifft_next_symbol encode_deferral counters
       rx_counters fft_queue_arr fft_created_count max_equaled_frame
       dl_bits_buffer_status tx_count trace
       set_running set_is_turn_to_dequeue_from_io set_cur_sche_frame_id
       set_cur_proc_frame_id set_schedule_process_flags set_zf_last_frame
       set_rc_last_frame set_fft_cur_frame_for_symbol
       set_encode_cur_frame_for_symbol set_ifft_cur_frame_for_symbol
       set_ifft_next_symbol set_encode_deferral set_counters set_rx_counters
       set_fft_queue_arr set_fft_created_count set_max_equaled_frame
       set_dl_bits_buffer_status set_tx_count set_trace set_counter Stage_beq
       FrameCounters.CompleteTask FrameCounters.CompleteSymbol
       FrameCounters.Reset FrameCounters.IsLastSymbol
       FrameCounters.GetSymbolCount FrameCounters.GetTaskCount
       task_count symbol_count max_symbol_count max_task_count
       num_pkts num_pilot_pkts num_reciprocity_pkts fst snd negb].

Ltac st_simpl_in H := revert H; st_simpl; intros H.

Ltac wstep :=
  lazymatch goal with
  | |- wpg _ (bind _ _) _ _ => apply wpg_bind
  | |- wpg _ (ret _) _ _ => apply wpg_ret; st_simpl
  | |- wpg _ (gets _) _ _ => apply wpg_gets; st_simpl
  | |- wpg _ (modify _) _ _ => apply wpg_modify; st_simpl
  | |- wpg _ (throw _) _ _ => apply wpg_throw
  | |- wpg _ (for_each _ _) _ _ => fail
  | |- wpg _ (for_range _ _ _) _ _ => fail
  | |- wpg _ (for_tags _ _) _ _ => fail
  | |- wpg _ (drain_encode_deferral _ _) _ _ => fail
  | |- wpg _ (schedule_tx_in_order _ _ _ _) _ _ => fail
  | |- wpg _ (fill_fft_task _ _ _) _ _ => fail
  | |- wpg _ (handle_events _ _) _ _ => fail
  | |- wpg _ (ScheduleDownlinkProcessing _ _) _ _ => fail
  | |- wpg _ (defer_or_schedule _ _) _ _ => fail
  | |- wpg _ (CheckFrameComplete _ _) _ _ => fail
  | |- wpg _ (CheckIncrementScheduleFrame _ _ _) _ _ => fail
  | |- wpg _ (if true then _ else _) _ _ => cbv iota
  | |- wpg _ (if false then _ else _) _ _ => cbv iota
  | |- wpg _ (if _ then _ else _) _ _ => fail
  | |- wpg _ (match _ with _ => _ end) _ _ => fail
  | |- wpg _ ?m _ _ => let h := head_of m in unfold h; st_simpl
  end.
Ltac wexec := repeat first [wstep | progress st_simpl].
(** [wexec_with tac]: also use [tac] to decide the tests. *)
Ltac wexec_with tac := repeat first [wstep | progress st_simpl | progress tac].

(** Case analysis on the test the execution stopped at. *)
Ltac wcase :=
  lazymatch goal with
  | |- wpg _ (if ?b then _ else _) _ _ => destruct b eqn:?
  | |- wpg _ (match ?x with _ => _ end) _ _ => destruct x eqn:?
  end.

(** Execution with case analysis on every test that [tac] does not decide. *)
Ltac wrun_with tac :=
  repeat first [wstep | progress st_simpl | progress tac | wcase].

(** The entries a computation put in front of the trace [tr]. *)
Ltac prefix_of l tr :=
  lazymatch l with
  | tr => constr:(@nil Action)
  | ?a :: ?l' => let r := prefix_of l' tr in constr:(a :: r)
  end.
Ltac exists_new :=
  lazymatch goal with
  | |- exists new, ?l = new ++ ?tr /\ _ =>
      let r := prefix_of l tr in exists r; split; [reflexivity|]
  | |- exists new, ?l = new ++ ?tr =>
      let r := prefix_of l tr in exists r; reflexivity
  end.

(** ** Invariant preservation *)

Section Pres.
Context (I : State -> Prop).

Lemma pres_ret {A} (a : A) : pres I (ret a).
  Proof. by intros st H. Qed.

Lemma pres_bind {A B} (m : M A) (k : A -> M B) :
    pres I m -> (forall a, pres I (k a)) -> pres I (bind m k).
  Proof.
    intros Hm Hk st H. apply wpg_bind. eapply wpg_mono; [by apply Hm|].
    intros a st' H'. by apply Hk.
  Qed.

Lemma pres_gets {A} (f : State -> A) : pres I (gets f).
  Proof. by intros st H. Qed.

Lemma pres_bind_gets {A B} (f : State -> A) (k : A -> M B) :
    (forall st, I st -> wlp (k (f st)) (fun _ => I) st) -> pres I (bind (gets f) k).
  Proof. intros Hk st H. apply wpg_bind, wpg_gets. by apply Hk. Qed.

Lemma pres_throw {A} e : pres I (throw (A:=A) e).
  Proof. by intros st H. Qed.

Lemma pres_modify (f : State -> State) :
    (forall st, I st -> I (f st)) -> pres I (modify f).
  Proof. intros Hf st H. by apply Hf. Qed.

Lemma pres_for_each {A} (l : list A) (body : A -> M unit) :
    (forall x, pres I (body x)) -> pres I (for_each l body).
  Proof. intros Hb st H. apply wlp_for_each; [|done]. intros x st' _. apply Hb. Qed.

Lemma pres_for_range lo hi (body : N -> M unit) :
    (forall i, pres I (body i)) -> pres I (for_range lo hi body).
  Proof. intros Hb. by apply pres_for_each. Qed.
End Pres.

Lemma wlp_bind_pres {A B} (I : State -> Prop) (m : M A) (k : A -> M B) Q st :
  pres I m -> I st -> (forall a st', I st' -> wlp (k a) Q st') ->
  wlp (bind m k) Q st.
Proof.
  intros Hm HI Hk. apply wpg_bind. eapply wpg_mono; [by apply Hm|]. apply Hk.
Qed.

Create HintDb pres.


(** [pres_go side] decomposes a goal [pres I m] along the syntax of [m];
    [side] proves that a state update keeps [I]. *)
Ltac pres_go side :=
  repeat lazymatch goal with
  | |- pres _ (bind _ _) => apply pres_bind; [|intros ?]
  | |- pres _ (ret _) => apply pres_ret
  | |- pres _ (gets _) => apply pres_gets
  | |- pres _ (throw _) => apply pres_throw
  | |- pres _ (modify _) => apply pres_modify; side
  | |- pres _ (for_each _ _) => apply pres_for_each; intros ?
  | |- pres _ (for_range _ _ _) => apply pres_for_range; intros ?
  | |- pres _ (if ?b then _ else _) => destruct b
  | |- pres _ (match ?x with _ => _ end) => destruct x
  | |- pres _ ?m =>
      first [ solve [auto with pres]
            | let h := head_of m in progress unfold h ]
  end.

Lemma pres_run {A} (I : State -> Prop) (m : M A) st a st' :
  pres I m -> I st -> m st = Ok a st' -> I st'.
Proof. intros Hp HI Hrun. exact (wpg_inv _ _ _ _ _ _ (Hp st HI) Hrun). Qed.


(** ** The scheduling loops *)

Lemma calls_in_app l1 l2 : calls_in (l1 ++ l2) = calls_in l1 ++ calls_in l2.
Proof. apply omap_app. Qed.

Lemma calls_in_Sched cs : calls_in (map Sched cs) = cs.
Proof. induction cs as [|c cs IH]; [done|]. cbn. f_equal. exact IH. Qed.

Lemma for_each_call {A} (f : A -> SchedCall) (l : list A) st :
  for_each l (fun x => call (f x)) st =
  Ok tt (set_trace (rev (map Sched (map f l)) ++ trace st) st).
Proof.
  revert st. induction l as [|x l IH]; intros st; cbn [for_each].
  - by destruct st.
  - unfold bind at 1, call at 1, emit, modify. rewrite IH. st_simpl.
    cbn [map rev]. by rewrite <- app_assoc.
Qed.

Lemma bind_run {A B} (m : M A) (k : A -> M B) st :
  bind m k st = match m st with Ok a st' => k a st' | Err e => Err e end.
Proof. done. Qed.

Lemma vec_lookup_Some v i x : vec_lookup v i = Some x -> i < N.of_nat (length v).
Proof. unfold vec_lookup. destruct (i <? _) eqn:Hi; [|done]. by apply N.ltb_lt in Hi. Qed.

Lemma vec_lookup_None v i : vec_lookup v i = None -> N.of_nat (length v) <= i.
Proof.
  unfold vec_lookup. destruct (i <? _) eqn:Hi.
  - intros H%lookup_ge_None. apply N.ltb_lt in Hi. lia.
  - intros _. by apply N.ltb_ge in Hi.
Qed.

Lemma vec_at_run fld i st :
  vec_at fld i st =
  match vec_lookup (fld st) i with Some x => Ok x st | None => Err OutOfRange end.
Proof. unfold vec_at, bind, gets. by destruct (vec_lookup _ _). Qed.

(** A loop that reads [fld.at(i)] and makes a call when the entry passes a
    test: it fails at the first index out of range. *)
Lemma for_each_flush (fld : State -> list N) (test : N -> bool) (f : N -> SchedCall)
    (l : list N) st :
  (forall a st', fld (set_trace a st') = fld st') ->
  for_each l (fun i => let* x := vec_at fld i in when (test x) (call (f i))) st =
  if forallb (fun i => i <? N.of_nat (length (fld st))) l then
    Ok tt (set_trace
             (rev (map Sched
                (omap (fun i => match vec_lookup (fld st) i with
                                | Some x => if test x then Some (f i) else None
                                | None => None
                                end) l))
              ++ trace st) st)
  else Err OutOfRange.
Proof.
  intros Hfld. revert st. induction l as [|i l IH]; intros st; cbn [for_each forallb].
  - by destruct st.
  - rewrite bind_run, bind_run, vec_at_run. cbn [omap list_omap].
    destruct (vec_lookup (fld st) i) as [x|] eqn:Hx.
    + apply vec_lookup_Some, N.ltb_lt in Hx as ->. cbn [andb].
      unfold when. destruct (test x).
      * unfold call, emit, modify. rewrite IH, !Hfld. st_simpl.
        destruct (forallb _ l); [|done]. cbn [map rev]. by rewrite <- app_assoc.
      * unfold ret. by rewrite IH.
    + apply vec_lookup_None, N.ltb_ge in Hx as ->. done.
Qed.

Section DownlinkProcessing.
Context (cfg : Config).

Lemma pilot_loop_zf_done F idxs st :
  zf_last_frame st = F ->
  for_each idxs (fun i =>
    let* zf := gets zf_last_frame in
    if zf =? F then call (CallSubcarriers kPrecode F (GetDLSymbol cfg i))
    else vec_set encode_cur_frame_for_symbol set_encode_cur_frame_for_symbol i F) st =
  for_each idxs (fun i => call (CallSubcarriers kPrecode F (GetDLSymbol cfg i))) st.
Proof.
  revert st. induction idxs as [|i idxs IH]; intros st Hzf; cbn [for_each]; [done|].
  unfold bind at 1 3. unfold bind at 1, gets. rewrite Hzf, N.eqb_refl.
  unfold call at 1 3, emit, modify. apply IH. by st_simpl.
Qed.

Lemma pilot_loop_zf_pending F idxs st :
  zf_last_frame st <> F ->
  for_each idxs (fun i =>
    let* zf := gets zf_last_frame in
    if zf =? F then call (CallSubcarriers kPrecode F (GetDLSymbol cfg i))
    else vec_set encode_cur_frame_for_symbol set_encode_cur_frame_for_symbol i F) st =
  match mark_all F idxs (encode_cur_frame_for_symbol st) with
  | Some v => Ok tt (set_encode_cur_frame_for_symbol v st)
  | None => Err OutOfRange
  end.
Proof.
  revert st. induction idxs as [|i idxs IH]; intros st Hzf; cbn [for_each mark_all].
  - by destruct st.
  - unfold bind at 1. unfold bind at 1, gets.
    apply N.eqb_neq in Hzf as Hzf'. rewrite Hzf'.
    unfold vec_set, bind, gets.
    destruct (i <? _); [|done]. unfold modify. rewrite IH by done. st_simpl.
    by destruct (mark_all _ _ _).
Qed.

(** [ScheduleDownlinkProcessing], computed. *)
Lemma ScheduleDownlinkProcessing_spec F st :
  ScheduleDownlinkProcessing cfg F st =
  if zf_last_frame st =? F then
    Ok tt (set_trace (rev (map Sched (pilot_precodes cfg F ++ data_encodes cfg F))
                      ++ trace st) st)
  else
    match mark_all F (N_range 0 (ClientDlPilotSymbols cfg))
                   (encode_cur_frame_for_symbol st) with
    | Some v =>
        Ok tt (set_trace (rev (map Sched (data_encodes cfg F)) ++ trace st)
                 (set_encode_cur_frame_for_symbol v st))
    | None => Err OutOfRange
    end.
Proof.
  unfold ScheduleDownlinkProcessing, for_range. rewrite bind_run.
  destruct (zf_last_frame st =? F) eqn:Hzf.
  - apply N.eqb_eq in Hzf. rewrite pilot_loop_zf_done, !for_each_call by done.
    st_simpl. unfold pilot_precodes, data_encodes.
    by rewrite map_app, rev_app_distr, <- app_assoc.
  - apply N.eqb_neq in Hzf. rewrite pilot_loop_zf_pending by done.
    destruct (mark_all _ _ _); [|done]. rewrite for_each_call. by st_simpl.
Qed.

End DownlinkProcessing.

(** * Properties of the master loop *)

(** ** Decode after the last Demul symbol (C10) *)

(** C10.  When a Demul completion is the last task of its symbol and that
    symbol is the last Demul symbol of its frame, the [kDemul] handler
    schedules the Decode codeblocks of that (frame, symbol) twice in
    bigstation mode (once in the last-task branch, once more in the
    last-symbol branch) and exactly once otherwise.  Outside bigstation mode
    the handler asserts that the frame is the one being scheduled. *)
Theorem demul_last_symbol_decode cfg ev st :
  let F := frame_id (tag_at ev 0) in
  let s := symbol_id (tag_at ev 0) in
  event_type ev = kDemul ->
  is_last_task cfg st demul_counters F s = true ->
  is_last_symbol cfg st demul_counters F = true ->
  (BigstationMode cfg = false -> cur_sche_frame_id st = F) ->
  exists st' new,
    handle_switch cfg ev st = Ok false st' /\
    trace st' = new ++ trace st /\
    count_occ Action_eq_dec new (decode_call F s) =
      if BigstationMode cfg then 2%nat else 1%nat.
Proof.
  intros F s Hty Ht Hs Hcs. unfold handle_switch. rewrite Hty.
  enough (wp (handle_Demul cfg ev) (fun r st' => r = false /\ exists new,
            trace st' = new ++ trace st /\
            count_occ Action_eq_dec new (decode_call F s) =
              if BigstationMode cfg then 2%nat else 1%nat) st) as H.
  { apply wp_ok in H as (r & st' & Hrun & -> & new & ? & ?). eauto. }
  unfold is_last_task, is_last_symbol in Ht, Hs. st_simpl_in Ht. st_simpl_in Hs.
  subst F s. unfold handle_Demul.
  destruct (BigstationMode cfg) eqn:Hbig.
  - wexec_with ltac:(rewrite ?Ht, ?Hs).
    split; [done|]. exists_new. cbn. repeat case_decide; done.
  - assert ((cur_sche_frame_id st =? frame_id (tag_at ev 0)) = true) as Hcs'
      by (apply N.eqb_eq; auto).
    wexec_with ltac:(rewrite ?Ht, ?Hs, ?Hcs').
    unfold CheckIncrementScheduleFrame. wexec_with ltac:(rewrite ?Hcs').
    wcase; wexec; [wcase; wexec; wcase; wexec|];
      (split; [done|]; exists_new; cbn; repeat case_decide; done).
Qed.

Lemma demul_last_symbol_decode_witness :
  (exists st' new,
     handle_switch (test_cfg true false 1 0 0 3) (event kDemul 0 1)
       (init_state (test_cfg true false 1 0 0 3)) = Ok false st' /\
     trace st' = new ++ trace (init_state (test_cfg true false 1 0 0 3)) /\
     count_occ Action_eq_dec new (decode_call 0 1) = 2%nat) /\
  (exists st' new,
     handle_switch (test_cfg false false 1 0 0 3) (event kDemul 0 1)
       (init_state (test_cfg false false 1 0 0 3)) = Ok false st' /\
     trace st' = new ++ trace (init_state (test_cfg false false 1 0 0 3)) /\
     count_occ Action_eq_dec new (decode_call 0 1) = 1%nat).
Proof.
  split.
  - apply (demul_last_symbol_decode (test_cfg true false 1 0 0 3) (event kDemul 0 1));
      [reflexivity | reflexivity | reflexivity | discriminate].
  - apply (demul_last_symbol_decode (test_cfg false false 1 0 0 3) (event kDemul 0 1));
      reflexivity.
Defined.

(** ** A packet beyond the frame window (C9) *)

(** C9.  When the master dequeues an RX packet whose frame is at or beyond
    [cur_sche_frame_id_ + kFrameWnd] (the sum taken in [size_t]), the
    [kPacketRX] case logs the packet frame, the schedule frame and the window,
    sets the running flag to false, and does nothing else: the RX counters,
    the FFT backlog and every other part of the state are as before.  The
    FFT scheduling that follows the switch for every event then runs on that
    state. *)
Theorem future_frame_stops cfg ev st :
  let pkt := tag_at ev 0 in
  let st_err :=
    set_running false
      (set_trace (ErrorFutureFrame (frame_id pkt) (cur_sche_frame_id st) (kFrameWnd cfg)
                  :: trace st) st) in
  event_type ev = kPacketRX ->
  add_sz (cur_sche_frame_id st) (kFrameWnd cfg) <= frame_id pkt ->
  handle_switch cfg ev st = Ok false st_err /\
  running st_err = false /\
  rx_counters st_err = rx_counters st /\
  fft_queue_arr st_err = fft_queue_arr st /\
  handle_event cfg ev st = (schedule_fft cfg ;; ret false) st_err.
Proof.
  intros pkt st_err Hty Hle.
  assert (handle_switch cfg ev st = Ok false st_err) as Hsw.
  { unfold handle_switch, handle_PacketRX. rewrite Hty.
    unfold bind, gets. fold pkt. apply N.leb_le in Hle. by rewrite Hle. }
  repeat split; [done|].
  unfold handle_event, bind at 1. by rewrite Hsw.
Qed.

Lemma future_frame_stops_witness :
  handle_switch (test_cfg false false 1 1 0 3) (event kPacketRX 8 0)
    (init_state (test_cfg false false 1 1 0 3)) =
  Ok false
    (set_running false
       (set_trace [ErrorFutureFrame 8 0 8] (init_state (test_cfg false false 1 1 0 3)))).
Proof.
  apply (future_frame_stops (test_cfg false false 1 1 0 3) (event kPacketRX 8 0)
           (init_state (test_cfg false false 1 1 0 3))); [reflexivity|].
  vm_compute. discriminate.
Defined.

(** ** Frame retirement (C2) *)

Section Retirement.
Context (cfg : Config).

Ltac unchanged := let H := fresh in intros ? H; exact H.

Lemma retired_like_SDP st0 f :
  pres (retired_like st0) (ScheduleDownlinkProcessing cfg f).
Proof. pres_go unchanged. Qed.



End Retirement.


(** ** The trigger of downlink encoding (C5) *)

Section EncodeTrigger.
Context (cfg : Config).

Lemma defer_or_schedule_run F st :
  defer_or_schedule cfg F st =
  if defers cfg st F then
    Ok tt (set_encode_deferral (encode_deferral st ++ [F])
             (set_trace (PrintDeferring F :: trace st) st))
  else ScheduleDownlinkProcessing cfg F st.
Proof.
  unfold defer_or_schedule, defers. rewrite bind_run. unfold gets at 1.
  rewrite bind_run. unfold gets at 1.
  destruct (negb _ || _); reflexivity.
Qed.

Lemma dispatched_nil st st' new :
  trace st' = new ++ trace st -> calls_in (rev new) = [] -> dispatched st st' [].
Proof. intros. by exists new. Qed.

(** Calls between two prefixes without calls are the calls of the whole. *)
Lemma dispatched_between st st2 st' mid pre post cs :
  trace st2 = mid ++ trace st ->
  trace st' = post ++ mid ++ pre ++ trace st ->
  calls_in (rev pre) = [] -> calls_in (rev post) = [] ->
  dispatched st st2 cs -> dispatched st st' cs.
Proof.
  intros H2 H' Hpre Hpost (new & Hnew & <-). rewrite H2 in Hnew.
  apply app_inv_tail in Hnew as <-.
  exists (post ++ mid ++ pre). split; [by rewrite H', <- !app_assoc|].
  by rewrite !rev_app_distr, !calls_in_app, Hpre, Hpost, app_nil_r.
Qed.

Lemma wpg_defer E F (Q : unit -> State -> Prop) st :
  defers cfg st F = true ->
  Q tt (set_encode_deferral (encode_deferral st ++ [F])
          (set_trace (PrintDeferring F :: trace st) st)) ->
  wpg E (defer_or_schedule cfg F) Q st.
Proof. intros Hd HQ. unfold wpg. by rewrite defer_or_schedule_run, Hd. Qed.

Lemma wpg_schedule_now E F (Q : unit -> State -> Prop) st :
  defers cfg st F = false ->
  wpg E (ScheduleDownlinkProcessing cfg F) Q st ->
  wpg E (defer_or_schedule cfg F) Q st.
Proof. intros Hd HQ. unfold wpg. by rewrite defer_or_schedule_run, Hd. Qed.

Lemma wpg_SDP_zf_done E F (Q : unit -> State -> Prop) st :
  (zf_last_frame st =? F) = true ->
  Q tt (set_trace (rev (map Sched (pilot_precodes cfg F ++ data_encodes cfg F))
                   ++ trace st) st) ->
  wpg E (ScheduleDownlinkProcessing cfg F) Q st.
Proof. intros Hzf HQ. unfold wpg. by rewrite ScheduleDownlinkProcessing_spec, Hzf. Qed.

Lemma wpg_SDP_marked E F (Q : unit -> State -> Prop) st v :
  (zf_last_frame st =? F) = false ->
  mark_all F (N_range 0 (ClientDlPilotSymbols cfg)) (encode_cur_frame_for_symbol st)
    = Some v ->
  Q tt (set_trace (rev (map Sched (data_encodes cfg F)) ++ trace st)
          (set_encode_cur_frame_for_symbol v st)) ->
  wpg E (ScheduleDownlinkProcessing cfg F) Q st.
Proof.
  intros Hzf Hv HQ. unfold wpg. by rewrite ScheduleDownlinkProcessing_spec, Hzf, Hv.
Qed.

Lemma wpg_SDP_out_of_range (E : Error -> Prop) F (Q : unit -> State -> Prop) st :
  (zf_last_frame st =? F) = false ->
  mark_all F (N_range 0 (ClientDlPilotSymbols cfg)) (encode_cur_frame_for_symbol st)
    = None ->
  E OutOfRange ->
  wpg E (ScheduleDownlinkProcessing cfg F) Q st.
Proof.
  intros Hzf Hv HQ. unfold wpg. by rewrite ScheduleDownlinkProcessing_spec, Hzf, Hv.
Qed.

(** [l] cut at its first appended segment: the entries before it, the
    segment, and the entries between the segment and [tr]. *)
Ltac cut_at_segment l tr :=
  lazymatch l with
  | ?a :: ?l' =>
      let r := cut_at_segment l' tr in
      lazymatch r with (?post, ?mid, ?pre) => constr:((a :: post, mid, pre)) end
  | ?mid ++ ?rest =>
      let pre := prefix_of rest tr in constr:((@nil Action, mid, pre))
  end.

Ltac dispatched_none :=
  eapply dispatched_nil;
  [ st_simpl;
    lazymatch goal with
    | |- ?l = ?e ++ ?tr => let r := prefix_of l tr in unify e r; reflexivity
    end
  | reflexivity ].

Ltac dispatched_around :=
  let cs := fresh "cs" in
  intros cs; eapply dispatched_between;
  [ st_simpl; reflexivity
  | st_simpl;
    lazymatch goal with
    | |- ?l = ?post ++ _ ++ ?pre ++ ?tr =>
        let r := cut_at_segment l tr in
        lazymatch r with
        | (?post', _, ?pre') => unify post post'; unify pre pre'; reflexivity
        end
    end
  | reflexivity
  | reflexivity ].

(** C5.  Downlink encoding of a frame [F] is triggered by the last
    [kPacketFromMac] completion of [F], or with MAC disabled by the first RX
    packet of the frame slot (a packet inside the frame window).  At the
    trigger, if frames are already deferred or [F] is at or beyond
    [cur_proc_frame_id_ + kScheduleQueues], the handler pushes [F] at the back
    of [encode_deferral_], makes no scheduling call and leaves the encode
    rendezvous table alone.  Otherwise it invokes
    [ScheduleDownlinkProcessing(F)]: the deferral queue stays as it was, and
    the scheduling calls and the rendezvous table are those of that call
    (the handler fails when that call does). *)
Theorem encode_trigger ev st :
  let F := frame_id (tag_at ev 0) in
  (event_type ev = kPacketFromMac /\
   is_last_task cfg st mac_to_phy_counters F 0 = true) \/
  (event_type ev = kPacketRX /\ kEnableMac cfg = false /\
   F < add_sz (cur_sche_frame_id st) (kFrameWnd cfg) /\
   num_pkts (rx_counters st) (slot_of cfg F) = 0) ->
  if defers cfg st F then
    exists st', handle_switch cfg ev st = Ok false st' /\
      encode_deferral st' = encode_deferral st ++ [F] /\
      encode_cur_frame_for_symbol st' = encode_cur_frame_for_symbol st /\
      dispatched st st' []
  else
    match ScheduleDownlinkProcessing cfg F st with
    | Ok _ st2 =>
        exists st', handle_switch cfg ev st = Ok false st' /\
          encode_deferral st' = encode_deferral st /\
          encode_cur_frame_for_symbol st' = encode_cur_frame_for_symbol st2 /\
          forall cs, dispatched st st2 cs -> dispatched st st' cs
    | Err e => handle_switch cfg ev st = Err e
    end.
Proof.
  intros F Htrig.
  assert (F < add_sz (cur_sche_frame_id st) (kFrameWnd cfg) ->
          (add_sz (cur_sche_frame_id st) (kFrameWnd cfg) <=? F) = false) as Hwnd'
    by (intros; by apply N.leb_gt).
  destruct (defers cfg st F) eqn:Hd.
  - (* deferred *)
    enough (wp (handle_switch cfg ev) (fun r st' =>
              r = false /\ encode_deferral st' = encode_deferral st ++ [F] /\
              encode_cur_frame_for_symbol st' = encode_cur_frame_for_symbol st /\
              dispatched st st' []) st) as H.
    { apply wp_ok in H as (r & st' & Hrun & -> & ?). eauto. }
    unfold handle_switch.
    destruct Htrig as [[Hty Hlast]|(Hty & Hmac & Hwnd & Hfirst)]; rewrite Hty.
    + unfold is_last_task in Hlast. st_simpl_in Hlast. fold F in Hlast.
      unfold handle_PacketFromMac. fold F.
      wexec_with ltac:(rewrite ?Hlast).
      apply wpg_defer; [exact Hd|]. wexec.
      repeat split. dispatched_none.
    + unfold handle_PacketRX, UpdateRxCounters. fold F.
      wrun_with ltac:(rewrite ?Hwnd', ?Hfirst, ?Hmac, ?N.eqb_refl by done).
      all: apply wpg_defer; [exact Hd|].
      all: wrun_with ltac:(rewrite ?Hwnd', ?Hfirst, ?Hmac, ?N.eqb_refl by done).
      all: repeat split; dispatched_none.
  - (* scheduled at once *)
    assert (forall st2 : State,
      wp (handle_switch cfg ev) (fun r st' =>
            r = false /\ encode_deferral st' = encode_deferral st /\
            encode_cur_frame_for_symbol st' = encode_cur_frame_for_symbol st2 /\
            forall cs, dispatched st st2 cs -> dispatched st st' cs) st ->
      exists st', handle_switch cfg ev st = Ok false st' /\
        encode_deferral st' = encode_deferral st /\
        encode_cur_frame_for_symbol st' = encode_cur_frame_for_symbol st2 /\
        forall cs, dispatched st st2 cs -> dispatched st st' cs) as Hwp.
    { intros st2 H. apply wp_ok in H as (r & st' & Hrun & -> & ?). eauto. }
    rewrite ScheduleDownlinkProcessing_spec.
    destruct (zf_last_frame st =? F) eqn:Hzf;
      [|destruct (mark_all F _ _) as [v|] eqn:Hv];
      [apply Hwp|apply Hwp|apply wpg_err]; clear Hwp; unfold handle_switch;
      (destruct Htrig as [[Hty Hlast]|(Hty & Hmac & Hwnd & Hfirst)]; rewrite Hty;
       [ unfold is_last_task in Hlast; st_simpl_in Hlast; fold F in Hlast;
         unfold handle_PacketFromMac; fold F; wexec_with ltac:(rewrite ?Hlast)
       | unfold handle_PacketRX, UpdateRxCounters; fold F;
         wrun_with ltac:(rewrite ?Hwnd', ?Hfirst, ?Hmac, ?N.eqb_refl by done) ]).
    all: apply wpg_schedule_now; [exact Hd|].
    all: first [ apply wpg_SDP_zf_done; [exact Hzf|]
               | eapply wpg_SDP_marked; [exact Hzf|exact Hv|]
               | apply wpg_SDP_out_of_range; [exact Hzf|exact Hv|reflexivity] ].
    all: wrun_with ltac:(rewrite ?Hwnd', ?Hfirst, ?Hmac, ?N.eqb_refl by done).
    all: repeat split; dispatched_around.
Qed.

End EncodeTrigger.

Lemma encode_trigger_witness :
  (exists st',
     handle_switch (test_cfg false false 1 2 1 5) (event kPacketRX 2 0)
       (init_state (test_cfg false false 1 2 1 5)) = Ok false st' /\
     encode_deferral st' = [2] /\
     encode_cur_frame_for_symbol st' = [SIZE_MAX; SIZE_MAX] /\
     dispatched (init_state (test_cfg false false 1 2 1 5)) st' []) /\
  (exists st',
     handle_switch (test_cfg false false 1 2 1 5) (event kPacketRX 0 0)
       (init_state (test_cfg false false 1 2 1 5)) = Ok false st' /\
     encode_deferral st' = [] /\
     encode_cur_frame_for_symbol st' = [0; SIZE_MAX] /\
     dispatched (init_state (test_cfg false false 1 2 1 5)) st'
       [CallCodeblocks kEncode 0 3]).
Proof.
  split.
  - apply (encode_trigger (test_cfg false false 1 2 1 5) (event kPacketRX 2 0)
             (init_state (test_cfg false false 1 2 1 5))).
    right. repeat split; vm_compute; reflexivity.
  - destruct (encode_trigger (test_cfg false false 1 2 1 5) (event kPacketRX 0 0)
                (init_state (test_cfg false false 1 2 1 5)))
      as (st' & Hrun & Hq & Hcur & Hcalls).
    { right. repeat split; vm_compute; reflexivity. }
    exists st'. split; [exact Hrun|]. split; [exact Hq|]. split; [exact Hcur|].
    apply Hcalls. exists [Sched (CallCodeblocks kEncode 0 3)]. split; reflexivity.
Defined.

(** ** Scheduling ZF (C7) *)


Section ZfSchedule.
Context (cfg : Config) (old : list Action).

Ltac unchanged := let H := fresh in intros ? H; exact H.
Ltac no_zf := pres_go unchanged.

Let I := same_subcarrier_calls kZF old.


Lemma no_zf_SDP f : pres I (ScheduleDownlinkProcessing cfg f).
Proof. no_zf. Qed.
Hint Resolve no_zf_SDP : pres.

Lemma no_zf_drain fuel : pres I (drain_encode_deferral cfg fuel).
Proof. induction fuel; cbn [drain_encode_deferral]; no_zf. Qed.
Hint Resolve no_zf_drain : pres.

Lemma no_zf_CFC f : pres I (CheckFrameComplete cfg f).
Proof. no_zf. Qed.
Lemma no_zf_CISF f c : pres I (CheckIncrementScheduleFrame cfg f c).
Proof. no_zf. Qed.
Hint Resolve no_zf_CFC no_zf_CISF : pres.

Lemma no_zf_tx_in_order fuel sym f : pres I (schedule_tx_in_order cfg fuel sym f).
Proof. revert sym. induction fuel; intros sym; cbn [schedule_tx_in_order]; no_zf. Qed.
Hint Resolve no_zf_tx_in_order : pres.

Lemma no_zf_fill fuel slot : pres I (fill_fft_task cfg fuel slot).
Proof. induction fuel; cbn [fill_fft_task]; no_zf. Qed.
Hint Resolve no_zf_fill : pres.




End ZfSchedule.

Lemma N_range_length lo hi : length (N_range lo hi) = N.to_nat (hi - lo).
Proof. unfold N_range. by rewrite length_map, length_seq. Qed.

Lemma N_range_snoc n : N_range 0 (n + 1) = N_range 0 n ++ [n].
Proof.
  unfold N_range. rewrite !N.sub_0_r.
  replace (N.to_nat (n + 1)) with (S (N.to_nat n)) by lia.
  rewrite seq_S, map_app. cbn. f_equal. f_equal. lia.
Qed.

Lemma N_range_lt i n : In i (N_range 0 n) -> i < n.
Proof.
  unfold N_range. rewrite in_map_iff. intros (k & <- & Hk).
  apply in_seq in Hk. lia.
Qed.

Lemma batch_sizes_app l1 l2 : batch_sizes (l1 ++ l2) = batch_sizes l1 ++ batch_sizes l2.
Proof. unfold batch_sizes. apply flat_map_app. Qed.

Section ZfBatches.
Context (cfg : Config) (frame symbol : N).

Local Abbreviation B := (ZfBatchSize cfg).
Local Abbreviation n := (ZfEventsPerSymbol cfg).
Local Abbreviation nb := (n / B + (if 0 <? n mod B then 1 else 0)).

Local Abbreviation body := (zf_loop_body cfg frame symbol).

Lemma ScheduleSubcarriers_ZF_loop :
  ScheduleSubcarriers cfg kZF frame symbol = snd (loop nb body (B, [])).
Proof.
  unfold ScheduleSubcarriers, loop, zf_loop_body.
  match goal with |- (let '(_, out) := ?x in out) = snd ?y =>
    change x with y; by destruct y end.
Qed.

Lemma zf_full_batches (l : list N) out :
  (forall i, In i l -> (i =? nb - 1) && (0 <? n mod B) = false) ->
  fold_left (fun s i => body i s) l (B, out)
    = (B, out ++ map (zf_batch cfg frame symbol B) l).
Proof.
  revert out. induction l as [|i l IH]; intros out Hl.
  - cbn. by rewrite app_nil_r.
  - cbn [fold_left]. unfold zf_loop_body at 2. rewrite (Hl i) by by left.
    fold (zf_batch cfg frame symbol B i).
    rewrite IH by (intros j Hj; apply Hl; by right).
    cbn [map]. by rewrite <- app_assoc.
Qed.

(** The events of [ScheduleSubcarriers(kZF, ...)]: the full batches, then
    the batch of the remainder, whose tags are computed with the remainder in
    the place of the batch size. *)
Lemma ScheduleSubcarriers_ZF_events :
  0 < B ->
  ScheduleSubcarriers cfg kZF frame symbol =
    map (zf_batch cfg frame symbol B) (N_range 0 (n / B))
    ++ (if 0 <? n mod B then [zf_batch cfg frame symbol (n mod B) (n / B)] else []).
Proof.
  intros HB. rewrite ScheduleSubcarriers_ZF_loop. unfold loop.
  destruct (0 <? n mod B) eqn:Hrem.
  - rewrite N_range_snoc, fold_left_app, zf_full_batches.
    2:{ intros i Hi%N_range_lt. rewrite Hrem, N.add_sub.
        apply andb_false_intro1. apply N.eqb_neq. lia. }
    cbn [fold_left]. unfold zf_loop_body. rewrite Hrem, N.add_sub, N.eqb_refl.
    done.
  - rewrite N.add_0_r, zf_full_batches.
    2:{ intros i _. apply andb_false_intro2. exact Hrem. }
    cbn [snd app]. by rewrite app_nil_r.
Qed.




Lemma aux_ids_app l1 l2 : aux_ids (l1 ++ l2) = aux_ids l1 ++ aux_ids l2.
Proof. unfold aux_ids. apply flat_map_app. Qed.

Lemma aux_ids_zf_batch k i :
  aux_ids [zf_batch cfg frame symbol k i]
    = map (fun j => ZfBlockSize cfg * (i * k + j)) (N_range 0 k).
Proof. cbn. rewrite !app_nil_r, map_map. done. Qed.

Lemma aux_ids_full (l : list N) :
  aux_ids (map (zf_batch cfg frame symbol B) l)
    = flat_map (fun i => map (fun j => ZfBlockSize cfg * (i * B + j)) (N_range 0 B)) l.
Proof.
  induction l as [|i l IH]; [done|]. cbn [map flat_map].
  change (zf_batch cfg frame symbol B i :: ?l') with ([zf_batch cfg frame symbol B i] ++ l').
  by rewrite aux_ids_app, aux_ids_zf_batch, IH.
Qed.

End ZfBatches.




(** X2.  The subcarriers of the ZF events.  The tags of the full batch of
    index i name the base subcarriers [ZfBlockSize * (i * ZfBatchSize + j)]
    for j below [ZfBatchSize].  The tags of the batch of the remainder, of
    index q = [ZfEventsPerSymbol / ZfBatchSize], name
    [ZfBlockSize * (q * r + j)] for j below r =
    [ZfEventsPerSymbol mod ZfBatchSize]: [num_tags_] holds the remainder when
    the index is computed.  (With 3 events in batches of 2 and blocks of 4
    the subcarriers are 0, 4, 4.) *)
Theorem zf_subcarrier_ids cfg frame symbol :
  0 < ZfBatchSize cfg ->
  aux_ids (ScheduleSubcarriers cfg kZF frame symbol) =
    flat_map (fun i => map (fun j => ZfBlockSize cfg * (i * ZfBatchSize cfg + j))
                           (N_range 0 (ZfBatchSize cfg)))
             (N_range 0 (ZfEventsPerSymbol cfg / ZfBatchSize cfg))
    ++ (if 0 <? ZfEventsPerSymbol cfg mod ZfBatchSize cfg
        then map (fun j => ZfBlockSize cfg
                           * (ZfEventsPerSymbol cfg / ZfBatchSize cfg
                              * (ZfEventsPerSymbol cfg mod ZfBatchSize cfg) + j))
                 (N_range 0 (ZfEventsPerSymbol cfg mod ZfBatchSize cfg))
        else []).
Proof.
  intros HB. rewrite ScheduleSubcarriers_ZF_events by done.
  rewrite aux_ids_app, aux_ids_full. f_equal.
  destruct (0 <? _ mod _); [apply aux_ids_zf_batch|done].
Qed.

Lemma zf_subcarrier_ids_witness :
  aux_ids (ScheduleSubcarriers (with_zf (test_cfg false false 1 0 0 3) 3 2 4) kZF 0 0)
    = [0; 4; 4].
Proof.
  apply (zf_subcarrier_ids (with_zf (test_cfg false false 1 0 0 3) 3 2 4) 0 0).
  reflexivity.
Defined.

(** ** Scheduling Demul (C8) *)

Lemma forallb_N_range n len :
  n <= len -> forallb (fun i => i <? len) (N_range 0 n) = true.
Proof.
  intros Hn. apply forallb_forall. intros i Hi%N_range_lt. apply N.ltb_lt. lia.
Qed.

Lemma wpg_flush (E : Error -> Prop) (fld : State -> list N) (test : N -> bool)
    (f : N -> SchedCall) (n : N) (Q : unit -> State -> Prop) st :
  (forall a st', fld (set_trace a st') = fld st') ->
  n <= N.of_nat (length (fld st)) ->
  Q tt (set_trace
          (rev (map Sched
             (omap (fun i => match vec_lookup (fld st) i with
                             | Some x => if test x then Some (f i) else None
                             | None => None
                             end) (N_range 0 n)))
           ++ trace st) st) ->
  wpg E (for_range 0 n
           (fun i => let* x := vec_at fld i in when (test x) (call (f i)))) Q st.
Proof.
  intros Hfld Hn HQ. unfold wpg, for_range.
  by rewrite for_each_flush, forallb_N_range.
Qed.

Lemma subcarrier_calls_app k l1 l2 :
  subcarrier_calls k (l1 ++ l2) = subcarrier_calls k l1 ++ subcarrier_calls k l2.
Proof. apply List.filter_app. Qed.

Lemma subcarrier_calls_rev k l : subcarrier_calls k (rev l) = rev (subcarrier_calls k l).
Proof.
  induction l as [|a l IH]; [done|]. cbn [rev]. rewrite subcarrier_calls_app, IH.
  cbn. destruct (is_subcarriers k a); [done|]. by rewrite app_nil_r.
Qed.

Lemma subcarrier_calls_flush_demul cfg F v :
  subcarrier_calls kDemul (map Sched (flush_demul cfg F v)) = map Sched (flush_demul cfg F v).
Proof.
  unfold flush_demul. induction (N_range 0 (NumULSyms cfg)) as [|i l IH]; [done|].
  cbn [omap list_omap]. destruct (vec_lookup v i) as [f|]; [|exact IH].
  destruct (f =? F); [|exact IH]. cbn. f_equal. exact IH.
Qed.

Lemma subcarrier_calls_flush_precode cfg F v :
  subcarrier_calls kDemul (map Sched (flush_precode cfg F v)) = [].
Proof.
  unfold flush_precode. induction (N_range 0 (NumDLSyms cfg)) as [|i l IH]; [done|].
  cbn [omap list_omap]. destruct (vec_lookup v i) as [f|]; [|exact IH].
  destruct (negb _ && _); exact IH.
Qed.

Lemma elem_of_flush_demul cfg F v c :
  c ∈ flush_demul cfg F v <->
  exists i, i < NumULSyms cfg /\ vec_lookup v i = Some F /\
            c = CallSubcarriers kDemul F (GetULSymbol cfg i).
Proof.
  unfold flush_demul. rewrite list_elem_of_omap. split.
  - intros (i & Hi & Hc). apply list_elem_of_In, N_range_lt in Hi.
    destruct (vec_lookup v i) as [f|] eqn:Hf; [|done].
    destruct (f =? F) eqn:HfF; [|done]. apply N.eqb_eq in HfF as ->.
    exists i. by inversion Hc.
  - intros (i & Hi & Hf & ->). exists i. split.
    + apply list_elem_of_In. unfold N_range. apply in_map_iff.
      exists (N.to_nat i). split; [lia|]. apply in_seq. lia.
    + by rewrite Hf, N.eqb_refl.
Qed.

Section DemulSchedule.
Context (cfg : Config) (old : list Action).

Ltac unchanged := let H := fresh in intros ? H; exact H.
Ltac no_demul := pres_go unchanged.

Let I := same_subcarrier_calls kDemul old.

Lemma no_demul_for_tags (l : list Tag) (body : Tag -> M bool) :
  (forall t, pres I (body t)) -> pres I (for_tags l body).
Proof.
  intros Hb. induction l as [|t l IH]; cbn [for_tags]; [no_demul|].
  apply pres_bind; [apply Hb|]. intros [|]; [no_demul|done].
Qed.

Lemma no_demul_SDP f : pres I (ScheduleDownlinkProcessing cfg f).
Proof. no_demul. Qed.
Hint Resolve no_demul_SDP : pres.

Lemma no_demul_drain fuel : pres I (drain_encode_deferral cfg fuel).
Proof. induction fuel; cbn [drain_encode_deferral]; no_demul. Qed.
Hint Resolve no_demul_drain : pres.

Lemma no_demul_CFC f : pres I (CheckFrameComplete cfg f).
Proof. no_demul. Qed.
Lemma no_demul_CISF f c : pres I (CheckIncrementScheduleFrame cfg f c).
Proof. no_demul. Qed.
Hint Resolve no_demul_CFC no_demul_CISF : pres.

Lemma no_demul_tx_in_order fuel sym f : pres I (schedule_tx_in_order cfg fuel sym f).
Proof. revert sym. induction fuel; intros sym; cbn [schedule_tx_in_order]; no_demul. Qed.
Hint Resolve no_demul_tx_in_order : pres.

Lemma no_demul_fill fuel slot : pres I (fill_fft_task cfg fuel slot).
Proof. induction fuel; cbn [fill_fft_task]; no_demul. Qed.
Hint Resolve no_demul_fill : pres.

Lemma no_demul_schedule_fft : pres I (schedule_fft cfg).
Proof. no_demul. Qed.

Lemma no_demul_HandleEventFft tag :
  GetSymbolType cfg (symbol_id tag) <> kUL -> pres I (HandleEventFft cfg tag).
Proof. intros Hty. unfold HandleEventFft. destruct (GetSymbolType _ _); [no_demul|done|no_demul..]. Qed.

Lemma no_demul_handle_switch ev :
  event_type ev <> kFFT -> event_type ev <> kZF -> pres I (handle_switch cfg ev).
Proof.
  intros Hty Hty'. unfold handle_switch.
  destruct (event_type ev); try done; try (no_demul; fail).
  unfold handle_IFFT. apply no_demul_for_tags. intros t. no_demul.
Qed.

End DemulSchedule.

Lemma HandleEventFft_uplink cfg tag st :
  let F := frame_id tag in
  let s := symbol_id tag in
  let idx := GetULSymbolIdx cfg s in
  GetSymbolType cfg s = kUL ->
  idx < N.of_nat (length (fft_cur_frame_for_symbol st)) ->
  exists st' new,
    HandleEventFft cfg tag st = Ok tt st' /\
    trace st' = new ++ trace st /\
    subcarrier_calls kDemul new =
      (if is_last_task cfg st uplink_fft_counters F s && (zf_last_frame st =? F)
       then [Sched (CallSubcarriers kDemul F s)] else []) /\
    fft_cur_frame_for_symbol st' =
      (if is_last_task cfg st uplink_fft_counters F s
       then <[N.to_nat idx := F]> (fft_cur_frame_for_symbol st)
       else fft_cur_frame_for_symbol st).
Proof.
  intros F s idx Hty Hidx.
  enough (wp (HandleEventFft cfg tag) (fun _ st' => exists new,
            trace st' = new ++ trace st /\
            subcarrier_calls kDemul new =
              (if is_last_task cfg st uplink_fft_counters F s && (zf_last_frame st =? F)
               then [Sched (CallSubcarriers kDemul F s)] else []) /\
            fft_cur_frame_for_symbol st' =
              (if is_last_task cfg st uplink_fft_counters F s
               then <[N.to_nat idx := F]> (fft_cur_frame_for_symbol st)
               else fft_cur_frame_for_symbol st)) st) as H.
  { apply wp_ok in H as ([] & st' & Hrun & new & ? & ? & ?). eauto 6. }
  unfold is_last_task. subst F s idx.
  apply N.ltb_lt in Hidx.
  unfold HandleEventFft. rewrite Hty. st_simpl.
  destruct (add_sz (task_count _ _ _) 1 =? _) eqn:Ht;
    destruct (zf_last_frame st =? frame_id tag) eqn:Hzf;
    cbn [negb orb andb];
    wrun_with ltac:(rewrite ?Ht, ?Hzf, ?Hidx); exists_new; done.
Qed.

Lemma handle_ZF_tag_flush cfg tag st :
  let F := frame_id tag in
  NumULSyms cfg <= N.of_nat (length (fft_cur_frame_for_symbol st)) ->
  NumDLSyms cfg <= N.of_nat (length (encode_cur_frame_for_symbol st)) ->
  exists st' new,
    handle_ZF_tag cfg tag st = Ok tt st' /\
    trace st' = new ++ trace st /\
    fft_cur_frame_for_symbol st' = fft_cur_frame_for_symbol st /\
    if is_last_symbol cfg st zf_counters F then
      zf_last_frame st' = F /\
      subcarrier_calls kDemul (rev new) =
        map Sched (flush_demul cfg F (fft_cur_frame_for_symbol st))
    else
      zf_last_frame st' = zf_last_frame st /\
      subcarrier_calls kDemul (rev new) = [].
Proof.
  intros F Hul Hdl.
  enough (wp (handle_ZF_tag cfg tag) (fun _ st' => exists new,
            trace st' = new ++ trace st /\
            fft_cur_frame_for_symbol st' = fft_cur_frame_for_symbol st /\
            if is_last_symbol cfg st zf_counters F then
              zf_last_frame st' = F /\
              subcarrier_calls kDemul (rev new) =
                map Sched (flush_demul cfg F (fft_cur_frame_for_symbol st))
            else
              zf_last_frame st' = zf_last_frame st /\
              subcarrier_calls kDemul (rev new) = []) st) as H.
  { apply wp_ok in H as ([] & st' & Hrun & new & ? & ? & ?). eauto 6. }
  unfold is_last_symbol. subst F. unfold handle_ZF_tag. st_simpl.
  destruct (add_sz (symbol_count _ _) 1 =? _) eqn:Hs.
  2:{ wrun_with ltac:(rewrite ?Hs). exists_new. done. }
  wexec_with ltac:(rewrite ?Hs).
  wcase; wexec.
  all: apply (wpg_flush _ fft_cur_frame_for_symbol (fun f => f =? frame_id tag)
             (fun i => CallSubcarriers kDemul (frame_id tag) (GetULSymbol cfg i)));
    [done | exact Hul |].
  all: apply (wpg_flush _ encode_cur_frame_for_symbol
                (fun e => negb (e =? SIZE_MAX) && (frame_id tag <=? e))
                (fun i => CallSubcarriers kPrecode (frame_id tag) (GetDLSymbol cfg i)));
    [done | exact Hdl |].
  all: st_simpl.
  all: change (omap _ (N_range 0 (NumDLSyms cfg)))
         with (flush_precode cfg (frame_id tag) (encode_cur_frame_for_symbol st));
       change (omap _ (N_range 0 (NumULSyms cfg)))
         with (flush_demul cfg (frame_id tag) (fft_cur_frame_for_symbol st)).
  all: match goal with |- exists new, ?p ++ ?d ++ ?l = _ /\ _ =>
         let r := prefix_of l (trace st) in exists (p ++ d ++ r) end.
  all: split; [by rewrite <- !app_assoc|]; split; [done|]; split; [done|].
  all: rewrite !rev_app_distr, !rev_involutive, !subcarrier_calls_app,
         subcarrier_calls_flush_demul, subcarrier_calls_flush_precode, app_nil_r.
  all: done.
Qed.

(** C8.  Demul of uplink symbol s of frame F is scheduled at the completion
    of the last uplink-FFT task of (F, s) exactly when [zf_last_frame == F]
    then; that completion records F in the entry of
    [fft_cur_frame_for_symbol] of the symbol, whether ZF is done or not.  The
    completion of the last ZF task of F sets [zf_last_frame] to F and
    schedules Demul, in symbol order, for every uplink symbol whose entry of
    [fft_cur_frame_for_symbol] equals F, and for no other.  Nothing else
    schedules Demul: not a ZF completion that is not the last of its frame,
    the FFT completion of a symbol that is not an uplink symbol, another case
    of the [switch], or the dispatch of the FFT backlog. *)
Theorem demul_scheduled_after_fft_and_zf cfg :
  (forall tag st,
     GetSymbolType cfg (symbol_id tag) = kUL ->
     GetULSymbolIdx cfg (symbol_id tag) < N.of_nat (length (fft_cur_frame_for_symbol st)) ->
     exists st' new,
       HandleEventFft cfg tag st = Ok tt st' /\
       trace st' = new ++ trace st /\
       subcarrier_calls kDemul new =
         (if is_last_task cfg st uplink_fft_counters (frame_id tag) (symbol_id tag)
             && (zf_last_frame st =? frame_id tag)
          then [Sched (CallSubcarriers kDemul (frame_id tag) (symbol_id tag))] else []) /\
       fft_cur_frame_for_symbol st' =
         (if is_last_task cfg st uplink_fft_counters (frame_id tag) (symbol_id tag)
          then <[N.to_nat (GetULSymbolIdx cfg (symbol_id tag)) := frame_id tag]>
                 (fft_cur_frame_for_symbol st)
          else fft_cur_frame_for_symbol st)) /\
  (forall tag st,
     NumULSyms cfg <= N.of_nat (length (fft_cur_frame_for_symbol st)) ->
     NumDLSyms cfg <= N.of_nat (length (encode_cur_frame_for_symbol st)) ->
     exists st' new,
       handle_ZF_tag cfg tag st = Ok tt st' /\
       trace st' = new ++ trace st /\
       fft_cur_frame_for_symbol st' = fft_cur_frame_for_symbol st /\
       if is_last_symbol cfg st zf_counters (frame_id tag) then
         zf_last_frame st' = frame_id tag /\
         subcarrier_calls kDemul (rev new) =
           map Sched (flush_demul cfg (frame_id tag) (fft_cur_frame_for_symbol st))
       else
         zf_last_frame st' = zf_last_frame st /\
         subcarrier_calls kDemul (rev new) = []) /\
  (forall F v c,
     c ∈ flush_demul cfg F v <->
     exists i, i < NumULSyms cfg /\ vec_lookup v i = Some F /\
               c = CallSubcarriers kDemul F (GetULSymbol cfg i)) /\
  (forall tag st st',
     GetSymbolType cfg (symbol_id tag) <> kUL ->
     HandleEventFft cfg tag st = Ok tt st' ->
     subcarrier_calls kDemul (trace st') = subcarrier_calls kDemul (trace st)) /\
  (forall ev st finished st',
     event_type ev <> kFFT -> event_type ev <> kZF ->
     handle_switch cfg ev st = Ok finished st' ->
     subcarrier_calls kDemul (trace st') = subcarrier_calls kDemul (trace st)) /\
  (forall st st',
     schedule_fft cfg st = Ok tt st' ->
     subcarrier_calls kDemul (trace st') = subcarrier_calls kDemul (trace st)).
Proof.
  split; [|split; [|split; [|split; [|split]]]].
  - intros tag st Hty Hidx. by apply HandleEventFft_uplink.
  - intros tag st Hul Hdl. by apply handle_ZF_tag_flush.
  - apply elem_of_flush_demul.
  - intros tag st st' Hty Hrun.
    eapply (pres_run _ _ _ _ _ (no_demul_HandleEventFft cfg _ tag Hty) eq_refl Hrun).
  - intros ev st r st' Hty Hty' Hrun.
    eapply (pres_run _ _ _ _ _ (no_demul_handle_switch cfg _ ev Hty Hty') eq_refl Hrun).
  - intros st st' Hrun.
    eapply (pres_run _ _ _ _ _ (no_demul_schedule_fft cfg _) eq_refl Hrun).
Qed.

Lemma demul_scheduled_after_fft_and_zf_witness :
  (exists st' new,
     HandleEventFft (test_cfg false false 1 0 0 3) (mkTag 0 1 0)
       (init_state (test_cfg false false 1 0 0 3)) = Ok tt st' /\
     trace st' = new ++ [] /\
     subcarrier_calls kDemul new = [] /\
     fft_cur_frame_for_symbol st' = [0]) /\
  (exists st' new,
     handle_ZF_tag (test_cfg false false 1 0 0 3) (mkTag 0 0 0) fft_before_zf
       = Ok tt st' /\
     trace st' = new ++ trace fft_before_zf /\
     fft_cur_frame_for_symbol st' = [0] /\
     zf_last_frame st' = 0 /\
     subcarrier_calls kDemul (rev new) = [Sched (CallSubcarriers kDemul 0 1)]).
Proof.
  split.
  - apply (proj1 (demul_scheduled_after_fft_and_zf (test_cfg false false 1 0 0 3))
             (mkTag 0 1 0) (init_state (test_cfg false false 1 0 0 3)));
      [reflexivity | vm_compute; reflexivity].
  - apply (proj1 (proj2 (demul_scheduled_after_fft_and_zf (test_cfg false false 1 0 0 3)))
             (mkTag 0 0 0) fft_before_zf); vm_compute; discriminate.
Defined.

(** ** The drain of the deferral queue (C6) *)

Lemma mark_all_Some F idxs (v : list N) :
  (forall i, In i idxs -> i < N.of_nat (length v)) ->
  exists v', mark_all F idxs v = Some v' /\ length v' = length v.
Proof.
  revert v. induction idxs as [|i idxs IH]; intros v Hin; cbn [mark_all]; [eauto|].
  assert ((i <? N.of_nat (length v)) = true) as -> by (apply N.ltb_lt, Hin; by left).
  destruct (IH (<[N.to_nat i := F]> v)) as (v' & Hv' & Hlen).
  { intros j Hj. rewrite length_insert. apply Hin. by right. }
  exists v'. split; [done|]. by rewrite Hlen, length_insert.
Qed.

Section Drain.
Context (cfg : Config).

(** [ScheduleDownlinkProcessing] goes through when the table of encoded
    frames has an entry for every client pilot symbol; it leaves the deferral
    queue, the processed frame and the length of the table as they are. *)
Lemma ScheduleDownlinkProcessing_ok F st :
  ClientDlPilotSymbols cfg <= N.of_nat (length (encode_cur_frame_for_symbol st)) ->
  exists st',
    ScheduleDownlinkProcessing cfg F st = Ok tt st' /\
    encode_deferral st' = encode_deferral st /\
    cur_proc_frame_id st' = cur_proc_frame_id st /\
    length (encode_cur_frame_for_symbol st') = length (encode_cur_frame_for_symbol st).
Proof.
  intros Hlen. rewrite ScheduleDownlinkProcessing_spec.
  destruct (zf_last_frame st =? F); [by eexists|].
  destruct (mark_all_Some F (N_range 0 (ClientDlPilotSymbols cfg))
              (encode_cur_frame_for_symbol st)) as (v & -> & Hv).
  { intros i Hi%N_range_lt. lia. }
  by eexists.
Qed.

Lemma drain_runs_off_the_queue fuel st :
  (length (encode_deferral st) < fuel)%nat ->
  Forall (fun F' => cur_proc_frame_id st <= F'
                    /\ F' < add_sz (cur_proc_frame_id st) (kScheduleQueues cfg))
         (encode_deferral st) ->
  ClientDlPilotSymbols cfg <= N.of_nat (length (encode_cur_frame_for_symbol st)) ->
  drain_encode_deferral cfg fuel st = Err EmptyQueueFront.
Proof.
  revert st. induction fuel as [|fuel IH]; intros st Hlen Hq Htab; [lia|].
  cbn [drain_encode_deferral]. rewrite bind_run. unfold gets at 1.
  destruct (encode_deferral st) as [|F' rest] eqn:Hdef; [done|].
  apply List.Forall_cons_iff in Hq as [[Hlo Hhi] Hrest].
  rewrite bind_run. unfold gets at 1.
  apply N.ltb_lt in Hhi as ->. apply N.leb_le in Hlo as Hlo'.
  rewrite bind_run. unfold emit at 1, modify at 1.
  rewrite bind_run. st_simpl. rewrite Hlo'. cbn [RtAssert ret].
  rewrite bind_run.
  destruct (ScheduleDownlinkProcessing_ok F'
              (set_trace (PrintSchedulingDeferred F' (cur_proc_frame_id st) :: trace st) st))
    as (st2 & -> & Hq2 & Hcp2 & Htab2); [by st_simpl|].
  st_simpl_in Hq2. st_simpl_in Hcp2. st_simpl_in Htab2.
  rewrite bind_run. unfold modify at 1.
  apply IH; st_simpl; rewrite ?Hq2, ?Hcp2, ?Htab2, ?Hdef; cbn [tl].
  - cbn [length] in Hlen. lia.
  - exact Hrest.
  - exact Htab.
Qed.

End Drain.

(** C6: the code departs from the described scan.  When the frames waiting
    in the deferral queue are fewer than [kScheduleQueues] and all of them
    have come within reach at the retirement of frame F, the loop of
    [CheckFrameComplete] pops every one of them and then, with iterations
    left, reads [encode_deferral_.front()] of the queue it has just emptied:
    there is no emptiness test inside the loop. *)
Theorem CheckFrameComplete_reads_empty_queue cfg F st :
  frame_complete cfg st F = true ->
  cur_proc_frame_id st = F ->
  encode_deferral st <> [] ->
  (length (encode_deferral st) < N.to_nat (kScheduleQueues cfg))%nat ->
  Forall (fun F' => add_sz F 1 <= F' /\ F' < add_sz (add_sz F 1) (kScheduleQueues cfg))
         (encode_deferral st) ->
  ClientDlPilotSymbols cfg <= N.of_nat (length (encode_cur_frame_for_symbol st)) ->
  CheckFrameComplete cfg F st = Err EmptyQueueFront.
Proof.
  intros Hc Hcp Hne Hlen Hq Htab. apply wpg_err.
  destruct (encode_deferral st) as [|F' rest] eqn:Hdef; [done|].
  unfold CheckFrameComplete. wexec_with ltac:(rewrite ?Hc, ?Hcp, ?N.eqb_refl, ?Hdef).
  wcase; wexec_with ltac:(rewrite ?Hdef).
  all: unfold wpg at 1; rewrite drain_runs_off_the_queue;
    [ done
    | st_simpl; rewrite Hdef; exact Hlen
    | st_simpl; rewrite Hdef, Hcp; exact Hq
    | st_simpl; exact Htab ].
Qed.

Lemma CheckFrameComplete_reads_empty_queue_witness :
  Start (test_cfg false false 1 1 0 5) (deferred_frame_run ++ [[event kPacketTX 0 2]])
    (init_state (test_cfg false false 1 1 0 5)) = Err EmptyQueueFront /\
  encode_deferral at_retirement = [2] /\
  cur_proc_frame_id at_retirement = 0 /\
  CheckFrameComplete (test_cfg false false 1 1 0 5) 0 at_retirement = Err EmptyQueueFront.
Proof.
  split; [vm_compute; reflexivity|].
  split; [vm_compute; reflexivity|].
  split; [vm_compute; reflexivity|].
  apply CheckFrameComplete_reads_empty_queue.
  - vm_compute; reflexivity.
  - vm_compute; reflexivity.
  - vm_compute; discriminate.
  - vm_compute; lia.
  - change (encode_deferral at_retirement) with [2].
    repeat constructor; vm_compute; discriminate.
  - vm_compute; discriminate.
Defined.

(** ** The drain when it does not run off the queue *)




Section DrainInOrder.
Context (cfg : Config).



End DrainInOrder.


(** ** The schedule window (C3) *)

Lemma parity_mod2 x : parity x = x mod 2.
Proof. unfold parity. change 1 with (N.ones 1). by rewrite N.land_ones. Qed.

Lemma parity_succ x : parity (x + 1) <> parity x.
Proof.
  rewrite !parity_mod2. intros H.
  pose proof (N.Div0.div_mod x 2). pose proof (N.Div0.div_mod (x + 1) 2).
  pose proof (N.mod_upper_bound x 2). pose proof (N.mod_upper_bound (x + 1) 2).
  lia.
Qed.

Lemma add_sz_small a b : a + b <= SIZE_MAX -> add_sz a b = a + b.
Proof. intros H. unfold add_sz, wrap. apply N.mod_small. unfold SIZE_MAX in H. lia. Qed.

Section Window.
Context (cfg : Config) (io : bool) (p : N).
Local Abbreviation window_inv := (window_inv p).

Ltac same_frames := let H := fresh in intros ? H; exact H.
Ltac window_go := pres_go same_frames.

Lemma window_Reset s f : pres window_inv (Reset cfg s f).
  Proof. window_go. Qed.
Lemma window_CompleteTask s f sym : pres window_inv (CompleteTask cfg s f sym).
  Proof. window_go. Qed.
Lemma window_CompleteSymbol s f : pres window_inv (CompleteSymbol cfg s f).
  Proof. window_go. Qed.
Hint Resolve window_Reset window_CompleteTask window_CompleteSymbol : pres.

Lemma window_SDP f : pres window_inv (ScheduleDownlinkProcessing cfg f).
  Proof. window_go. Qed.
Hint Resolve window_SDP : pres.

Lemma window_drain fuel : pres window_inv (drain_encode_deferral cfg fuel).
  Proof. induction fuel; cbn [drain_encode_deferral]; window_go. Qed.
Hint Resolve window_drain : pres.

Lemma window_CISF f c :
    parity f = p -> f < SIZE_MAX ->
    pres window_inv (CheckIncrementScheduleFrame cfg f c).
  Proof.
    intros Hp Hf. unfold CheckIncrementScheduleFrame.
    apply pres_bind; [window_go|intros _].
    apply pres_bind_gets. intros st [H1 H2].
    apply wpg_bind. unfold assert_.
    destruct (cur_sche_frame_id st =? f) eqn:Hcs; [|done].
    apply N.eqb_eq in Hcs. apply wpg_ret.
    apply wpg_bind, wpg_gets. unfold when.
    destruct (_ =? kProcessingComplete); [|done].
    apply wpg_bind, wpg_modify.
    assert (window_inv (set_cur_sche_frame_id (add_sz (cur_sche_frame_id st) 1) st)) as Hinv.
    { unfold window_inv; cbn. rewrite add_sz_small by lia.
      assert (cur_sche_frame_id st <> cur_proc_frame_id st + 1) by (intros E; apply H2; congruence).
      split; [lia|]. intros _. rewrite Hcs, <- Hp. apply parity_succ. }
    revert Hinv. generalize (set_cur_sche_frame_id (add_sz (cur_sche_frame_id st) 1) st).
    change (pres window_inv
      (modify (set_schedule_process_flags kNone) ;;
       (if NumULSyms cfg =? 0 then modify (fun st => set_schedule_process_flags
            (add_u8 (schedule_process_flags st) kUplinkComplete) st) else ret tt) ;;
       (if NumDLSyms cfg =? 0 then modify (fun st => set_schedule_process_flags
            (add_u8 (schedule_process_flags st) kDownlinkComplete) st) else ret tt))).
    window_go.
  Qed.

Lemma window_CheckFrameComplete f :
    f < SIZE_MAX -> pres window_inv (CheckFrameComplete cfg f).
  Proof.
    intros Hf. unfold CheckFrameComplete.
    apply pres_bind; [window_go|intros complete]. destruct complete; [|window_go].
    apply pres_bind; [window_go|intros _].
    apply pres_bind_gets. intros st Hinv.
    apply wpg_bind. unfold assert_.
    destruct (f =? cur_proc_frame_id st) eqn:Hcp; [|done].
    apply N.eqb_eq in Hcp. apply wpg_ret.
    pose (I' := fun st => window_inv st /\ f = cur_proc_frame_id st).
    assert (I' st) as HI by done. clear Hinv Hcp. revert HI.
    generalize st at 1 2. clear st. intros st HI.
    do 5 (eapply (wlp_bind_pres I'); [window_go | done | clear st HI; intros _ st HI]).
    apply wpg_bind, wpg_modify.
    assert (window_inv (set_cur_proc_frame_id (add_sz (cur_proc_frame_id st) 1) st)) as Hinv.
    { destruct HI as [[H1 H2] Hcp]. unfold window_inv; cbn.
      rewrite add_sz_small by lia. split; lia. }
    revert Hinv. generalize (set_cur_proc_frame_id (add_sz (cur_proc_frame_id st) 1) st).
    change (pres window_inv
      (let* q := gets encode_deferral in
       when (negb (if q is [] then true else false))
         (drain_encode_deferral cfg (N.to_nat (kScheduleQueues cfg))) ;;
       ret (f =? sub_sz (FramesToTest cfg) 1))).
    window_go.
  Qed.

Hint Resolve window_CISF window_CheckFrameComplete : pres.

Lemma window_for_tags (l : list Tag) (body : Tag -> M bool) :
    (forall t, In t l -> pres window_inv (body t)) ->
    pres window_inv (for_tags l body).
  Proof.
    induction l as [|t l IH]; intros Hb; cbn [for_tags]; [window_go|].
    apply pres_bind; [apply Hb; by left|]. intros [|]; [window_go|].
    apply IH. intros; apply Hb; by right.
  Qed.

Context (Hbig : BigstationMode cfg = false).

Lemma window_fill_fft_task fuel slot : pres window_inv (fill_fft_task cfg fuel slot).
  Proof.
    induction fuel; cbn [fill_fft_task]; [window_go|]. rewrite Hbig. window_go.
  Qed.
Hint Resolve window_fill_fft_task : pres.

Lemma window_schedule_fft : pres window_inv (schedule_fft cfg).
  Proof. window_go. Qed.

Lemma window_schedule_tx_in_order fuel sym f :
    pres window_inv (schedule_tx_in_order cfg fuel sym f).
  Proof. revert sym. induction fuel; intros sym; cbn [schedule_tx_in_order]; window_go. Qed.
Hint Resolve window_schedule_tx_in_order : pres.

Lemma window_handle_switch ev :
    gated_event io p ev -> pres window_inv (handle_switch cfg ev).
  Proof.
    intros [Hr Hp]. unfold frames_in_range, from_parity_queue, event_frames in *.
    inversion_clear Hr as [|?? Hr0 Hr'].
    unfold handle_switch. destruct (event_type ev) eqn:Hty; cbn in Hp;
      try (window_go; fail).
    - specialize (Hp eq_refl). inversion_clear Hp as [|?? Hp0 Hp'].
      unfold handle_Demul. rewrite Hbig. cbn [negb]. window_go.
    - specialize (Hp eq_refl). inversion_clear Hp as [|?? Hp0 Hp'].
      unfold handle_IFFT. apply window_for_tags. intros t Ht.
      assert (frame_id t < SIZE_MAX /\ parity (frame_id t) = p) as [??].
      { rewrite List.Forall_forall in Hr', Hp'. split; [apply Hr'|apply Hp']; by apply in_map. }
      window_go.
  Qed.

Lemma window_handle_event ev :
    gated_event io p ev -> pres window_inv (handle_event cfg ev).
  Proof.
    intros Hev. unfold handle_event.
    apply pres_bind; [by apply window_handle_switch|]. intros [|]; [window_go|].
    apply pres_bind; [apply window_schedule_fft | intros ?; window_go].
  Qed.

Lemma window_handle_events evs :
    Forall (gated_event io p) evs -> pres window_inv (handle_events cfg evs).
  Proof.
    induction 1 as [|ev evs Hev _ IH]; cbn [handle_events]; [window_go|].
    apply pres_bind; [by apply window_handle_event|]. intros [|]; [window_go|done].
  Qed.

Lemma window_loop_iteration batch :
    Forall (gated_event io p) batch -> pres window_inv (loop_iteration cfg batch).
  Proof.
    intros Hb. unfold loop_iteration.
    apply pres_bind; [window_go|intros _]. by apply window_handle_events.
  Qed.
End Window.

Lemma window_start st :
  cur_sche_frame_id st <= cur_proc_frame_id st + 1 ->
  window_inv (parity (cur_proc_frame_id st)) st.
Proof.
  intros H. split; [done|]. intros ->. apply parity_succ.
Qed.

Lemma reachable_window cfg st :
  BigstationMode cfg = false ->
  reachable cfg gated_event st ->
  cur_sche_frame_id st <= cur_proc_frame_id st + 1.
Proof.
  intros Hbig. induction 1 as [|st batch fin st' _ IH _ Hok Hrun|st st' _ IH Hfin].
  - cbn. lia.
  - apply window_start in IH.
    eapply (window_loop_iteration cfg (is_turn_to_dequeue_from_io st)) in IH; [|done..].
    eapply wpg_inv in IH; [|done]. apply IH.
  - injection Hfin as <-. exact IH.
Qed.

Lemma queue_eventb_spec io p ev : queue_eventb io p ev = true -> queue_event io p ev.
Proof.
  unfold queue_eventb, queue_event, frames_in_range, from_parity_queue.
  rewrite !andb_true_iff, orb_true_iff, negb_true_iff, !forallb_forall.
  intros [[Hr Hio] Hp]. split; [|split].
  - apply List.Forall_forall. intros f Hf. by apply N.ltb_lt, Hr.
  - by apply Bool.eqb_prop.
  - intros Hw. destruct Hp as [Hp|Hp]; [congruence|].
    apply List.Forall_forall. intros f Hf. by apply N.eqb_eq, Hp.
Qed.

Lemma queue_event_gated io p ev : queue_event io p ev -> gated_event io p ev.
Proof. intros (? & _ & ?). by split. Qed.

Lemma reachable_mono cfg (c1 c2 : bool -> N -> EventData -> Prop) st :
  (forall io p ev, c1 io p ev -> c2 io p ev) ->
  reachable cfg c1 st -> reachable cfg c2 st.
Proof.
  intros Hc. induction 1 as [|st batch fin st' _ IH Hrun Hb Hit|st st' _ IH Hfin].
  - constructor.
  - eapply reachable_iteration; [exact IH|exact Hrun| |exact Hit].
    eapply List.Forall_impl; [|exact Hb]. apply Hc.
  - eapply reachable_finish; [exact IH|exact Hfin].
Qed.

Lemma reachable_run cfg batches st :
  reachable cfg queue_event st ->
  run_ok cfg batches st = true ->
  reachable cfg queue_event (iterate cfg batches st).
Proof.
  revert st. induction batches as [|batch rest IH]; intros st Hst Hok; [done|].
  cbn [run_ok iterate] in *.
  apply andb_true_iff in Hok as [Hok Hrest]. apply andb_true_iff in Hok as [Hrun Hb].
  destruct (loop_iteration cfg batch st) as [fin st'|] eqn:Hit; [|done].
  apply andb_true_iff in Hrest as [_ Hrest].
  apply IH; [|exact Hrest].
  eapply reachable_iteration; [exact Hst|exact Hrun| |exact Hit].
  apply List.Forall_forall. intros ev Hev. apply queue_eventb_spec.
  rewrite forallb_forall in Hb. by apply Hb.
Qed.

(** C3, as amended.  Outside bigstation mode, while no assertion fails, frame
    numbers stay below [SIZE_MAX] and the completions of workers come from
    the completion queue of the parity of [cur_proc_frame_id_], as the loop
    polls it, [cur_sche_frame_id_] is at most one ahead of
    [cur_proc_frame_id_] in every reachable state: the schedule frame
    advances only at a completion of the frame being scheduled, and after it
    has advanced past the processed frame it has the other parity.  With
    [kScheduleQueues >= 1] it is therefore at most [kScheduleQueues] ahead. *)
Theorem schedule_window cfg st :
  BigstationMode cfg = false ->
  1 <= kScheduleQueues cfg ->
  reachable cfg gated_event st ->
  cur_sche_frame_id st <= cur_proc_frame_id st + 1 /\
  cur_sche_frame_id st <= cur_proc_frame_id st + kScheduleQueues cfg.
Proof.
  intros Hbig Hq Hst. pose proof (reachable_window cfg st Hbig Hst). lia.
Qed.

Lemma schedule_window_witness :
  cur_sche_frame_id
    (iterate (test_cfg false false 1 0 0 3) uplink_until_demul
       (init_state (test_cfg false false 1 0 0 3))) = 1 /\
  cur_proc_frame_id
    (iterate (test_cfg false false 1 0 0 3) uplink_until_demul
       (init_state (test_cfg false false 1 0 0 3))) = 0 /\
  (cur_sche_frame_id
     (iterate (test_cfg false false 1 0 0 3) uplink_until_demul
        (init_state (test_cfg false false 1 0 0 3)))
   <= cur_proc_frame_id
        (iterate (test_cfg false false 1 0 0 3) uplink_until_demul
           (init_state (test_cfg false false 1 0 0 3))) + 1 /\
   cur_sche_frame_id
     (iterate (test_cfg false false 1 0 0 3) uplink_until_demul
        (init_state (test_cfg false false 1 0 0 3)))
   <= cur_proc_frame_id
        (iterate (test_cfg false false 1 0 0 3) uplink_until_demul
           (init_state (test_cfg false false 1 0 0 3)))
      + kScheduleQueues (test_cfg false false 1 0 0 3)).
Proof.
  split; [vm_compute; reflexivity|]. split; [vm_compute; reflexivity|].
  apply schedule_window.
  - reflexivity.
  - vm_compute; discriminate.
  - apply (reachable_mono _ queue_event); [apply queue_event_gated|].
    apply reachable_run; [constructor|vm_compute; reflexivity].
Defined.

(** C3 as stated fails in bigstation mode: there the dispatch of the last FFT
    task of a frame advances [cur_sche_frame_id_], so the reception of three
    frames alone takes it to 3 while [cur_proc_frame_id_] is still 0, with
    [kScheduleQueues = 2]. *)
Lemma schedule_window_exceeded_in_bigstation_mode :
  exists st,
    reachable (test_cfg true false 1 0 0 10) queue_event st /\
    kScheduleQueues (test_cfg true false 1 0 0 10) = 2 /\
    cur_sche_frame_id st = 3 /\
    cur_proc_frame_id st = 0 /\
    kScheduleQueues (test_cfg true false 1 0 0 10)
      < cur_sche_frame_id st - cur_proc_frame_id st.
Proof.
  exists (iterate (test_cfg true false 1 0 0 10) three_frames_received
            (init_state (test_cfg true false 1 0 0 10))).
  split; [apply reachable_run; [constructor|vm_compute; reflexivity]|].
  repeat split; vm_compute; reflexivity.
Qed.

(** ** The order of transmission (C4) *)

Lemma tx_step_None cfg a : tx_step cfg None a = None.
Proof. done. Qed.

Lemma tx_state_cons cfg a tr : tx_state cfg (a :: tr) = tx_step cfg (tx_state cfg tr) a.
Proof. done. Qed.






Section TxOrder.
Context (cfg : Config).

Ltac keeps_order :=
  let st := fresh "st" in let cur := fresh "cur" in
  let Hs := fresh "Hs" in let Hb := fresh "Hb" in
  unfold tx_ordered, tx_inv; intros st (cur & Hs & Hb); st_simpl;
  eexists; split; [rewrite ?tx_state_cons, Hs; reflexivity | exact Hb].



Lemma tx_ordered_SDP f : pres (tx_ordered cfg) (ScheduleDownlinkProcessing cfg f).
Proof. pres_go keeps_order. Qed.
Hint Resolve tx_ordered_SDP : pres.

Lemma tx_ordered_drain fuel : pres (tx_ordered cfg) (drain_encode_deferral cfg fuel).
Proof. induction fuel; cbn [drain_encode_deferral]; pres_go keeps_order. Qed.
Hint Resolve tx_ordered_drain : pres.

Lemma tx_ordered_CFC f : pres (tx_ordered cfg) (CheckFrameComplete cfg f).
Proof. pres_go keeps_order. Qed.
Lemma tx_ordered_CISF f c : pres (tx_ordered cfg) (CheckIncrementScheduleFrame cfg f c).
Proof. pres_go keeps_order. Qed.
Hint Resolve tx_ordered_CFC tx_ordered_CISF : pres.

Lemma tx_ordered_fill fuel slot : pres (tx_ordered cfg) (fill_fft_task cfg fuel slot).
Proof. induction fuel; cbn [fill_fft_task]; pres_go keeps_order. Qed.
Hint Resolve tx_ordered_fill : pres.









End TxOrder.

Section TxBuffer.
Context (cfg : Config) (v : list N) (old : list (N * N)).

Ltac unchanged := let H := fresh in intros ? H; exact H.

Lemma buffered_SDP f : pres (buffered v old) (ScheduleDownlinkProcessing cfg f).
Proof. pres_go unchanged. Qed.
Hint Resolve buffered_SDP : pres.

Lemma buffered_drain fuel : pres (buffered v old) (drain_encode_deferral cfg fuel).
Proof. induction fuel; cbn [drain_encode_deferral]; pres_go unchanged. Qed.
Hint Resolve buffered_drain : pres.

Lemma buffered_CFC f : pres (buffered v old) (CheckFrameComplete cfg f).
Proof. pres_go unchanged. Qed.
Lemma buffered_CISF f c : pres (buffered v old) (CheckIncrementScheduleFrame cfg f c).
Proof. pres_go unchanged. Qed.

End TxBuffer.




(** ** Precoding after ZF and encoding (C1) *)

Lemma vec_lookup_insert (v : list N) i j x G :
  vec_lookup (<[N.to_nat i := x]> v) j = Some G ->
  (j = i /\ G = x) \/ vec_lookup v j = Some G.
Proof.
  unfold vec_lookup. rewrite length_insert.
  destruct (j <? N.of_nat (length v)) eqn:Hj; [|done].
  destruct (decide (j = i)) as [->|Hne].
  - apply N.ltb_lt in Hj. rewrite list_lookup_insert_eq by lia. intros [= <-]. by left.
  - rewrite list_lookup_insert_ne by lia. by right.
Qed.

Section PrecodeOrder.
Context (cfg : Config).

Lemma precode_justified_mono nw tr :
  precode_justified cfg None tr -> precode_justified cfg nw tr.
Proof.
  destruct tr as [|a older]; [done|]. cbn [precode_justified].
  intros [Ha Hold]. split; [|exact Hold].
  destruct a as [[[]| | | | |]| | | | | | | | | | | | | | | | |]; try done.
  destruct Ha as [Hzf [Hn|Hj]]; [done|]. split; [exact Hzf|by right].
Qed.

Lemma precode_justified_cons a tr :
  is_precode a = false ->
  precode_justified cfg None tr -> precode_justified cfg None (a :: tr).
Proof.
  intros Ha Htr. cbn [precode_justified]. split; [|by apply precode_justified_mono].
  by destruct a as [[[]| | | | |]| | | | | | | | | | | | | | | | |].
Qed.

Lemma precode_inv_cons a st :
  is_precode a = false ->
  precode_inv cfg st -> precode_inv cfg (set_trace (a :: trace st) st).
Proof.
  intros Ha (Hz & He & Hp & Hd). unfold precode_inv. st_simpl.
  split; [|split; [|split]].
  - destruct Hz as [Hz|Hz]; [by left|right; by right].
  - intros i G Hi HG. destruct (He i G Hi HG) as [?|(s' & ? & ?)]; [by left|].
    right. exists s'. split; [done|by right].
  - by apply precode_justified_cons.
  - exact Hd.
Qed.

Ltac keeps_precode :=
  let H := fresh in
  intros ? H; first [exact H | apply precode_inv_cons; [reflexivity | exact H]].

Lemma precode_inv_SDP F :
  F < SIZE_MAX -> pres (precode_inv cfg) (ScheduleDownlinkProcessing cfg F).
Proof.
  intros HF st Hinv. unfold ScheduleDownlinkProcessing, for_range.
  apply wpg_bind. eapply wpg_mono.
  { apply (wlp_for_each (precode_inv cfg)); [|exact Hinv].
    clear st Hinv. intros i st Hi%N_range_lt (Hz & He & Hp & Hd).
    apply wpg_bind, wpg_gets.
    destruct (zf_last_frame st =? F) eqn:Hzf.
    - apply N.eqb_eq in Hzf. unfold call, emit. apply wpg_modify.
      assert (In (zf_done F) (trace st)) as Hm by (destruct Hz as [Hz|Hz]; [lia|by rewrite <- Hzf]).
      unfold precode_inv. st_simpl. split; [|split; [|split]].
      + right. right. by rewrite Hzf.
      + intros j G Hj HG. destruct (He j G Hj HG) as [?|(s' & ? & ?)]; [by left|].
        right. exists s'. split; [done|by right].
      + cbn [precode_justified]. split; [|by apply precode_justified_mono].
        split; [exact Hm|]. right. left. by exists i.
      + exact Hd.
    - unfold vec_set. apply wpg_bind, wpg_gets.
      destruct (i <? _); [|done]. apply wpg_modify.
      unfold precode_inv. st_simpl. split; [exact Hz|]. split; [|by split].
      intros j G Hj HG. apply vec_lookup_insert in Hj as [[-> _]|Hj]; [left; lia|].
      by apply He. }
  cbn beta. intros _ st' Hinv'. revert st' Hinv'.
  change (pres (precode_inv cfg)
    (for_each (N_range (ClientDlPilotSymbols cfg) (NumDLSyms cfg)) (fun i =>
       call (CallCodeblocks kEncode F (GetDLSymbol cfg i))))).
  pres_go keeps_precode.
Qed.

Lemma precode_inv_defer_or_schedule F :
  F < SIZE_MAX -> pres (precode_inv cfg) (defer_or_schedule cfg F).
Proof.
  intros HF. unfold defer_or_schedule.
  apply pres_bind; [apply pres_gets|intros q].
  apply pres_bind; [apply pres_gets|intros cp].
  destruct (_ || _); [|by apply precode_inv_SDP].
  apply pres_bind; [pres_go keeps_precode|intros _].
  apply pres_modify. intros st (Hz & He & Hp & Hd). unfold precode_inv. st_simpl.
  repeat split; try done. apply Forall_app. split; [exact Hd|by constructor].
Qed.

Lemma precode_inv_drain fuel : pres (precode_inv cfg) (drain_encode_deferral cfg fuel).
Proof.
  induction fuel as [|fuel IH]; cbn [drain_encode_deferral]; [apply pres_ret|].
  apply pres_bind_gets. intros st Hinv.
  destruct (encode_deferral st) as [|F rest] eqn:Hq; [done|].
  apply wpg_bind, wpg_gets.
  destruct (F <? _); [|by apply wpg_ret].
  assert (F < SIZE_MAX) as HF.
  { destruct Hinv as (_ & _ & _ & Hd). rewrite Hq in Hd. by inversion Hd. }
  enough (pres (precode_inv cfg)
    (emit (PrintSchedulingDeferred F (cur_proc_frame_id st)) ;;
     RtAssert (cur_proc_frame_id st <=? F) ;;
     ScheduleDownlinkProcessing cfg F ;;
     modify (fun st => set_encode_deferral (tl (encode_deferral st)) st) ;;
     drain_encode_deferral cfg fuel)) as H by (by apply H).
  clear Hinv Hq.
  apply pres_bind; [pres_go keeps_precode|intros _].
  apply pres_bind; [pres_go keeps_precode|intros _].
  apply pres_bind; [by apply precode_inv_SDP|intros _].
  apply pres_bind; [|intros _; exact IH].
  apply pres_modify. intros st' (Hz & He & Hp & Hd). unfold precode_inv. st_simpl.
  repeat split; try done. destruct (encode_deferral st'); [done|]. by inversion Hd.
Qed.
Hint Resolve precode_inv_drain precode_inv_SDP precode_inv_defer_or_schedule : pres.

Lemma precode_inv_CFC f : pres (precode_inv cfg) (CheckFrameComplete cfg f).
Proof. pres_go keeps_precode. Qed.
Lemma precode_inv_CISF f c : pres (precode_inv cfg) (CheckIncrementScheduleFrame cfg f c).
Proof. pres_go keeps_precode. Qed.
Hint Resolve precode_inv_CFC precode_inv_CISF : pres.

Lemma precode_inv_tx_in_order fuel sym f :
  pres (precode_inv cfg) (schedule_tx_in_order cfg fuel sym f).
Proof. revert sym. induction fuel; intros sym; cbn [schedule_tx_in_order]; pres_go keeps_precode. Qed.
Hint Resolve precode_inv_tx_in_order : pres.

Lemma precode_inv_fill fuel slot : pres (precode_inv cfg) (fill_fft_task cfg fuel slot).
Proof. induction fuel; cbn [fill_fft_task]; pres_go keeps_precode. Qed.
Hint Resolve precode_inv_fill : pres.


Lemma precode_inv_UpdateRxCounters F s :
  F < SIZE_MAX -> pres (precode_inv cfg) (UpdateRxCounters cfg F s).
Proof. intros HF. pres_go keeps_precode. Qed.
Hint Resolve precode_inv_UpdateRxCounters : pres.











End PrecodeOrder.




(** * Further properties *)

(** ** The events of a Schedule call *)

Lemma seq_from a n : seq a n = map (fun k => (a + k)%nat) (seq 0 n).
Proof.
  induction a as [|a IH]; [by rewrite map_id|].
  rewrite <- seq_shift, IH, map_map. done.
Qed.

Lemma N_range_app a b :
  N_range 0 (a + b) = N_range 0 a ++ map (fun j => a + j) (N_range 0 b).
Proof.
  unfold N_range. rewrite !N.sub_0_r.
  replace (N.to_nat (a + b)) with (N.to_nat a + N.to_nat b)%nat by lia.
  rewrite seq_app, map_app, map_map. f_equal. cbn [plus].
  rewrite (seq_from (N.to_nat a)), map_map. apply map_ext. intros k. lia.
Qed.

Lemma tag_coordinates_app l1 l2 :
  tag_coordinates (l1 ++ l2) = tag_coordinates l1 ++ tag_coordinates l2.
Proof. apply flat_map_app. Qed.
Lemma event_types_app l1 l2 : event_types (l1 ++ l2) = event_types l1 ++ event_types l2.
Proof. apply flat_map_app. Qed.

Section CountedLoop.
Context (B n : N) (mk : N -> Tag) (enq : list Tag -> Enqueued).

Local Abbreviation q := (n / B).
Local Abbreviation r := (n mod B).
Local Abbreviation nb := (q + (if 0 <? r then 1 else 0)).
Local Abbreviation body := (counted_loop_body B n mk enq).

Lemma counted_full (l : list N) id out :
  (forall i, In i l -> (i =? nb - 1) && (0 <? r) = false) ->
  fold_left (fun s i => body i s) l (B, id, out)
    = (B, id + N.of_nat (length l) * B,
       out ++ map (fun k => id_batch mk enq (id + N.of_nat k * B) B) (seq 0 (length l))).
Proof.
  revert id out. induction l as [|i l IH]; intros id out Hl.
  - cbn. by rewrite app_nil_r, N.add_0_r.
  - cbn [fold_left]. unfold counted_loop_body at 2. rewrite (Hl i) by by left.
    rewrite IH by (intros j Hj; apply Hl; by right).
    f_equal; [f_equal; cbn [length]; lia|].
    cbn [length seq map]. rewrite <- app_assoc. cbn [app]. f_equal.
    rewrite N.mul_0_l, N.add_0_r. f_equal.
    rewrite <- seq_shift, map_map. apply map_ext. intros k.
    f_equal. lia.
Qed.

(** The loop enqueues the full batches and then the remainder. *)
Lemma counted_loop :
  0 < B ->
  snd (loop nb body (B, 0, []))
    = map (fun k => id_batch mk enq (N.of_nat k * B) B) (seq 0 (N.to_nat q))
      ++ (if 0 <? r then [id_batch mk enq (q * B) r] else []).
Proof.
  intros HB. unfold loop.
  assert (length (N_range 0 q) = N.to_nat q) as Hlen
    by (by rewrite N_range_length, N.sub_0_r).
  destruct (0 <? r) eqn:Hrem.
  - rewrite N_range_snoc, fold_left_app, counted_full.
    2:{ intros i Hi%N_range_lt. rewrite Hrem, N.add_sub.
        apply andb_false_intro1. apply N.eqb_neq. lia. }
    cbn [fold_left]. unfold counted_loop_body. rewrite Hrem, N.add_sub, N.eqb_refl.
    cbn [andb snd app]. rewrite Hlen, N2Nat.id, N.add_0_l. done.
  - rewrite N.add_0_r, counted_full.
    2:{ intros i _. apply andb_false_intro2. exact Hrem. }
    cbn [snd app]. rewrite Hlen, app_nil_r. apply map_ext. intros k. by rewrite N.add_0_l.
Qed.

End CountedLoop.

Section OneQueue.
Context (Q : QueueId) (ev : EventType) (F s : N).

Local Abbreviation mk := (mkTag F s).
Local Abbreviation enq := (fun tags => Enq Q [mkEvent ev tags]).

Lemma aux_ids_id_batch a c :
  aux_ids [id_batch mk enq a c] = map (fun j => a + j) (N_range 0 c).
Proof. cbn. by rewrite !app_nil_r, map_map. Qed.

Lemma batch_sizes_id_batch a c : batch_sizes [id_batch mk enq a c] = [c].
Proof. cbn. by rewrite length_map, N_range_length, N.sub_0_r, N2Nat.id. Qed.

Lemma tag_coordinates_id_batch a c :
  Forall (fun x => x = (F, s)) (tag_coordinates [id_batch mk enq a c]).
Proof.
  cbn. rewrite !app_nil_r, map_map. cbn. apply List.Forall_forall.
  intros x Hx. apply in_map_iff in Hx as (j & <- & _). done.
Qed.

Lemma full_batches_cover B m :
  let out := map (fun k => id_batch mk enq (N.of_nat k * B) B) (seq 0 m) in
  aux_ids out = N_range 0 (N.of_nat m * B) /\
  batch_sizes out = repeat B m /\
  Forall (fun x => x = Q) (queues out) /\
  Forall (fun x => x = ev) (event_types out) /\
  Forall (fun x => x = (F, s)) (tag_coordinates out).
Proof.
  induction m as [|m (IH1 & IH2 & IH3 & IH4 & IH5)].
  - by repeat split.
  - cbn zeta. rewrite seq_S, map_app. cbn [map plus].
    unfold queues, event_types.
    rewrite aux_ids_app, batch_sizes_app, tag_coordinates_app, map_app, flat_map_app.
    rewrite aux_ids_id_batch, batch_sizes_id_batch, IH1, IH2.
    split; [|split; [|split; [|split]]].
    + by rewrite Nat2N.inj_succ, N.mul_succ_l, N_range_app.
    + cbn zeta in IH2. rewrite <- repeat_cons. done.
    + apply Forall_app. split; [exact IH3|by repeat constructor].
    + apply Forall_app. split; [exact IH4|by repeat constructor].
    + apply Forall_app. split; [exact IH5|apply tag_coordinates_id_batch].
Qed.

Lemma batches_cover B n :
  0 < B ->
  covers_in_batches
    (map (fun k => id_batch mk enq (N.of_nat k * B) B) (seq 0 (N.to_nat (n / B)))
     ++ (if 0 <? n mod B then [id_batch mk enq (n / B * B) (n mod B)] else []))
    Q ev F s n B.
Proof.
  intros HB. destruct (full_batches_cover B (N.to_nat (n / B))) as (H1 & H2 & H3 & H4 & H5).
  cbn zeta in *. unfold covers_in_batches, queues, event_types.
  rewrite aux_ids_app, batch_sizes_app, tag_coordinates_app, map_app, flat_map_app.
  rewrite H1, H2, N2Nat.id.
  assert (n = n / B * B + n mod B) as Hn
    by (rewrite (N.div_mod n B) at 1 by lia; lia).
  destruct (0 <? n mod B) eqn:Hr.
  - rewrite aux_ids_id_batch, batch_sizes_id_batch.
    split; [by rewrite Hn at 3; rewrite N_range_app|].
    split; [done|].
    split; [apply Forall_app; split; [exact H3|by repeat constructor]|].
    split; [apply Forall_app; split; [exact H4|by repeat constructor]|].
    apply Forall_app; split; [exact H5|apply tag_coordinates_id_batch].
  - apply N.ltb_ge, N.le_0_r in Hr. rename Hr into Hr0.
    rewrite Hr0, N.add_0_r in Hn. rewrite !app_nil_r.
    split; [by rewrite <- Hn|]. split; [done|]. auto.
Qed.

End OneQueue.

Lemma ScheduleAntennas_loop cfg ev F s :
  ScheduleAntennas cfg ev F s
    = snd (loop (BsAntNum cfg / FftBlockSize cfg
                 + (if 0 <? BsAntNum cfg mod FftBlockSize cfg then 1 else 0))
             (counted_loop_body (FftBlockSize cfg) (BsAntNum cfg) (mkTag F s)
                (fun tags => Enq (Conq ev (N.land F 1)) [mkEvent ev tags]))
             (FftBlockSize cfg, 0, [])).
Proof.
  unfold ScheduleAntennas, loop, counted_loop_body, id_batch.
  lazymatch goal with |- _ = snd ?y =>
    change ((let '(_, _, out) := y in out) = snd y); by destruct y as [[? ?] ?] end.
Qed.

Lemma ScheduleCodeblocks_loop cfg ev F s :
  ScheduleCodeblocks cfg ev F s
    = snd (loop (mul_sz (UeAntNum cfg) (NumBlocksInSymbol cfg) / EncodeBlockSize cfg
                 + (if 0 <? mul_sz (UeAntNum cfg) (NumBlocksInSymbol cfg)
                              mod EncodeBlockSize cfg then 1 else 0))
             (counted_loop_body (EncodeBlockSize cfg)
                (mul_sz (UeAntNum cfg) (NumBlocksInSymbol cfg)) (mkTag F s)
                (fun tags => Enq (Conq ev (N.land F 1)) [mkEvent ev tags]))
             (EncodeBlockSize cfg, 0, [])).
Proof.
  unfold ScheduleCodeblocks, loop, counted_loop_body, id_batch.
  lazymatch goal with |- _ = snd ?y =>
    change ((let '(_, _, out) := y in out) = snd y); by destruct y as [[? ?] ?] end.
Qed.

(** X3.  [ScheduleAntennas(event_type, frame, symbol)] gives every antenna
    0 .. [BsAntNum]-1 exactly one tag, in increasing order, in events of
    [FftBlockSize] tags followed by one event with the remainder if there is
    one; every event has the type asked for, is put on the queue of that type
    and of the parity of the frame, and every tag names the frame and the
    symbol. *)
Theorem ScheduleAntennas_covers cfg ev F s :
  0 < FftBlockSize cfg ->
  covers_in_batches (ScheduleAntennas cfg ev F s) (Conq ev (N.land F 1)) ev F s
    (BsAntNum cfg) (FftBlockSize cfg).
Proof.
  intros HB. rewrite ScheduleAntennas_loop, counted_loop by done.
  replace (map _ (seq 0 _)) with
    (map (fun k => id_batch (mkTag F s)
                     (fun tags => Enq (Conq ev (N.land F 1)) [mkEvent ev tags])
                     (N.of_nat k * FftBlockSize cfg) (FftBlockSize cfg))
         (seq 0 (N.to_nat (BsAntNum cfg / FftBlockSize cfg)))) by done.
  by apply batches_cover.
Qed.

Lemma ScheduleAntennas_covers_witness :
  ScheduleAntennas (with_antennas (test_cfg false false 1 0 0 3) 5 2 1 1) kFFT 3 0
    = [ Enq (Conq kFFT 1) [mkEvent kFFT [mkTag 3 0 0; mkTag 3 0 1]];
        Enq (Conq kFFT 1) [mkEvent kFFT [mkTag 3 0 2; mkTag 3 0 3]];
        Enq (Conq kFFT 1) [mkEvent kFFT [mkTag 3 0 4]] ] /\
  covers_in_batches
    (ScheduleAntennas (with_antennas (test_cfg false false 1 0 0 3) 5 2 1 1) kFFT 3 0)
    (Conq kFFT 1) kFFT 3 0 5 2.
Proof.
  split; [reflexivity|].
  apply (ScheduleAntennas_covers (with_antennas (test_cfg false false 1 0 0 3) 5 2 1 1)
           kFFT 3 0).
  reflexivity.
Defined.

(** X4.  [ScheduleCodeblocks(event_type, frame, symbol)] gives every code
    block 0 .. [UeAntNum * NumBlocksInSymbol]-1 (the product taken in
    [size_t]) exactly one tag, in increasing order, in events of
    [EncodeBlockSize] tags followed by one event with the remainder if there
    is one, all on the queue of the event type and of the parity of the
    frame. *)
Theorem ScheduleCodeblocks_covers cfg ev F s :
  0 < EncodeBlockSize cfg ->
  covers_in_batches (ScheduleCodeblocks cfg ev F s) (Conq ev (N.land F 1)) ev F s
    (mul_sz (UeAntNum cfg) (NumBlocksInSymbol cfg)) (EncodeBlockSize cfg).
Proof.
  intros HB. rewrite ScheduleCodeblocks_loop, counted_loop by done.
  by apply batches_cover.
Qed.

Lemma ScheduleCodeblocks_covers_witness :
  ScheduleCodeblocks (with_codeblocks (test_cfg false false 1 0 0 3) 2 2 3) kDecode 2 1
    = [ Enq (Conq kDecode 0) [mkEvent kDecode [mkTag 2 1 0; mkTag 2 1 1; mkTag 2 1 2]];
        Enq (Conq kDecode 0) [mkEvent kDecode [mkTag 2 1 3]] ] /\
  covers_in_batches
    (ScheduleCodeblocks (with_codeblocks (test_cfg false false 1 0 0 3) 2 2 3) kDecode 2 1)
    (Conq kDecode 0) kDecode 2 1 4 3.
Proof.
  split; [reflexivity|].
  apply (ScheduleCodeblocks_covers (with_codeblocks (test_cfg false false 1 0 0 3) 2 2 3)
           kDecode 2 1).
  reflexivity.
Defined.

Lemma ceil_events_cover cfg :
  0 < SocketThreadNum cfg ->
  BsAntNum cfg <= SocketThreadNum cfg * ceil_events_per_handler cfg.
Proof.
  intros Ht. unfold ceil_events_per_handler.
  pose proof (N.div_mod (BsAntNum cfg) (SocketThreadNum cfg)) as Hdm.
  pose proof (N.mod_lt (BsAntNum cfg) (SocketThreadNum cfg)) as Hlt.
  revert Hdm Hlt.
  generalize (BsAntNum cfg / SocketThreadNum cfg) (BsAntNum cfg mod SocketThreadNum cfg).
  intros q r Hdm Hlt. specialize (Hdm ltac:(lia)). specialize (Hlt ltac:(lia)).
  destruct (0 <? r) eqn:Hr.
  - rewrite N.mul_add_distr_l. lia.
  - apply N.ltb_ge in Hr. lia.
Qed.

Section AntennasTX.
Context (cfg : Config) (F s : N).

Local Abbreviation ceil := (ceil_events_per_handler cfg).
Local Abbreviation total := (BsAntNum cfg).

Lemma ScheduleAntennasTX_loop :
  ScheduleAntennasTX cfg F s
    = snd (fold_left (fun st h => tx_loop_body cfg F s h st)
             (N_range 0 (SocketThreadNum cfg)) (0, [])).
Proof.
  unfold ScheduleAntennasTX, loop, tx_loop_body.
  lazymatch goal with |- _ = snd ?y =>
    change ((let '(_, out) := y in out) = snd y); by destruct y end.
Qed.

Local Abbreviation bulk := (fun h sched js =>
  Enq (TxConq h) (map (fun j => mkEvent kPacketTX [mkTag F s (sched + j)]) js)).

Lemma tx_bulk_aux h sched js : aux_ids [bulk h sched js] = map (fun j => sched + j) js.
Proof.
  unfold aux_ids. cbn [flat_map enq_events]. rewrite app_nil_r.
  induction js as [|j js IH]; [done|]. cbn. by rewrite IH.
Qed.

Lemma tx_bulk_coordinates h sched js :
  tag_coordinates [bulk h sched js] = map (fun _ => (F, s)) js.
Proof.
  unfold tag_coordinates. cbn [flat_map enq_events]. rewrite app_nil_r.
  induction js as [|j js IH]; [done|]. cbn. by rewrite IH.
Qed.

Lemma tx_bulk_sizes h sched js : batch_sizes [bulk h sched js] = map (fun _ => 1) js.
Proof.
  unfold batch_sizes. cbn [flat_map enq_events]. rewrite app_nil_r.
  induction js as [|j js IH]; [done|]. cbn. by rewrite IH.
Qed.

Lemma tx_bulk_types h sched js :
  event_types [bulk h sched js] = map (fun _ => kPacketTX) js.
Proof.
  unfold event_types. cbn [flat_map enq_events]. rewrite app_nil_r.
  induction js as [|j js IH]; [done|]. cbn. by rewrite IH.
Qed.

Lemma Forall_const {A B} (x : B) (js : list A) :
  Forall (fun y => y = x) (map (fun _ => x) js).
Proof. apply List.Forall_forall. intros y Hy. by apply in_map_iff in Hy as (? & <- & _). Qed.

Lemma tx_loop_inv (l : list N) :
  let st := fold_left (fun st h => tx_loop_body cfg F s h st) l (0, []) in
  aux_ids (snd st) = N_range 0 (fst st) /\
  fst st = N.min (N.of_nat (length l) * ceil) total /\
  queues (snd st) = map TxConq l /\
  Forall (fun e => N.of_nat (length (enq_events e)) <= ceil) (snd st) /\
  Forall (fun x => x = kPacketTX) (event_types (snd st)) /\
  Forall (fun x => x = (F, s)) (tag_coordinates (snd st)) /\
  Forall (fun x => x = 1) (batch_sizes (snd st)).
Proof.
  induction l as [|h l IH] using rev_ind.
  - cbn. repeat split; try done. rewrite N.min_l; lia.
  - cbn zeta in *. rewrite fold_left_app. cbn [fold_left].
    destruct (fold_left _ l (0, [])) as [sched out].
    cbn [fst snd] in IH. destruct IH as (H1 & H2 & H3 & H4 & H5 & H6 & H7).
    unfold tx_loop_body. cbn [fst snd].
    set (tx := N.min ceil (total - sched)).
    change (Enq (TxConq h) _) with (bulk h sched (N_range 0 tx)).
    rewrite aux_ids_app, batch_sizes_app, tag_coordinates_app, event_types_app.
    rewrite tx_bulk_aux, tx_bulk_sizes, tx_bulk_coordinates, tx_bulk_types.
    split; [by rewrite H1, N_range_app|].
    split.
    { rewrite length_app, Nat2N.inj_add, N.mul_add_distr_r. cbn [length].
      change (N.of_nat 1) with 1. rewrite N.mul_1_l. subst tx. rewrite H2.
      generalize (N.of_nat (length l) * ceil) ceil. intros x c. lia. }
    split; [unfold queues in *; by rewrite !map_app, H3|].
    split.
    { apply Forall_app. split; [exact H4|]. repeat constructor. cbn [enq_events].
      rewrite length_map, N_range_length, N.sub_0_r, N2Nat.id. subst tx. lia. }
    repeat split; (apply Forall_app; split; [assumption|apply Forall_const]).
Qed.

(** X5.  [ScheduleAntennasTX(frame, symbol)] gives every antenna
    0 .. [BsAntNum]-1 exactly one [kPacketTX] event of one tag, in increasing
    order: one bulk per socket thread, in the order of the threads, of at
    most [ceil(BsAntNum / SocketThreadNum)] events each (the bulks of the
    last threads are empty when the antennas have run out). *)
Theorem ScheduleAntennasTX_covers :
  0 < SocketThreadNum cfg ->
  aux_ids (ScheduleAntennasTX cfg F s) = N_range 0 (BsAntNum cfg) /\
  queues (ScheduleAntennasTX cfg F s) = map TxConq (N_range 0 (SocketThreadNum cfg)) /\
  Forall (fun e => N.of_nat (length (enq_events e)) <= ceil_events_per_handler cfg)
         (ScheduleAntennasTX cfg F s) /\
  Forall (fun x => x = kPacketTX) (event_types (ScheduleAntennasTX cfg F s)) /\
  Forall (fun x => x = (F, s)) (tag_coordinates (ScheduleAntennasTX cfg F s)) /\
  Forall (fun x => x = 1) (batch_sizes (ScheduleAntennasTX cfg F s)).
Proof.
  intros Ht. rewrite ScheduleAntennasTX_loop.
  destruct (tx_loop_inv (N_range 0 (SocketThreadNum cfg)))
    as (H1 & H2 & H3 & H4 & H5 & H6 & H7).
  cbn zeta in *. split; [|done].
  rewrite H1, H2, N_range_length, N.sub_0_r, N2Nat.id.
  f_equal. apply N.min_r. by apply ceil_events_cover.
Qed.

End AntennasTX.

Lemma ScheduleAntennasTX_covers_witness :
  ScheduleAntennasTX (with_antennas (test_cfg false false 0 1 0 3) 4 1 3 1) 0 1
    = [ Enq (TxConq 0) [mkEvent kPacketTX [mkTag 0 1 0]; mkEvent kPacketTX [mkTag 0 1 1]];
        Enq (TxConq 1) [mkEvent kPacketTX [mkTag 0 1 2]; mkEvent kPacketTX [mkTag 0 1 3]];
        Enq (TxConq 2) [] ] /\
  aux_ids (ScheduleAntennasTX (with_antennas (test_cfg false false 0 1 0 3) 4 1 3 1) 0 1)
    = [0; 1; 2; 3].
Proof.
  split; [reflexivity|].
  apply (ScheduleAntennasTX_covers (with_antennas (test_cfg false false 0 1 0 3) 4 1 3 1) 0 1).
  reflexivity.
Defined.

(** ** The stage graph *)

Section Stages.
Context (cfg : Config) (ks : list CallKind) (tr0 : list Action).

Lemma only_calls_cons a st :
  allowedb ks a = true ->
  only_calls ks tr0 st -> only_calls ks tr0 (set_trace (a :: trace st) st).
Proof.
  intros Ha (new & Htr & Hok). exists (a :: new). st_simpl. rewrite Htr.
  split; [done|]. cbn [forallb]. by rewrite Ha, Hok.
Qed.

Ltac keeps_calls :=
  let H := fresh in
  intros ? H;
  first [ exact H
        | apply only_calls_cons; [first [reflexivity | assumption | auto] | exact H] ].
Ltac calls_go := pres_go keeps_calls.

Local Abbreviation I := (only_calls ks tr0).

Lemma stage_for_tags (l : list Tag) (body : Tag -> M bool) :
  (forall t, pres I (body t)) -> pres I (for_tags l body).
Proof.
  intros Hb. induction l as [|t l IH]; cbn [for_tags]; [apply pres_ret|].
  apply pres_bind; [apply Hb|]. intros [|]; [apply pres_ret|done].
Qed.

Lemma stage_CISF f c : pres I (CheckIncrementScheduleFrame cfg f c).
Proof. calls_go. Qed.

Lemma stage_fill fuel slot : pres I (fill_fft_task cfg fuel slot).
Proof.
  induction fuel; cbn [fill_fft_task]; [calls_go|].
  pose proof stage_CISF. calls_go.
Qed.

Lemma stage_schedule_fft : pres I (schedule_fft cfg).
Proof. pose proof stage_fill. calls_go. Qed.

(** The handlers that reach [ScheduleDownlinkProcessing]. *)
Context (Hprecode : forall f s, allowedb ks (Sched (CallSubcarriers kPrecode f s)) = true)
        (Hencode : forall f s, allowedb ks (Sched (CallCodeblocks kEncode f s)) = true).

Lemma stage_SDP f : pres I (ScheduleDownlinkProcessing cfg f).
Proof. calls_go. Qed.

Lemma stage_drain fuel : pres I (drain_encode_deferral cfg fuel).
Proof.
  pose proof stage_SDP. induction fuel; cbn [drain_encode_deferral]; calls_go.
Qed.

Lemma stage_CFC f : pres I (CheckFrameComplete cfg f).
Proof. pose proof stage_drain. calls_go. Qed.

Lemma stage_defer_or_schedule f : pres I (defer_or_schedule cfg f).
Proof. pose proof stage_SDP. calls_go. Qed.

Lemma stage_UpdateRxCounters f s : pres I (UpdateRxCounters cfg f s).
Proof. pose proof stage_defer_or_schedule. calls_go. Qed.

Lemma stage_tx_in_order fuel sym f :
  (forall f s, allowedb ks (Sched (CallAntennasTX f s)) = true) ->
  pres I (schedule_tx_in_order cfg fuel sym f).
Proof.
  intros Htx. revert sym. induction fuel; intros sym; cbn [schedule_tx_in_order]; calls_go.
Qed.

End Stages.

Lemma stage_handle_switch cfg tr0 ev :
  pres (only_calls (stage_successors (event_type ev)) tr0) (handle_switch cfg ev).
Proof.
  unfold handle_switch.
  destruct (event_type ev); cbn [stage_successors];
    lazymatch goal with
    | |- pres (only_calls ?ks _) _ =>
        pose proof (stage_CISF cfg ks tr0);
        try pose proof (stage_CFC cfg ks tr0 ltac:(reflexivity) ltac:(reflexivity));
        try pose proof (stage_defer_or_schedule cfg ks tr0
                          ltac:(reflexivity) ltac:(reflexivity));
        try pose proof (stage_UpdateRxCounters cfg ks tr0
                          ltac:(reflexivity) ltac:(reflexivity));
        try (assert (forall fuel sym f,
                        pres (only_calls ks tr0) (schedule_tx_in_order cfg fuel sym f))
               by (intros; apply stage_tx_in_order; reflexivity))
    end;
    lazymatch goal with
    | |- pres _ (handle_IFFT _ _) =>
        unfold handle_IFFT; apply stage_for_tags; intros t
    | |- _ => idtac
    end;
    pres_go ltac:(let H := fresh in
                  intros ? H;
                  first [ exact H
                        | apply only_calls_cons; [reflexivity | exact H] ]).
Qed.

Lemma allowedb_In ks c :
  allowedb ks (Sched c) = true -> In (call_kind c) ks.
Proof.
  cbn [allowedb]. intros H. apply existsb_exists in H as (k & Hin & Hk).
  apply internal_CallKind_dec_bl in Hk. by subst.
Qed.

Lemma only_calls_In ks tr0 st :
  only_calls ks tr0 st ->
  exists new, trace st = new ++ tr0 /\
    forall c, In c (calls_in new) -> In (call_kind c) ks.
Proof.
  intros (new & Htr & Hok). exists new. split; [done|].
  intros c Hc. unfold calls_in in Hc.
  apply list_elem_of_In, list_elem_of_omap in Hc as (a & Ha & Hsome).
  destruct a; try discriminate. injection Hsome as ->.
  apply list_elem_of_In in Ha.
  rewrite forallb_forall in Hok. apply allowedb_In, Hok, Ha.
Qed.

(** X6.  The stage graph of the master.  Whenever handling one event returns
    (the [switch] case of its type, then the FFT scheduling that follows the
    switch), every [Schedule...] call it made is of a kind listed for the
    event type by [stage_successors]: an FFT completion schedules only ZF,
    Demul or the SNR report; ZF only Demul or Precode; Demul only Decode;
    Encode only Precode; Precode only IFFT; IFFT only the TX of antennas, or
    through a retired frame the Precode and Encode of a deferred frame; Decode
    only the packets to the MAC and the same deferred work; RX, MAC and TX
    events only the Precode and Encode of [ScheduleDownlinkProcessing]; and a
    RAN update none. *)
Theorem handler_successors cfg ev st r st' :
  handle_event cfg ev st = Ok r st' ->
  exists new, trace st' = new ++ trace st /\
    forall c, In c (calls_in new) ->
      In (call_kind c) (stage_successors (event_type ev)).
Proof.
  intros Hrun. apply only_calls_In.
  assert (pres (only_calls (stage_successors (event_type ev)) (trace st))
            (handle_event cfg ev)) as Hp.
  { unfold handle_event. apply pres_bind; [apply stage_handle_switch|].
    intros [|]; [apply pres_ret|].
    apply pres_bind; [apply stage_schedule_fft|]. intros ?. apply pres_ret. }
  eapply pres_run; [exact Hp| |exact Hrun].
  by exists [].
Qed.

Lemma handler_successors_witness :
  exists new, trace pilot_fft_handled = new ++ trace fft_before_zf /\
    new <> [] /\
    forall c, In c (calls_in new) ->
      In (call_kind c) [KSubcarriers kZF; KSubcarriers kDemul; KSnrReport kSNRReport].
Proof.
  destruct (handler_successors (test_cfg false false 1 0 0 3) (event kFFT 0 0)
              fft_before_zf false pilot_fft_handled) as (new & Htr & Hin).
  { vm_compute. reflexivity. }
  exists new. split; [exact Htr|]. split; [|exact Hin].
  intros ->. vm_compute in Htr. discriminate.
Defined.

(** ** The FFT dispatch *)

Section FftDispatch.
Context (cfg : Config).

Lemma CISF_sched st f c Q :
  cur_sche_frame_id st = f ->
  (forall st', fft_queue_arr st' = fft_queue_arr st -> trace st' = trace st -> Q tt st') ->
  wp (CheckIncrementScheduleFrame cfg f c) Q st.
Proof.
  intros <- HQ. unfold CheckIncrementScheduleFrame. wexec. rewrite N.eqb_refl.
  wrun_with idtac; by apply HQ.
Qed.

Lemma upd_same {A} (f : N -> A) k v : upd f k v k = v.
Proof. unfold upd. by rewrite N.eqb_refl. Qed.

Lemma upd_other {A} (f : N -> A) k v x : x <> k -> upd f k v x = f x.
Proof. unfold upd. intros H. by apply N.eqb_neq in H as ->. Qed.

Lemma fill_fft_task_spec slot fuel : forall st,
  (fuel <= length (fft_queue_arr st slot))%nat ->
  wp (fill_fft_task cfg fuel slot)
     (fun ts st' =>
        ts = take fuel (fft_queue_arr st slot) /\
        fft_left slot (drop fuel (fft_queue_arr st slot)) st st' /\
        exists new, trace st' = new ++ trace st /\ fft_tasks new = []) st.
Proof.
  induction fuel as [|fuel IH]; intros st Hlen; cbn [fill_fft_task].
  { apply wpg_ret. rewrite take_0, drop_0. repeat split. by exists []. }
  unfold pop_fft. apply wpg_bind, wpg_bind, wpg_gets.
  destruct (fft_queue_arr st slot) as [|t q] eqn:Hq; [cbn in Hlen; lia|].
  cbn in Hlen.
  assert (forall st1 pre,
            fft_queue_arr st1 = upd (fft_queue_arr st) slot q ->
            trace st1 = pre ++ trace st -> fft_tasks pre = [] ->
            wp (fill_fft_task cfg fuel slot)
               (fun a st' =>
                  wp (ret (t :: a))
                     (fun ts st'0 =>
                        ts = take (S fuel) (t :: q) /\
                        fft_left slot (drop (S fuel) (t :: q)) st st'0 /\
                        exists new, trace st'0 = new ++ trace st /\ fft_tasks new = [])
                     st') st1) as Hrest.
  { intros st1 pre Hf Htr Hpre.
    eapply wpg_mono; [apply IH; rewrite Hf, upd_same; lia|].
    intros ts st' (-> & (Hl & Ho) & new & Hnew & Hnone).
    rewrite Hf, upd_same in Hl. rewrite Hf, upd_same.
    apply wpg_ret. split; [done|]. split.
    - split; [done|]. intros x Hx. rewrite Ho, Hf by done. by apply upd_other.
    - exists (new ++ pre). rewrite Hnew, Htr, app_assoc. split; [done|].
      unfold fft_tasks in *. by rewrite omap_app, Hnone, Hpre. }
  wrun_with idtac.
  all: try (apply CISF_sched; [reflexivity|]; intros st' Hf Htr; wexec).
  all: first [ apply (Hrest _ [MasterSetTsc kProcessingStarted (cur_sche_frame_id st)]);
               [try rewrite Hf; reflexivity | try rewrite Htr; reflexivity | reflexivity]
             | apply (Hrest _ []);
               [try rewrite Hf; reflexivity | try rewrite Htr; reflexivity | reflexivity] ].
Qed.

(** The loop over the blocks. *)
Lemma fft_blocks_loop slot qid B (l : list N) : forall st,
  (length l * B <= length (fft_queue_arr st slot))%nat ->
  wp (for_each l (fun _ =>
        let* ts := fill_fft_task cfg B slot in
        emit (EnqueueFft qid ts)))
     (fun _ st' =>
        fft_left slot (drop (length l * B) (fft_queue_arr st slot)) st st' /\
        exists new, trace st' = new ++ trace st /\
          fft_tasks (rev new) =
            map (pair qid) (blocks (length l) B (fft_queue_arr st slot))) st.
Proof.
  induction l as [|i l IH]; intros st Hlen; cbn [for_each length].
  { apply wpg_ret. rewrite drop_0. repeat split. by exists []. }
  cbn [length] in Hlen.
  apply wpg_bind, wpg_bind.
  eapply wpg_mono; [apply fill_fft_task_spec; lia|].
  intros ts st1 (-> & (Hl1 & Ho1) & new1 & Htr1 & Hn1).
  unfold emit at 1. apply wpg_modify.
  eapply wpg_mono; [apply IH; st_simpl; rewrite Hl1, length_drop; lia|].
  intros _ st2 ((Hl2 & Ho2) & new2 & Htr2 & Hn2). st_simpl_in Hl2. st_simpl_in Htr2.
  revert Ho2 Hn2; st_simpl; intros Ho2 Hn2.
  rewrite Hl1 in Hl2, Hn2. split.
  - split.
    + by rewrite Hl2, drop_drop.
    + intros x Hx. by rewrite Ho2, Ho1.
  - exists (new2 ++ EnqueueFft qid (take B (fft_queue_arr st slot)) :: new1).
    rewrite Htr2, Htr1. split; [by rewrite <- app_assoc|].
    rewrite rev_app_distr. cbn [rev]. unfold fft_tasks in *.
    rewrite !omap_app, Hn2. cbn [blocks map].
    assert (omap (λ a : Action, match a with EnqueueFft q ts => Some (q, ts) | _ => None end)
              (rev new1) = []) as ->.
    { clear -Hn1. induction new1 as [|a n IHn]; [done|]. cbn [rev].
      rewrite omap_app. cbn in Hn1. destruct a; try discriminate; cbn; rewrite IHn; done. }
    done.
Qed.


Lemma schedule_fft_wp st :
  0 < FftBlockSize cfg ->
  let slot := cur_sche_frame_id st mod kFrameWnd cfg in
  let q := fft_queue_arr st slot in
  let B := N.to_nat (FftBlockSize cfg) in
  let n := (length q / B)%nat in
  wp (schedule_fft cfg)
     (fun _ st' =>
        fft_left slot (drop (n * B) q) st st' /\
        exists new, trace st' = new ++ trace st /\
          fft_tasks (rev new) =
            map (pair (N.land (cur_sche_frame_id st) 1)) (blocks n B q)) st.
Proof.
  intros HB slot q B n.
  assert (B <> 0)%nat as HB0 by (subst B; lia).
  assert (n * B <= length q)%nat as Hle.
  { subst n. rewrite Nat.mul_comm. by apply Nat.Div0.mul_div_le. }
  unfold schedule_fft. wexec.
  change (slot_of cfg (cur_sche_frame_id st)) with slot.
  change (fft_queue_arr st slot) with q.
  destruct (FftBlockSize cfg <=? N.of_nat (length q)) eqn:Hsz; cbn [when].
  - apply N.leb_le in Hsz.
    destruct (FftBlockSize cfg =? 0) eqn:Hz; [apply N.eqb_eq in Hz; lia|].
    wexec. unfold for_range.
    assert (length (N_range 0 (N.of_nat (length q) / FftBlockSize cfg)) = n) as Hn.
    { rewrite N_range_length, N.sub_0_r. subst n B.
      rewrite N2Nat.inj_div, Nat2N.id. done. }
    eapply wpg_mono; [apply (fft_blocks_loop slot _ B); rewrite Hn; exact Hle|].
    intros ? st'. rewrite Hn. done.
  - apply N.leb_gt in Hsz. apply wpg_ret.
    assert (n = 0%nat) as Hn0.
    { subst n. apply Nat.div_small. subst B. lia. }
    rewrite Hn0.
    cbn [blocks map Nat.mul]. rewrite drop_0. repeat split. by exists [].
Qed.

(** X7.  The FFT dispatch that follows the [switch].  With a block size
    [FftBlockSize] > 0 it always returns.  Of the backlog [q] of the slot of
    the schedule frame it takes the first [|q| / FftBlockSize] blocks of
    [FftBlockSize] tags, in arrival order, and enqueues one FFT event per
    block, all on the queue of the parity the schedule frame had on entry
    (also when the schedule frame advances inside the loop); fewer
    than [FftBlockSize] tags stay in the backlog, and the backlogs of the
    other slots are as before. *)
Theorem schedule_fft_fifo st :
  0 < FftBlockSize cfg ->
  let slot := cur_sche_frame_id st mod kFrameWnd cfg in
  let q := fft_queue_arr st slot in
  let B := N.to_nat (FftBlockSize cfg) in
  let n := (length q / B)%nat in
  exists st',
    schedule_fft cfg st = Ok tt st' /\
    fft_queue_arr st' slot = drop (n * B) q /\
    (length (fft_queue_arr st' slot) < B)%nat /\
    (forall x, x <> slot -> fft_queue_arr st' x = fft_queue_arr st x) /\
    exists new, trace st' = new ++ trace st /\
      fft_tasks (rev new) = map (pair (N.land (cur_sche_frame_id st) 1)) (blocks n B q).
Proof.
  intros HB slot q B n.
  assert (B <> 0)%nat as HB0 by (subst B; lia).
  assert (length q - n * B < B)%nat as Hlt.
  { subst n. pose proof (Nat.div_mod_eq (length q) B).
    pose proof (Nat.mod_upper_bound (length q) B HB0). lia. }
  pose proof (schedule_fft_wp st HB) as H.
  apply wp_ok in H as ([] & st' & Hrun & (Hl & Ho) & Hnew).
  exists st'. split; [done|]. split; [done|]. split; [|done].
  fold slot in Hl. fold q in Hl. fold B n in Hl. rewrite Hl, length_drop. exact Hlt.
Qed.

End FftDispatch.

Lemma schedule_fft_fifo_witness :
  exists st',
    schedule_fft fft_cfg five_in_backlog = Ok tt st' /\
    fft_queue_arr st' 0 = [mkTag 0 0 4] /\
    exists new, trace st' = new ++ trace five_in_backlog /\
      fft_tasks (rev new) =
        [(0, [mkTag 0 0 0; mkTag 0 0 1]); (0, [mkTag 0 0 2; mkTag 0 0 3])].
Proof.
  destruct (schedule_fft_fifo fft_cfg five_in_backlog)
    as (st' & Hrun & Hl & _ & _ & new & Htr & Hn); [reflexivity|].
  exists st'. split; [exact Hrun|]. split; [exact Hl|].
  exists new. split; [exact Htr|exact Hn].
Defined.

(** ** Frames retire in order *)

Section Retire.
Context (cfg : Config).

Ltac same_retired := let H := fresh in intros ? H; exact H.
Ltac retire_go := pres_go same_retired.

Lemma retire_CISF f c : pres retire_inv (CheckIncrementScheduleFrame cfg f c).
  Proof. retire_go. Qed.
Hint Resolve retire_CISF : pres.

Lemma retire_SDP f : pres retire_inv (ScheduleDownlinkProcessing cfg f).
  Proof. retire_go. Qed.
Hint Resolve retire_SDP : pres.

Lemma retire_drain fuel : pres retire_inv (drain_encode_deferral cfg fuel).
  Proof. induction fuel; cbn [drain_encode_deferral]; retire_go. Qed.
Hint Resolve retire_drain : pres.

Lemma retire_CheckFrameComplete f :
    f < SIZE_MAX -> pres retire_inv (CheckFrameComplete cfg f).
  Proof.
    intros Hf. unfold CheckFrameComplete.
    apply pres_bind; [retire_go|intros complete]. destruct complete; [|retire_go].
    unfold emit at 1. intros st Hinv.
    apply wpg_bind, wpg_modify. apply wpg_bind, wpg_gets. st_simpl.
    apply wpg_bind. unfold assert_.
    destruct (f =? cur_proc_frame_id st) eqn:Hcp; [|done].
    apply N.eqb_eq in Hcp. apply wpg_ret.
    pose (I' := fun st => retired (trace st) = f :: rev (N_range 0 f)
                          /\ f = cur_proc_frame_id st).
    assert (I' (set_trace (UpdateStats f :: trace st) st)) as HI.
    { split; [|done]. st_simpl. unfold retire_inv in Hinv.
      change (retired (UpdateStats f :: trace st)) with (f :: retired (trace st)).
      by rewrite Hinv, Hcp. }
    clear Hinv Hcp. revert HI.
    generalize (set_trace (UpdateStats f :: trace st) st). clear st. intros st HI.
    do 5 (eapply (wlp_bind_pres I'); [retire_go | done | clear st HI; intros _ st HI]).
    apply wpg_bind, wpg_modify.
    assert (retire_inv (set_cur_proc_frame_id (add_sz (cur_proc_frame_id st) 1) st)) as Hinv.
    { destruct HI as [Htr Hcp]. unfold retire_inv. st_simpl.
      rewrite add_sz_small by lia. rewrite <- Hcp, Htr.
      rewrite N_range_snoc by lia. by rewrite rev_app_distr. }
    revert Hinv. generalize (set_cur_proc_frame_id (add_sz (cur_proc_frame_id st) 1) st).
    change (pres retire_inv
      (let* q := gets encode_deferral in
       when (negb (if q is [] then true else false))
         (drain_encode_deferral cfg (N.to_nat (kScheduleQueues cfg))) ;;
       ret (f =? sub_sz (FramesToTest cfg) 1))).
    retire_go.
  Qed.
Hint Resolve retire_CheckFrameComplete : pres.

Lemma retire_for_tags (l : list Tag) (body : Tag -> M bool) :
    (forall t, In t l -> pres retire_inv (body t)) ->
    pres retire_inv (for_tags l body).
  Proof.
    induction l as [|t l IH]; intros Hb; cbn [for_tags]; [retire_go|].
    apply pres_bind; [apply Hb; by left|]. intros [|]; [retire_go|].
    apply IH. intros; apply Hb; by right.
  Qed.

Lemma retire_fill_fft_task fuel slot : pres retire_inv (fill_fft_task cfg fuel slot).
  Proof. induction fuel; cbn [fill_fft_task]; retire_go. Qed.
Hint Resolve retire_fill_fft_task : pres.

Lemma retire_schedule_fft : pres retire_inv (schedule_fft cfg).
  Proof. retire_go. Qed.

Lemma retire_schedule_tx_in_order fuel sym f :
    pres retire_inv (schedule_tx_in_order cfg fuel sym f).
  Proof. revert sym. induction fuel; intros sym; cbn [schedule_tx_in_order]; retire_go. Qed.
Hint Resolve retire_schedule_tx_in_order : pres.

Lemma retire_handle_switch ev :
    frames_in_range ev -> pres retire_inv (handle_switch cfg ev).
  Proof.
    intros Hr. unfold frames_in_range, event_frames in *.
    inversion_clear Hr as [|?? Hr0 Hr'].
    unfold handle_switch. destruct (event_type ev) eqn:Hty;
      try (retire_go; fail).
    unfold handle_IFFT. apply retire_for_tags. intros t Ht.
    assert (frame_id t < SIZE_MAX).
    { rewrite List.Forall_forall in Hr'. apply Hr'. by apply in_map. }
    retire_go.
  Qed.

Lemma retire_handle_events evs :
    Forall frames_in_range evs -> pres retire_inv (handle_events cfg evs).
  Proof.
    induction 1 as [|ev evs Hev _ IH]; cbn [handle_events]; [retire_go|].
    apply pres_bind; [|intros [|]; [retire_go|done]].
    unfold handle_event.
    apply pres_bind; [by apply retire_handle_switch|]. intros [|]; [retire_go|].
    apply pres_bind; [apply retire_schedule_fft | intros ?; retire_go].
  Qed.

Lemma retire_loop_iteration batch :
    Forall frames_in_range batch -> pres retire_inv (loop_iteration cfg batch).
  Proof.
    intros Hb. unfold loop_iteration.
    apply pres_bind; [retire_go|intros _]. by apply retire_handle_events.
  Qed.
End Retire.

(** X8.  Frames retire in order.  In every state of the event loop reachable
    without a failed assertion, with frame numbers below [SIZE_MAX] and
    whatever queues the events are dequeued from, the frames given to
    [UpdateStats] by [CheckFrameComplete] are, in the order of the calls,
    0, 1, ..., [cur_proc_frame_id_] - 1: every frame below the frame in
    process has been retired exactly once, and no frame is retired ahead of
    an earlier one. *)
Theorem frames_retire_in_order cfg st :
  reachable cfg any_queue st ->
  retired (rev (trace st)) = N_range 0 (cur_proc_frame_id st).
Proof.
  intros Hst.
  assert (retire_inv st) as Hinv.
  { induction Hst as [|st batch fin st' _ IH _ Hok Hrun|st st' _ IH Hfin].
    - reflexivity.
    - eapply pres_run; [by apply retire_loop_iteration|exact IH|exact Hrun].
    - injection Hfin as <-. exact IH. }
  unfold retire_inv in Hinv. unfold retired in *.
  rewrite <- (rev_involutive (N_range _ _)), <- Hinv.
  generalize (trace st). intros l. induction l as [|a l IH]; [done|].
  cbn [rev]. rewrite omap_app, IH.
  destruct a; cbn [omap option_bind mbind]; by rewrite ?app_nil_r.
Qed.

Lemma frames_retire_in_order_witness :
  retired (rev (trace (iterate (test_cfg false false 1 0 0 3) two_uplink_frames
                         (init_state (test_cfg false false 1 0 0 3))))) = [0; 1].
Proof.
  rewrite (frames_retire_in_order (test_cfg false false 1 0 0 3)).
  - reflexivity.
  - apply (reachable_mono _ queue_event).
    + intros io p ev (H & _). exact H.
    + apply reachable_run; [constructor|]. vm_compute. reflexivity.
Defined.

(** ** The deferral queue *)

Section Deferral.
Context (cfg : Config).

Ltac same_deferred := let H := fresh in intros ? H; exact H.
Ltac deferral_go := pres_go same_deferred.

Lemma deferral_SDP q f :
    pres (deferral_rel (fun st => q (encode_deferral st)))
         (ScheduleDownlinkProcessing cfg f).
  Proof. deferral_go. Qed.

Lemma deferral_drain fuel : pres deferral_inv (drain_encode_deferral cfg fuel).
  Proof.
    induction fuel as [|fuel IH]; cbn [drain_encode_deferral]; [deferral_go|].
    apply pres_bind_gets. intros st Hinv.
    destruct (encode_deferral st) as [|f rest] eqn:Hq; [done|].
    apply wpg_bind, wpg_gets. generalize (cur_proc_frame_id st). intros cp.
    destruct (f <? _); [|done].
    unfold emit. apply wpg_bind, wpg_modify.
    pose (I' := deferral_rel (fun st => tl (encode_deferral st))).
    assert (I' (set_trace (PrintSchedulingDeferred f cp :: trace st) st))
      as HI.
    { unfold I', deferral_rel. st_simpl. rewrite Hq. cbn [tl].
      change (deferrals (_ :: trace st)) with (deferrals (trace st)).
      change (deferred_scheduled (_ :: trace st))
        with (f :: deferred_scheduled (trace st)).
      unfold deferral_inv, deferral_rel in Hinv. rewrite Hq in Hinv.
      cbn [rev]. by rewrite <- app_assoc. }
    revert HI. generalize (set_trace (PrintSchedulingDeferred f cp
                                        :: trace st) st).
    clear st Hinv Hq. intros st HI.
    eapply (wlp_bind_pres I'); [unfold RtAssert; deferral_go | done |
                                clear st HI; intros _ st HI].
    eapply (wlp_bind_pres I'); [apply (deferral_SDP tl) | done |
                                clear st HI; intros _ st HI].
    apply wpg_bind, wpg_modify. by apply IH.
  Qed.
Hint Resolve deferral_drain : pres.

Lemma deferral_defer_or_schedule f : pres deferral_inv (defer_or_schedule cfg f).
  Proof.
    unfold defer_or_schedule.
    apply pres_bind; [deferral_go|intros q]. apply pres_bind; [deferral_go|intros cp].
    destruct (_ || _); [|apply (deferral_SDP (fun q => q))].
    intros st Hinv. unfold emit. apply wpg_bind, wpg_modify, wpg_modify.
    unfold deferral_inv, deferral_rel in *. st_simpl.
    change (deferrals (_ :: trace st)) with (f :: deferrals (trace st)).
    change (deferred_scheduled (_ :: trace st)) with (deferred_scheduled (trace st)).
    cbn [rev]. by rewrite Hinv, app_assoc.
  Qed.
Hint Resolve deferral_defer_or_schedule : pres.


Lemma deferral_fill_fft_task fuel slot : pres deferral_inv (fill_fft_task cfg fuel slot).
  Proof. induction fuel; cbn [fill_fft_task]; deferral_go. Qed.
Hint Resolve deferral_fill_fft_task : pres.

Lemma deferral_schedule_tx_in_order fuel sym f :
    pres deferral_inv (schedule_tx_in_order cfg fuel sym f).
  Proof. revert sym. induction fuel; intros sym; cbn [schedule_tx_in_order]; deferral_go. Qed.
Hint Resolve deferral_schedule_tx_in_order : pres.

End Deferral.



(** ** The packet counters *)

Section RxCounters.
Context (cfg : Config) (Hpkts : 0 < num_pkts_per_frame cfg).
Local Abbreviation I := (rx_inv cfg).

Ltac same_rx := let H := fresh in intros ? H; exact H.
Ltac rx_go := pres_go same_rx.

Lemma below_succ n P : n < P -> add_sz n 1 <> P -> add_sz n 1 < P.
  Proof.
    intros Hn Hne. unfold add_sz, wrap in *.
    pose proof (N.Div0.mod_le (n + 1) 18446744073709551616). lia.
  Qed.

Lemma upd_below (f : N -> N) k v P x :
    (forall y, f y < P) -> v < P -> upd f k v x < P.
  Proof. intros Hf Hv. unfold upd. by destruct (x =? k). Qed.

Lemma upd_upd_below (f : N -> N) k v P x :
    (forall y, f y < P) -> upd (upd f k v) k 0 x < P.
  Proof.
    intros Hf. unfold upd. destruct (x =? k); [|done].
    specialize (Hf 0). lia.
  Qed.

  (** A counter of a slot is incremented and, when it reaches [P], reset. *)
Lemma count_and_reset (g : N -> N) slot P x :
    (forall y, g y < P) ->
    (if add_sz (g slot) 1 =? P
     then upd (upd g slot (add_sz (g slot) 1)) slot 0 x
     else upd g slot (add_sz (g slot) 1) x) < P.
  Proof.
    intros Hg. destruct (_ =? P) eqn:E.
    - by apply upd_upd_below.
    - apply N.eqb_neq in E. apply upd_below; [done|]. by apply below_succ.
  Qed.

Lemma rx_UpdateRxCounters f s : pres I (UpdateRxCounters cfg f s).
  Proof.
    unfold UpdateRxCounters.
    apply pres_bind; [|intros _; apply pres_bind; [rx_go|intros first];
                       apply pres_bind; [rx_go|intros _]].
    - destruct (IsPilot cfg f s); [|destruct (_ || _); [|rx_go]].
      + intros st (H1 & H2 & H3 & H4). unfold upd_rx. wexec. rewrite upd_same.
        pose proof (fun Hp x => count_and_reset _ (slot_of cfg f) _ x (H3 Hp)) as Hc.
        destruct (_ =? num_pilot_pkts_per_frame cfg); wexec; (split; [done|split; [done|]]);
          (split; [|done]); st_simpl; exact Hc.
      + intros st (H1 & H2 & H3 & H4). unfold upd_rx. wexec. rewrite upd_same.
        pose proof (fun Hp x => count_and_reset _ (slot_of cfg f) _ x (H4 Hp)) as Hc.
        destruct (_ =? num_reciprocity_pkts_per_frame cfg); wexec;
          (split; [done|split; [done|]]); (split; [done|]); st_simpl; exact Hc.
    - intros st (H1 & H2 & H3 & H4). unfold upd_rx. wexec. rewrite upd_same.
      pose proof (fun x => count_and_reset _ (slot_of cfg f) _ x H1) as Hc.
      destruct (_ =? num_pkts_per_frame cfg); wexec; (split; [|done]); exact Hc.
  Qed.
Hint Resolve rx_UpdateRxCounters : pres.

Lemma rx_CISF f c : pres I (CheckIncrementScheduleFrame cfg f c).
  Proof. rx_go. Qed.
Hint Resolve rx_CISF : pres.

Lemma rx_fill_fft_task fuel slot : pres I (fill_fft_task cfg fuel slot).
  Proof.
    induction fuel as [|fuel IH]; cbn [fill_fft_task]; [rx_go|].
    apply pres_bind; [rx_go|intros t]. apply pres_bind; [rx_go|intros created].
    apply pres_bind; [rx_go|intros cs]. apply pres_bind; [rx_go|intros _].
    assert (pres I (let* ts := fill_fft_task cfg fuel slot in ret (t :: ts))) as Hrest
      by rx_go.
    intros st (H1 & H2 & H3 & H4).
    apply wpg_bind, wpg_modify. apply wpg_bind, wpg_gets. st_simpl.
    apply wpg_bind. unfold when.
    destruct (_ =? num_pkts_per_frame cfg) eqn:E.
    - apply wpg_bind, wpg_modify. st_simpl.
      eapply wpg_mono; [|intros ? st' HI; apply Hrest, HI].
      assert (pres I (if BigstationMode cfg
                      then let* cs0 := gets cur_sche_frame_id in
                           CheckIncrementScheduleFrame cfg cs0 kUplinkComplete
                      else ret tt)) as Hp by rx_go.
      apply Hp. by repeat split.
    - apply wpg_ret. apply Hrest. split; [done|]. split; [|done]. st_simpl.
      apply N.eqb_neq in E. by apply below_succ.
  Qed.
Hint Resolve rx_fill_fft_task : pres.

Lemma rx_for_tags (l : list Tag) (body : Tag -> M bool) :
    (forall t, pres I (body t)) -> pres I (for_tags l body).
  Proof.
    intros Hb. induction l as [|t l IH]; cbn [for_tags]; [rx_go|].
    apply pres_bind; [apply Hb|]. intros [|]; [rx_go|done].
  Qed.

Lemma rx_drain fuel : pres I (drain_encode_deferral cfg fuel).
  Proof. induction fuel; cbn [drain_encode_deferral]; rx_go. Qed.
Hint Resolve rx_drain : pres.

Lemma rx_schedule_tx_in_order fuel sym f :
    pres I (schedule_tx_in_order cfg fuel sym f).
  Proof. revert sym. induction fuel; intros sym; cbn [schedule_tx_in_order]; rx_go. Qed.
Hint Resolve rx_schedule_tx_in_order : pres.

Lemma rx_handle_events evs : pres I (handle_events cfg evs).
  Proof.
    induction evs as [|ev evs IH]; cbn [handle_events]; [rx_go|].
    apply pres_bind; [|intros [|]; [rx_go|done]].
    unfold handle_event.
    apply pres_bind; [|intros [|]; rx_go].
    unfold handle_switch. destruct (event_type ev);
      try (rx_go; fail).
    unfold handle_IFFT. apply rx_for_tags. intros t. rx_go.
  Qed.
End RxCounters.

(** X10.  The packet counters of the master stay below their per-frame
    counts.  In every state the event loop reaches, whatever events are
    dequeued, the received-packet counter of every frame slot and the count
    of FFT tasks created are below [num_pkts_per_frame] (when it is not
    zero): they are reset the moment they reach it.  The same holds for the
    pilot and the reciprocity packet counters against their per-frame
    counts. *)
Theorem rx_counters_below cfg contract st :
  0 < num_pkts_per_frame cfg ->
  reachable cfg contract st ->
  (forall slot, num_pkts (rx_counters st) slot < num_pkts_per_frame cfg) /\
  fft_created_count st < num_pkts_per_frame cfg /\
  (0 < num_pilot_pkts_per_frame cfg ->
   forall slot, num_pilot_pkts (rx_counters st) slot < num_pilot_pkts_per_frame cfg) /\
  (0 < num_reciprocity_pkts_per_frame cfg ->
   forall slot, num_reciprocity_pkts (rx_counters st) slot
                < num_reciprocity_pkts_per_frame cfg).
Proof.
  intros Hp Hst. change (rx_inv cfg st).
  induction Hst as [|st batch fin st' _ IH _ Hok Hrun|st st' _ IH Hfin].
  - by repeat split.
  - eapply pres_run; [|exact IH|exact Hrun].
    unfold loop_iteration. apply pres_bind; [|intros ?; by apply rx_handle_events].
    apply pres_modify. intros ? H. exact H.
  - injection Hfin as <-. exact IH.
Qed.


Lemma rx_counters_below_witness :
  num_pkts (rx_counters first_packet_received) 0 = 1 /\
  num_pkts_per_frame (test_cfg false false 1 0 0 3) = 2 /\
  (forall slot, num_pkts (rx_counters first_packet_received) slot < 2) /\
  fft_created_count first_packet_received < 2.
Proof.
  destruct (rx_counters_below (test_cfg false false 1 0 0 3) queue_event
              first_packet_received) as (H1 & H2 & _).
  - reflexivity.
  - apply reachable_run; [constructor|]. vm_compute. reflexivity.
  - split; [reflexivity|]. split; [reflexivity|]. split; [exact H1|exact H2].
Defined.

(** ** The worker loop *)

Section WorkerLoop.
Context (cfg : Config).

Lemma Worker_iteration_inv i w :
  cur_qid w <= 1 -> empty_queue_itrs w < 5 ->
  let r := Worker_iteration cfg i w in
  cur_qid (snd r) <= 1 /\
  empty_queue_itrs (snd r) =
    (empty_queue_itrs w + N.of_nat (empties [fst r])) mod 5 /\
  (forall p, fst r = Some p ->
     snd r = w /\ In p (polls_of cfg (cur_qid w)) /\ launches i p = true) /\
  (cur_qid (snd r) <> cur_qid w -> fst r = None /\ empty_queue_itrs w = 4).
Proof.
  intros Hq Hi. cbv zeta. unfold Worker_iteration.
  destruct (find _ _) as [p|] eqn:Hf; cbn [fst snd empties List.filter length].
  - apply find_some in Hf as [Hin Hl].
    rewrite N.add_0_r, N.mod_small by done.
    split; [done|]. split; [done|]. split; [|done].
    by intros ? [= <-].
  - rewrite add_sz_small by (unfold SIZE_MAX; lia).
    destruct (_ =? 5) eqn:E; cbn [fst snd cur_qid empty_queue_itrs].
    + apply N.eqb_eq in E. change (N.of_nat (length [None (A:=Poll)])) with 1. rewrite E.
      split; [|split; [done|split; [done|]]].
      * destruct (negb _).
        -- revert Hq. generalize (cur_qid w). intros q Hq.
           assert (q = 0 \/ q = 1) as [->| ->] by lia; vm_compute; discriminate.
        -- change (N.land (seen_sche i) 1) with (parity (seen_sche i)).
           rewrite parity_mod2.
           pose proof (N.mod_upper_bound (seen_sche i) 2). lia.
      * intros _. split; [done|lia].
    + apply N.eqb_neq in E. split; [done|]. split; [|split; [done|done]].
      change (N.of_nat (length [None (A:=Poll)])) with 1. rewrite N.mod_small; lia.
Qed.

Lemma Worker_run_inv ins : forall w,
  cur_qid w <= 1 -> empty_queue_itrs w < 5 ->
  let r := Worker_run cfg ins w in
  cur_qid (snd r) <= 1 /\
  empty_queue_itrs (snd r) = (empty_queue_itrs w + N.of_nat (empties (fst r))) mod 5 /\
  Forall (fun o => forall p, o = Some p ->
            exists q, q <= 1 /\ In p (polls_of cfg q)) (fst r).
Proof.
  induction ins as [|i ins IH]; intros w Hq Hi; cbn [Worker_run].
  { cbn. rewrite N.add_0_r, N.mod_small by done. done. }
  pose proof (Worker_iteration_inv i w Hq Hi) as (H1 & H2 & H3 & _).
  destruct (Worker_iteration cfg i w) as [o w'] eqn:Hit. cbn [fst snd] in *.
  assert (empty_queue_itrs w' < 5) as Hi'.
  { rewrite H2. by apply N.mod_upper_bound. }
  specialize (IH w' H1 Hi') as (IH1 & IH2 & IH3).
  destruct (Worker_run cfg ins w') as [os w''] eqn:Hrun. cbn [fst snd] in *.
  split; [done|]. split.
  - rewrite IH2, H2.
    rewrite N.Div0.add_mod_idemp_l. f_equal.
    unfold empties. cbn [List.filter]. destruct o; cbn [length]; lia.
  - constructor; [|done]. intros p Hp. exists (cur_qid w). split; [done|].
    by apply H3.
Qed.

End WorkerLoop.

(** X11.  The loop of [Agora::Worker], for any answers of [TryLaunch] and any
    values read from the frame counters of the master.  The queue set
    [cur_qid] is always 0 or 1.  [empty_queue_itrs] is the number of
    iterations so far that launched nothing, modulo 5: a launch does not
    reset it, so the worker chooses its queue set anew at every fifth empty
    iteration, whether or not work was found in between.  Every task
    launched comes from a queue of the current set, and its completion goes
    to the completion queue of the same set. *)
Theorem Worker_counts_empty_iterations cfg ins :
  let r := Worker_run cfg ins init_worker in
  cur_qid (snd r) <= 1 /\
  empty_queue_itrs (snd r) = N.of_nat (empties (fst r)) mod 5 /\
  Forall (fun o => forall p, o = Some p ->
            exists q ev, q <= 1 /\ poll_queue p = Conq ev q /\ poll_complete p = q)
         (fst r).
Proof.
  destruct (Worker_run_inv cfg ins init_worker) as (H1 & H2 & H3);
    [cbn; lia..|].
  cbv zeta. split; [done|]. split; [exact H2|].
  eapply List.Forall_impl; [|exact H3]. intros o Ho p Hp.
  destruct (Ho p Hp) as (q & Hq & Hin). exists q.
  unfold polls_of in Hin. apply in_map_iff in Hin as ([d ev] & <- & _).
  by exists ev.
Qed.

(** Four empty iterations, a launch, and one more empty iteration: the worker
    leaves queue set 0 although the five empty iterations were not in a
    row. *)
Example Worker_switch_after_launch :
  Worker_run (test_cfg false false 1 0 0 3)
    [idle_input; idle_input; idle_input; idle_input; busy_input; idle_input]
    init_worker
  = ([None; None; None; None; Some (mkPoll DoZF (Conq kZF 0) 0); None], mkWorker 1 0).
Proof. reflexivity. Qed.

(** ** The workers of bigstation mode *)

Lemma loop_inv {S} (P : S -> Prop) n (body : N -> S -> S) s0 :
  P s0 -> (forall i s, P s -> P (body i s)) -> P (loop n body s0).
Proof.
  intros H0 Hb. unfold loop. revert s0 H0.
  induction (N_range 0 n) as [|i l IH]; intros s0 H0; [done|].
  cbn [fold_left]. by apply IH, Hb.
Qed.

Lemma worker_call_queues cfg c e :
  is_worker_call c = true ->
  In e (enqueued_by_call cfg c) ->
  exists ev, enq_queue e = Conq ev (N.land (call_frame c) 1).
Proof.
  intros Hc He.
  assert (Forall (fun e => exists ev, enq_queue e = Conq ev (N.land (call_frame c) 1))
                 (enqueued_by_call cfg c)) as Hall.
  2: { rewrite List.Forall_forall in Hall. by apply Hall. }
  clear e He.
  pose (P := fun out : list Enqueued =>
               Forall (fun e => exists ev0, enq_queue e = Conq ev0 (N.land (call_frame c) 1))
                      out).
  assert (forall ev q, P [Enq (Conq ev (N.land (call_frame c) 1)) q]) as Hone.
  { intros ev q. constructor; [|constructor]. by exists ev. }
  change (P (enqueued_by_call cfg c)).
  destruct c as [ev f s|ev f s|ev f s| | |]; try discriminate;
    cbn [enqueued_by_call call_frame] in *.
  - assert (P (map (fun i => Enq (Conq ev (N.land f 1))
                       [mkEvent ev [mkTag f s (DemulBlockSize cfg * i)]])
                   (N_range 0 (DemulEventsPerSymbol cfg)))) as Hmap.
    { apply List.Forall_forall. intros e He. apply in_map_iff in He as (i & <- & _).
      by exists ev. }
    destruct ev; try exact Hmap.
    rewrite ScheduleSubcarriers_ZF_loop.
    apply (loop_inv (fun s => P (snd s))); [constructor|].
    intros i [nt o] Ho. cbn [snd zf_loop_body] in *.
    apply Forall_app; split; [done|]. apply Hone.
  - rewrite ScheduleCodeblocks_loop.
    apply (loop_inv (fun s => P (snd s))); [constructor|].
    intros i [[nt id] o] Ho. cbn [snd counted_loop_body] in *.
    apply Forall_app; split; [done|]. apply Hone.
  - rewrite ScheduleAntennas_loop.
    apply (loop_inv (fun s => P (snd s))); [constructor|].
    intros i [[nt id] o] Ho. cbn [snd counted_loop_body] in *.
    apply Forall_app; split; [done|]. apply Hone.
Qed.

Lemma bigstation_polls_set_zero cfg k launch p :
  In p (bigstation_polls cfg k launch) ->
  exists ev, poll_queue p = Conq ev 0 /\ poll_complete p = 0.
Proof.
  destruct k; cbn [bigstation_polls];
    unfold WorkerFft_polls, WorkerZf_polls, WorkerDemul_polls, WorkerDecode_polls;
    repeat match goal with |- context [if ?b then _ else _] => destruct b end;
    cbn [In]; intros H; repeat destruct H as [<-|H]; try done; eauto.
Qed.

(** X12.  In bigstation mode no worker serves an odd frame.  The master puts
    the events of [ScheduleSubcarriers], [ScheduleCodeblocks] and
    [ScheduleAntennas] for frame F on the queue [GetConq(type, F & 1)], while
    [WorkerFft], [WorkerZf], [WorkerDemul] and [WorkerDecode] call
    [TryLaunch] only with [GetConq(type, 0)] and answer only on
    [complete_task_queue_[0]]: for an odd frame the queue of every event
    differs from the queue of every poll. *)
Theorem bigstation_workers_skip_odd_frames cfg c e k launch p :
  is_worker_call c = true ->
  N.land (call_frame c) 1 = 1 ->
  In e (enqueued_by_call cfg c) ->
  In p (bigstation_polls cfg k launch) ->
  (exists ev, enq_queue e = Conq ev 1) /\
  (exists ev, poll_queue p = Conq ev 0) /\
  poll_complete p = 0 /\
  poll_queue p <> enq_queue e.
Proof.
  intros Hc Hodd He Hp.
  destruct (worker_call_queues cfg c e Hc He) as (ev & Hq). rewrite Hodd in Hq.
  destruct (bigstation_polls_set_zero cfg k launch p Hp) as (ev' & Hq' & Hout).
  split; [by exists ev|]. split; [by exists ev'|]. split; [done|].
  rewrite Hq, Hq'. intros [= _].
Qed.

Lemma bigstation_workers_skip_odd_frames_witness :
  (exists ev, Conq kDemul 1 = Conq ev 1) /\
  (exists ev, Conq kPrecode 0 = Conq ev 0) /\
  0 = 0 /\
  Conq kPrecode 0 <> Conq kDemul 1.
Proof.
  apply (bigstation_workers_skip_odd_frames (test_cfg true false 1 0 0 3)
           (CallSubcarriers kDemul 1 1)
           (Enq (Conq kDemul 1) [mkEvent kDemul [mkTag 1 1 0]])
           kWorkerDemul (fun _ => true)
           (mkPoll DoDemul (Conq kPrecode 0) 0)).
  - reflexivity.
  - reflexivity.
  - left. reflexivity.
  - left. reflexivity.
Defined.

(** X13.  Which queue each computation is given.  In [Agora::Worker] every
    computer polls the queue of its own event type, in the order ZF, FFT,
    Decode, Demul (with uplink symbols), IFFT, Precode, Encode (with downlink
    symbols).  Of the workers of bigstation mode, [WorkerFft], [WorkerZf] and
    [WorkerDecode] do the same; [WorkerDemul], whose loop is reached only
    when [assert(false)] is compiled out, gives [DoPrecode] the Demul queue
    or [DoDemul] the Precode queue and never a queue of the computation's own
    type. *)
Theorem workers_queue_of_own_type cfg :
  (forall q p, In p (polls_of cfg q) -> own_queue p) /\
  (forall k launch p, In p (bigstation_polls cfg k launch) ->
     if decide (k = kWorkerDemul) then ~ own_queue p else own_queue p) /\
  map poll_doer (polls_of cfg 0)
    = [DoZF; DoFFT]
      ++ (if 0 <? NumULSyms cfg then [DoDecode; DoDemul] else [])
      ++ (if 0 <? NumDLSyms cfg then [DoIFFT; DoPrecode; DoEncode] else []).
Proof.
  split; [|split].
  - intros q p. unfold polls_of, computers.
    repeat match goal with |- context [if ?b then _ else _] => destruct b end;
      cbn [app map In fst snd]; intros H; repeat destruct H as [<-|H]; try done;
      by exists q.
  - intros k launch p. destruct k; cbn [bigstation_polls];
      unfold WorkerFft_polls, WorkerZf_polls, WorkerDemul_polls, WorkerDecode_polls;
      repeat match goal with |- context [if ?b then _ else _] => destruct b end;
      cbn [In]; intros H; repeat destruct H as [<-|H]; try done;
      try (by exists 0); intros (q & Hq); discriminate Hq.
  - unfold polls_of, computers.
    repeat match goal with |- context [if ?b then _ else _] => destruct b end; done.
Qed.

(** ** The threads *)

Lemma N_range_empty lo hi : hi <= lo -> N_range lo hi = [].
Proof. intros H. unfold N_range. by replace (N.to_nat (hi - lo)) with 0%nat by lia. Qed.

Lemma N_range_join lo mid hi :
  lo <= mid -> mid <= hi -> N_range lo mid ++ N_range mid hi = N_range lo hi.
Proof.
  intros H1 H2. unfold N_range.
  replace (N.to_nat (hi - lo)) with (N.to_nat (mid - lo) + N.to_nat (hi - mid))%nat by lia.
  rewrite seq_app, map_app. f_equal. cbn [plus].
  rewrite (seq_from (N.to_nat (mid - lo))), map_map. apply map_ext. intros k. lia.
Qed.

Lemma map_snd_pair {A B} (a : A) (l : list B) : map snd (map (pair a) l) = l.
Proof. rewrite map_map. apply map_id. Qed.

Lemma map_fst_pair {A B} (a : A) (l : list B) :
  map fst (map (pair a) l) = repeat a (length l).
Proof. induction l as [|x l IH]; [done|]. cbn. by rewrite <- IH. Qed.

(** X14.  [CreateThreads] in bigstation mode, when the sum of the FFT, ZF and
    Demul thread counts does not overflow: the threads get the ids 0, 1, 2,
    ... in order, first the FFT workers, then the ZF, the Demul and the
    Decode workers; the Decode workers are the [WorkerThreadNum] minus the
    others, none when the others already reach [WorkerThreadNum], in which
    case more than [WorkerThreadNum] threads are created. *)
Theorem CreateThreads_bigstation cfg t :
  BigstationMode cfg = true ->
  FftThreadNum t + ZfThreadNum t + DemulThreadNum t <= SIZE_MAX ->
  let others := FftThreadNum t + ZfThreadNum t + DemulThreadNum t in
  map snd (CreateThreads cfg t) = N_range 0 (N.max others (WorkerThreadNum t)) /\
  map fst (CreateThreads cfg t)
    = repeat kWorkerFFT (N.to_nat (FftThreadNum t))
      ++ repeat kWorkerZF (N.to_nat (ZfThreadNum t))
      ++ repeat kWorkerDemul (N.to_nat (DemulThreadNum t))
      ++ repeat kWorkerDecode (N.to_nat (WorkerThreadNum t - others)).
Proof.
  intros Hbig Hsum others. unfold CreateThreads. rewrite Hbig.
  rewrite (add_sz_small (FftThreadNum t)) by lia.
  rewrite add_sz_small by lia. fold others.
  rewrite !map_app, !map_snd_pair, !map_fst_pair, !N_range_length.
  split.
  - rewrite !app_assoc, !N_range_join by lia.
    destruct (N.le_gt_cases others (WorkerThreadNum t)) as [Hle|Hgt].
    + rewrite N.max_r by done. by apply N_range_join; lia.
    + rewrite N.max_l by lia. rewrite (N_range_empty others) by lia.
      by rewrite app_nil_r.
  - repeat f_equal; lia.
Qed.

Lemma CreateThreads_bigstation_witness :
  CreateThreads (test_cfg true false 1 0 0 3) (mkThreads 2 1 2 4)
    = [(kWorkerFFT, 0); (kWorkerFFT, 1); (kWorkerZF, 2);
       (kWorkerDemul, 3); (kWorkerDemul, 4)] /\
  map snd (CreateThreads (test_cfg true false 1 0 0 3) (mkThreads 2 1 2 4))
    = N_range 0 5.
Proof.
  split; [reflexivity|].
  apply (CreateThreads_bigstation (test_cfg true false 1 0 0 3) (mkThreads 2 1 2 4)).
  - reflexivity.
  - vm_compute. discriminate.
Defined.

(** ** The queue of FFT work *)

Lemma parity_mod_even W f : N.even W = true -> parity (f mod W) = parity f.
Proof.
  intros He. apply N.even_spec in He as [k ->]. rewrite !parity_mod2.
  destruct (N.eq_dec k 0) as [->|Hk].
  { cbn [N.mul]. by rewrite N.mod_0_r. }
  rewrite N.Div0.mod_mul_r. rewrite (N.mul_comm 2 (_ mod k)).
  rewrite N.Div0.mod_add. apply N.Div0.mod_mod.
Qed.

Lemma Forall_blocks {A} (P : A -> Prop) n B (l : list A) :
  Forall P l -> Forall (Forall P) (blocks n B l).
Proof.
  revert l. induction n as [|n IH]; intros l Hl; cbn [blocks]; [constructor|].
  constructor; [by apply Forall_take|]. by apply IH, Forall_drop.
Qed.

Lemma fft_tasks_app l1 l2 : fft_tasks (l1 ++ l2) = fft_tasks l1 ++ fft_tasks l2.
Proof. apply omap_app. Qed.

Lemma fft_tasks_rev l : fft_tasks (rev l) = rev (fft_tasks l).
Proof.
  induction l as [|a l IH]; [done|]. cbn [rev]. rewrite fft_tasks_app, IH.
  destruct a; cbn; by rewrite ?app_nil_r.
Qed.

Lemma wlp_of_wp {A} (m : M A) Q st : wp m Q st -> wlp m Q st.
Proof. unfold wpg. by destruct (m st). Qed.

Section FftQueue.
Context (cfg : Config).
Local Abbreviation J := (fft_inv cfg).

Ltac same_fft := let H := fresh in intros ? H; exact H.
Ltac fft_go := pres_go same_fft.

Lemma fftq_schedule_fft : pres J (schedule_fft cfg).
  Proof.
    intros st [Hb Ht].
    destruct (N.eq_dec (FftBlockSize cfg) 0) as [Hz|Hz].
    { unfold schedule_fft. wexec. rewrite Hz.
      destruct (0 <=? _); cbn [when]; [|done]. by apply wpg_bind, wpg_throw. }
    apply wlp_of_wp. eapply wpg_mono; [apply schedule_fft_wp; lia|].
    intros ? st' ((Hl & Ho) & new & Htr & Hnew). split.
    - intros slot.
      destruct (N.eq_dec slot (cur_sche_frame_id st mod kFrameWnd cfg)) as [->|Hne].
      + rewrite Hl. apply Forall_drop, Hb.
      + rewrite Ho by done. apply Hb.
    - rewrite Htr, fft_tasks_app. apply Forall_app. split; [|done].
      rewrite <- (rev_involutive new), fft_tasks_rev, Hnew.
      apply Forall_rev, Forall_map.
      eapply List.Forall_impl; [|apply Forall_blocks, Hb].
      intros ts Hts. exists (cur_sche_frame_id st). split; [done|]. exact Hts.
  Qed.

Lemma fftq_push f t :
    slot_of cfg (frame_id t) = f -> pres J (push_fft f t).
  Proof.
    intros Hf st [Hb Ht]. unfold push_fft. apply wpg_modify. split; [|done].
    intros slot. st_simpl. unfold upd. destruct (slot =? f) eqn:E; [|apply Hb].
    apply N.eqb_eq in E as ->. apply Forall_app. split; [apply Hb|].
    by constructor.
  Qed.

Lemma fftq_CISF f c : pres J (CheckIncrementScheduleFrame cfg f c).
  Proof. fft_go. Qed.
Hint Resolve fftq_CISF : pres.

Lemma fftq_for_tags (l : list Tag) (body : Tag -> M bool) :
    (forall t, pres J (body t)) -> pres J (for_tags l body).
  Proof.
    intros Hb. induction l as [|t l IH]; cbn [for_tags]; [fft_go|].
    apply pres_bind; [apply Hb|]. intros [|]; [fft_go|done].
  Qed.

Lemma fftq_drain fuel : pres J (drain_encode_deferral cfg fuel).
  Proof. induction fuel; cbn [drain_encode_deferral]; fft_go. Qed.
Hint Resolve fftq_drain : pres.

Lemma fftq_schedule_tx_in_order fuel sym f :
    pres J (schedule_tx_in_order cfg fuel sym f).
  Proof. revert sym. induction fuel; intros sym; cbn [schedule_tx_in_order]; fft_go. Qed.
Hint Resolve fftq_schedule_tx_in_order : pres.

Lemma fftq_handle_events evs : pres J (handle_events cfg evs).
  Proof.
    induction evs as [|ev evs IH]; cbn [handle_events]; [fft_go|].
    apply pres_bind; [|intros [|]; [fft_go|done]].
    unfold handle_event.
    apply pres_bind; [|intros [|]; [fft_go|]].
    - unfold handle_switch. destruct (event_type ev);
        try (fft_go; fail).
      + unfold handle_PacketRX. apply pres_bind; [fft_go|intros cs].
        destruct (_ <=? _); [fft_go|].
        apply pres_bind; [fft_go|intros _].
        apply pres_bind; [by apply fftq_push|intros _]. fft_go.
      + unfold handle_IFFT. apply fftq_for_tags. intros t. fft_go.
    - apply pres_bind; [apply fftq_schedule_fft|intros ?; fft_go].
  Qed.
End FftQueue.

(** X15.  FFT work goes to the queue of its frame.  In every state the event
    loop reaches, whatever events are dequeued: every packet waiting in the
    FFT backlog of a slot is of a frame congruent to the slot modulo
    [kFrameWnd]; and when [kFrameWnd] is even, every FFT event the master
    has enqueued was put on the queue of the parity of the frame of each of
    its tags, although the dispatch chooses the queue by the parity of
    [cur_sche_frame_id_] and not by the frames of the packets. *)
Theorem fft_on_queue_of_its_frame cfg contract st :
  N.even (kFrameWnd cfg) = true ->
  reachable cfg contract st ->
  (forall slot t, In t (fft_queue_arr st slot) ->
     frame_id t mod kFrameWnd cfg = slot) /\
  (forall qid ts t, In (qid, ts) (fft_tasks (trace st)) -> In t ts ->
     N.land (frame_id t) 1 = qid).
Proof.
  intros He Hst.
  assert (fft_inv cfg st) as [Hb Ht].
  { induction Hst as [|st batch fin st' _ IH _ Hok Hrun|st st' _ IH Hfin].
    - split; [intros slot|]; constructor.
    - eapply pres_run; [|exact IH|exact Hrun].
      unfold loop_iteration. apply pres_bind; [|intros ?; apply fftq_handle_events].
      apply pres_modify. intros ? H. exact H.
    - injection Hfin as <-. exact IH. }
  split.
  - intros slot t Hin. specialize (Hb slot). rewrite List.Forall_forall in Hb.
    by apply Hb.
  - intros qid ts t Hin Ht'. rewrite List.Forall_forall in Ht.
    destruct (Ht _ Hin) as (cs & Hq & Hts). cbn [fst snd] in *.
    rewrite List.Forall_forall in Hts. specialize (Hts t Ht').
    unfold slot_of in Hts. rewrite Hq.
    change (parity (frame_id t) = parity cs).
    by rewrite <- (parity_mod_even _ (frame_id t) He), Hts, parity_mod_even.
Qed.

Lemma fft_on_queue_of_its_frame_witness :
  fft_tasks (rev (trace three_frames_dispatched))
    = [(0, [mkTag 0 0 0]); (0, [mkTag 0 1 0]); (1, [mkTag 1 0 0]);
       (1, [mkTag 1 1 0]); (0, [mkTag 2 0 0]); (0, [mkTag 2 1 0])] /\
  (forall qid ts t, In (qid, ts) (fft_tasks (trace three_frames_dispatched)) ->
     In t ts -> N.land (frame_id t) 1 = qid).
Proof.
  split; [reflexivity|].
  apply (fft_on_queue_of_its_frame (test_cfg true false 1 0 0 3) queue_event).
  - reflexivity.
  - apply reachable_run; [constructor|]. vm_compute. reflexivity.
Defined.

(** ** Pilots and reciprocity calibration *)

Lemma add_sz_succ_ne m : add_sz m 1 <> m.
Proof.
  unfold add_sz, wrap. intros H.
  pose proof (N.mod_upper_bound (m + 1) 18446744073709551616).
  pose proof (N.Div0.div_mod (m + 1) 18446744073709551616).
  assert (m < 18446744073709551616) by lia.
  destruct (N.eq_dec (m + 1) 18446744073709551616) as [E|E].
  - rewrite E in H. vm_compute in H. lia.
  - rewrite N.mod_small in H by lia. lia.
Qed.

Lemma upd2_same {A} (f : N -> N -> A) a b v : upd2 f a b v a b = v.
Proof. unfold upd2. by rewrite !N.eqb_refl. Qed.

Section Calibration.
Context (cfg : Config) (tp tc : Tag) (st : State).
Local Abbreviation F := (frame_id tp).
Context (Hrc : IsRecCalEnabled cfg = true)
        (Hpilot : GetSymbolType cfg (symbol_id tp) = kPilot)
        (Hcal : GetSymbolType cfg (symbol_id tc) = kCalDL \/
                GetSymbolType cfg (symbol_id tc) = kCalUL)
        (Hframe : frame_id tc = F)
        (Hlast : is_last_task cfg st pilot_fft_counters F (symbol_id tp) = true)
        (Hsym : is_last_symbol cfg st pilot_fft_counters F = true)
        (Hrclast : is_last_symbol cfg st rc_counters F = true)
        (Hnot : rc_last_frame st <> F).

Lemma pilots_then_calibration :
  wp (HandleEventFft cfg tp ;; HandleEventFft cfg tc)
     (fun _ st' => rc_last_frame st' = F /\ dispatched st st' [] /\
                   is_last_task cfg st' pilot_fft_counters F (symbol_id tp) = false) st.
Proof.
  unfold is_last_task, is_last_symbol in *. st_simpl_in Hlast. st_simpl_in Hsym.
  st_simpl_in Hrclast.
  apply N.eqb_neq in Hnot.
  apply wpg_bind.
  destruct Hcal as [Hc|Hc];
    wexec_with ltac:(rewrite ?Hpilot, ?Hc, ?Hframe, ?Hlast, ?Hrc, ?Hnot, ?Hrclast;
                     cbn [negb orb andb when]).
  all: split; [reflexivity|]; split; [unfold dispatched; st_simpl; by exists_new|].
  all: unfold is_last_task; st_simpl; rewrite upd2_same.
  all: apply N.eqb_eq in Hlast; rewrite Hlast; apply N.eqb_neq, add_sz_succ_ne.
Qed.

Lemma calibration_then_pilots :
  wp (HandleEventFft cfg tc ;; HandleEventFft cfg tp)
     (fun _ st' => rc_last_frame st' = F /\
                   dispatched st st' (zf_and_report cfg F (symbol_id tp))) st.
Proof.
  unfold is_last_task, is_last_symbol in *. st_simpl_in Hlast. st_simpl_in Hsym.
  st_simpl_in Hrclast.
  apply wpg_bind. unfold zf_and_report.
  destruct Hcal as [Hc|Hc];
    wrun_with ltac:(rewrite ?Hpilot, ?Hc, ?Hframe, ?Hlast, ?Hsym, ?Hrc, ?Hrclast,
                            ?N.eqb_refl;
                    cbn [negb orb andb when]).
  all: split; [reflexivity|]; unfold dispatched; st_simpl; by exists_new.
Qed.
End Calibration.

(** X16.  With reciprocity calibration enabled, whether ZF of a frame is
    scheduled depends on the order of two completions.  Take the FFT
    completion that ends the pilots of frame F (last task of the last pilot
    symbol) and the FFT completion that ends the calibration of F (last
    calibration task), with [rc_last_frame_] not yet F.  Calibration first,
    then pilots: ZF of F is scheduled (after the SNR report when the MAC is
    enabled).  Pilots first, then calibration: nothing is scheduled by either
    handler, although [rc_last_frame_] is F at the end; the pilot completion
    was not counted as a symbol, and a further completion of the same pilot
    symbol is not a last task. *)
Theorem zf_depends_on_completion_order cfg tp tc st :
  IsRecCalEnabled cfg = true ->
  GetSymbolType cfg (symbol_id tp) = kPilot ->
  GetSymbolType cfg (symbol_id tc) = kCalDL \/
  GetSymbolType cfg (symbol_id tc) = kCalUL ->
  frame_id tc = frame_id tp ->
  is_last_task cfg st pilot_fft_counters (frame_id tp) (symbol_id tp) = true ->
  is_last_symbol cfg st pilot_fft_counters (frame_id tp) = true ->
  is_last_symbol cfg st rc_counters (frame_id tp) = true ->
  rc_last_frame st <> frame_id tp ->
  (exists st',
     (HandleEventFft cfg tp ;; HandleEventFft cfg tc) st = Ok tt st' /\
     rc_last_frame st' = frame_id tp /\
     dispatched st st' [] /\
     is_last_task cfg st' pilot_fft_counters (frame_id tp) (symbol_id tp) = false) /\
  (exists st',
     (HandleEventFft cfg tc ;; HandleEventFft cfg tp) st = Ok tt st' /\
     rc_last_frame st' = frame_id tp /\
     dispatched st st' (zf_and_report cfg (frame_id tp) (symbol_id tp))).
Proof.
  intros Hrc Hp Hc Hf Hl Hs Hr Hn. split.
  - pose proof (pilots_then_calibration cfg tp tc st Hrc Hp Hc Hf Hl Hs Hr Hn) as H.
    apply wp_ok in H as ([] & st' & Hrun & H). by exists st'.
  - pose proof (calibration_then_pilots cfg tp tc st Hrc Hp Hc Hf Hl Hs Hr) as H.
    apply wp_ok in H as ([] & st' & Hrun & H). by exists st'.
Qed.

Lemma zf_depends_on_completion_order_witness :
  (exists st',
     (HandleEventFft reccal_cfg (mkTag 0 0 0) ;; HandleEventFft reccal_cfg (mkTag 0 2 0))
       (init_state reccal_cfg) = Ok tt st' /\
     rc_last_frame st' = 0 /\
     dispatched (init_state reccal_cfg) st' [] /\
     is_last_task reccal_cfg st' pilot_fft_counters 0 0 = false) /\
  (exists st',
     (HandleEventFft reccal_cfg (mkTag 0 2 0) ;; HandleEventFft reccal_cfg (mkTag 0 0 0))
       (init_state reccal_cfg) = Ok tt st' /\
     rc_last_frame st' = 0 /\
     dispatched (init_state reccal_cfg) st' [CallSubcarriers kZF 0 0]).
Proof.
  apply (zf_depends_on_completion_order reccal_cfg (mkTag 0 0 0) (mkTag 0 2 0)
           (init_state reccal_cfg)).
  - reflexivity.
  - reflexivity.
  - left. reflexivity.
  - reflexivity.
  - reflexivity.
  - reflexivity.
  - reflexivity.
  - vm_compute. discriminate.
Defined.

(** ** Leaving the loop *)

Section Stopped.
Context (cfg : Config).

Ltac same_running := let H := fresh in intros ? H; first [exact H | reflexivity].
Ltac stop_go := pres_go same_running.

Lemma stopped_CISF f c : pres stopped (CheckIncrementScheduleFrame cfg f c).
  Proof. stop_go. Qed.
Hint Resolve stopped_CISF : pres.

Lemma stopped_for_tags (l : list Tag) (body : Tag -> M bool) :
    (forall t, pres stopped (body t)) -> pres stopped (for_tags l body).
  Proof.
    intros Hb. induction l as [|t l IH]; cbn [for_tags]; [stop_go|].
    apply pres_bind; [apply Hb|]. intros [|]; [stop_go|done].
  Qed.

Lemma stopped_drain fuel : pres stopped (drain_encode_deferral cfg fuel).
  Proof. induction fuel; cbn [drain_encode_deferral]; stop_go. Qed.
Hint Resolve stopped_drain : pres.

Lemma stopped_fill fuel slot : pres stopped (fill_fft_task cfg fuel slot).
  Proof. induction fuel; cbn [fill_fft_task]; stop_go. Qed.
Hint Resolve stopped_fill : pres.

Lemma stopped_schedule_tx_in_order fuel sym f :
    pres stopped (schedule_tx_in_order cfg fuel sym f).
  Proof. revert sym. induction fuel; intros sym; cbn [schedule_tx_in_order]; stop_go. Qed.
Hint Resolve stopped_schedule_tx_in_order : pres.

Lemma stopped_schedule_fft : pres stopped (schedule_fft cfg).
  Proof. stop_go. Qed.

Lemma stopped_handle_events evs : pres stopped (handle_events cfg evs).
  Proof.
    induction evs as [|ev evs IH]; cbn [handle_events]; [stop_go|].
    apply pres_bind; [|intros [|]; [stop_go|done]].
    unfold handle_event.
    apply pres_bind; [|intros [|]; stop_go].
    unfold handle_switch. destruct (event_type ev);
      try (stop_go; fail).
    unfold handle_IFFT. apply stopped_for_tags. intros t. stop_go.
  Qed.
End Stopped.

(** X17.  The future-frame error does not stop the master at once.  When
    the first event of a dequeued batch is an RX packet of a frame at or
    beyond [cur_sche_frame_id_ + kFrameWnd], the handler clears the running
    flag, and the master goes on with the FFT dispatch and with every other
    event of the batch, whose handlers run as usual; the running flag stays
    false through all of them, and the loop leaves at its next test: no later
    batch is dequeued. *)
Theorem future_frame_error_ends_loop cfg ev rest more st0 r st1 :
  let st := set_is_turn_to_dequeue_from_io (negb (is_turn_to_dequeue_from_io st0)) st0 in
  let st_err :=
    set_running false
      (set_trace (ErrorFutureFrame (frame_id (tag_at ev 0)) (cur_sche_frame_id st0)
                    (kFrameWnd cfg) :: trace st) st) in
  running st0 = true ->
  event_type ev = kPacketRX ->
  add_sz (cur_sche_frame_id st0) (kFrameWnd cfg) <= frame_id (tag_at ev 0) ->
  more <> [] ->
  (schedule_fft cfg ;; handle_events cfg rest) st_err = Ok r st1 ->
  handle_events cfg (ev :: rest) st = Ok r st1 /\
  running st1 = false /\
  Start cfg ((ev :: rest) :: more) st0 = finish st1.
Proof.
  intros st st_err Hrun Hty Hle Hmore Hrest.
  assert (handle_switch cfg ev st = Ok false st_err) as Hsw.
  { unfold handle_switch, handle_PacketRX. rewrite Hty.
    unfold bind, gets. subst st. st_simpl. apply N.leb_le in Hle. rewrite Hle.
    reflexivity. }
  assert (handle_events cfg (ev :: rest) st = Ok r st1) as Hev.
  { cbn [handle_events]. unfold handle_event.
    unfold bind at 1 2. rewrite Hsw.
    revert Hrest. unfold bind, ret. destruct (schedule_fft cfg st_err); [|done].
    done. }
  assert (running st1 = false) as Hstop.
  { refine (pres_run stopped _ st_err _ _ _ eq_refl Hrest).
    apply pres_bind; [apply stopped_schedule_fft|intros ?; apply stopped_handle_events]. }
  split; [done|]. split; [done|].
  cbn [Start]. unfold bind at 1, gets. rewrite Hrun.
  unfold loop_iteration. unfold bind at 1 2, modify. fold st. rewrite Hev.
  destruct r; [done|].
  destruct more as [|b more]; [done|]. cbn [Start].
  unfold bind, gets. by rewrite Hstop.
Qed.

Lemma future_frame_error_ends_loop_witness :
  running after_future_frame = false /\
  fft_tasks (rev (trace after_future_frame)) = [(0, [mkTag 0 0 0])] /\
  Start (test_cfg false false 1 0 0 3)
    [[event kPacketRX 8 0; event kPacketRX 0 0]; [event kFFT 0 0]]
    (init_state (test_cfg false false 1 0 0 3))
  = finish after_future_frame.
Proof.
  destruct (future_frame_error_ends_loop (test_cfg false false 1 0 0 3)
              (event kPacketRX 8 0) [event kPacketRX 0 0] [[event kFFT 0 0]]
              (init_state (test_cfg false false 1 0 0 3)) false after_future_frame)
    as (_ & Hstop & Hstart).
  - reflexivity.
  - reflexivity.
  - vm_compute. discriminate.
  - discriminate.
  - vm_compute. reflexivity.
  - split; [exact Hstop|]. split; [reflexivity|exact Hstart].
Defined.

(** ** The UDP server *)

Lemma digits_no_colon d : has_colon (NilEmpty.string_of_uint d) = false.
Proof. induction d; cbn; done. Qed.

Lemma to_string_no_colon n : has_colon (to_string n) = false.
Proof.
  unfold to_string, NilZero.string_of_uint.
  destruct (N.to_uint n); [done|apply (digits_no_colon (_ _))..].
Qed.

Lemma to_string_inj n1 n2 : to_string n1 = to_string n2 -> n1 = n2.
Proof.
  intros H. apply DecimalN.Unsigned.to_uint_inj.
  assert (forall n, N.to_uint n <> Decimal.Nil) as Hnn.
  { intros [|p]; [done|]. apply DecimalPos.Unsigned.to_uint_nonnil. }
  assert (Some (N.to_uint n1) = Some (N.to_uint n2)) as [=]; [|done].
  rewrite <- !NilZero.usu by apply Hnn. unfold to_string in H. by rewrite H.
Qed.

Lemma append_colon_inj a1 a2 d1 d2 :
  has_colon d1 = false -> has_colon d2 = false ->
  String.append a1 (String ":" d1) = String.append a2 (String ":" d2) ->
  a1 = a2 /\ d1 = d2.
Proof.
  intros H1 H2. revert a2. induction a1 as [|c a1 IH]; intros [|c2 a2] H; cbn in H.
  - by injection H as ->.
  - injection H as <- ->. exfalso. revert H1. clear.
    induction a2 as [|c a2 IH]; cbn; [done|].
    intros H. apply orb_false_iff in H as [_ H]. by apply IH.
  - injection H as -> <-. exfalso. revert H2. clear.
    induction a1 as [|c a1 IH]; cbn; [done|].
    intros H. apply orb_false_iff in H as [_ H]. by apply IH.
  - injection H as -> H. destruct (IH _ H) as [-> ->]. done.
Qed.

Lemma remote_uri_inj a1 p1 a2 p2 :
  remote_uri a1 p1 = remote_uri a2 p2 -> a1 = a2 /\ p1 = p2.
Proof.
  unfold remote_uri. cbn [String.append]. intros H.
  apply append_colon_inj in H as [-> H]; try apply to_string_no_colon.
  split; [done|]. by apply to_string_inj.
Qed.

Lemma recv_cached getaddrinfo recvfrom a p (m : gmap string AddrInfo) rem :
  m !! remote_uri a p = Some rem ->
  UDPServer_RecvFrom getaddrinfo recvfrom a p m
    = UdpOk (recv_outcome LogRecvFromFailed (recvfrom rem), m).
Proof.
  intros Hm. unfold UDPServer_RecvFrom. rewrite Hm.
  by destruct (recv_outcome _ _).
Qed.

(** X18.  The address cache of [UDPServer::RecvFrom].  Two remotes never
    share a cache entry: the key [src_address + ":" + to_string(src_port)]
    determines the address and the port, whatever characters the address
    holds.  A call that returns has the remote in the cache afterwards and
    has touched no other entry; what it returns is the result of [recvfrom]
    on the cached address with "no data" ([EAGAIN], [EWOULDBLOCK]) turned
    into 0; and every later call for the same remote receives on the same
    address without resolving again, whatever the resolver would answer, and
    leaves the cache as it is. *)
Theorem RecvFrom_resolves_once getaddrinfo recvfrom a p (m : gmap string AddrInfo)
    ret log m' :
  UDPServer_RecvFrom getaddrinfo recvfrom a p m = UdpOk (ret, log, m') ->
  (forall a' p', remote_uri a' p' = remote_uri a p -> a' = a /\ p' = p) /\
  exists rem,
    m' !! remote_uri a p = Some rem /\
    (ret, log) = recv_outcome LogRecvFromFailed (recvfrom rem) /\
    (forall a' p', (a', p') <> (a, p) ->
       m' !! remote_uri a' p' = m !! remote_uri a' p') /\
    (forall getaddrinfo' recvfrom',
       UDPServer_RecvFrom getaddrinfo' recvfrom' a p m'
         = UdpOk (recv_outcome LogRecvFromFailed (recvfrom' rem), m')).
Proof.
  intros Hrun. split; [intros a' p'; apply remote_uri_inj|].
  unfold UDPServer_RecvFrom in Hrun.
  destruct (m !! remote_uri a p) as [rem|] eqn:Hm.
  - exists rem. destruct (recv_outcome _ (recvfrom rem)) as [ret0 log0] eqn:Hr.
    injection Hrun as <- <- <-.
    split; [done|]. split; [done|]. split; [done|].
    intros g' r'. by apply recv_cached.
  - destruct (getaddrinfo a (to_string p)) as [r [rem|]]; [|done].
    destruct (r =? 0)%Z; [|done].
    exists rem. destruct (recv_outcome _ (recvfrom rem)) as [ret0 log0] eqn:Hr.
    injection Hrun as <- <- <-.
    split; [by rewrite lookup_insert_eq|]. split; [done|]. split.
    + intros a' p' Hne. apply lookup_insert_ne. intros Heq.
      apply Hne. symmetry in Heq. apply remote_uri_inj in Heq as [-> ->]. done.
    + intros g' r'. apply recv_cached. by rewrite lookup_insert_eq.
Qed.

Lemma RecvFrom_resolves_once_witness :
  remote_uri "fe80::1" 8080 = "fe80::1:8080"%string /\
  exists rem,
    (<["fe80::1:8080"%string := 7]> (∅ : gmap string AddrInfo))
      !! remote_uri "fe80::1" 8080 = Some rem /\
    (0%Z, []) = recv_outcome LogRecvFromFailed (mkSys (-1) EAGAIN).
Proof.
  split; [reflexivity|].
  destruct (RecvFrom_resolves_once (fun _ _ => (0%Z, Some 7)) (fun _ => mkSys (-1) EAGAIN)
              "fe80::1" 8080 ∅ 0%Z [] (<["fe80::1:8080"%string := 7]> ∅))
    as (_ & rem & H1 & H2 & _).
  - reflexivity.
  - exists rem. split; [exact H1|exact H2].
Defined.

Lemma land_lnot_fixed f o : Z.land f (Z.lnot o) = f <-> Z.land f o = 0%Z.
Proof.
  split; intros H.
  - rewrite <- H, <- Z.land_assoc, (Z.land_comm (Z.lnot o)), Z.land_lnot_diag.
    apply Z.land_0_r.
  - rewrite <- (Z.land_m1_r f) at 2. rewrite <- (Z.lor_lnot_diag o).
    rewrite Z.land_lor_distr_r, H. apply eq_sym, Z.lor_0_l.
Qed.

(** X19.  [UDPServer::MakeBlocking] returns normally only with a blocking
    socket, as far as it can see.  When the flags first read have
    [O_NONBLOCK] clear it makes no [F_SETFL] call; otherwise it sets the
    flags with [O_NONBLOCK] cleared and returns only if the flags read back
    are those, so that the flags it last read never have [O_NONBLOCK] set.
    The receive timeout is set exactly when [timeout_sec] is not zero, as
    the last call. *)
Theorem MakeBlocking_postcondition O_NONBLOCK flags1 set_status flags2 opt_status
    timeout_sec calls :
  UDPServer_MakeBlocking O_NONBLOCK flags1 set_status flags2 opt_status timeout_sec
    = UdpOk calls ->
  let desired := Z.land flags1 (Z.lnot O_NONBLOCK) in
  let timeout := if timeout_sec =? 0 then [] else [SetRcvTimeo timeout_sec] in
  (Z.land flags1 O_NONBLOCK = 0%Z /\ calls = [FcntlGetFl] ++ timeout) \/
  (Z.land flags1 O_NONBLOCK <> 0%Z /\
   calls = [FcntlGetFl; FcntlSetFl desired; FcntlGetFl] ++ timeout /\
   flags2 = desired /\ Z.land flags2 O_NONBLOCK = 0%Z).
Proof.
  unfold UDPServer_MakeBlocking. intros H.
  set (desired := Z.land flags1 (Z.lnot O_NONBLOCK)) in *.
  set (timeout := if timeout_sec =? 0 then [] else [SetRcvTimeo timeout_sec]).
  destruct (flags1 =? -1)%Z; [done|].
  assert (forall cs, (if timeout_sec =? 0 then UdpOk cs
                      else if (opt_status =? 0)%Z
                           then UdpOk (cs ++ [SetRcvTimeo timeout_sec])
                           else UdpThrow SetTimeoutFailed) = UdpOk calls ->
                     calls = cs ++ timeout) as Ht.
  { intros cs Hc. subst timeout. destruct (timeout_sec =? 0).
    - injection Hc as <-. by rewrite app_nil_r.
    - destruct (opt_status =? 0)%Z; [|done]. by injection Hc as <-. }
  destruct (desired =? flags1)%Z eqn:Hd; cbn [negb] in H.
  - left. apply Z.eqb_eq in Hd. split; [by apply land_lnot_fixed|by apply Ht].
  - right. apply Z.eqb_neq in Hd.
    destruct (set_status =? -1)%Z; [done|]. destruct (flags2 =? -1)%Z; [done|].
    destruct (flags2 =? desired)%Z eqn:H2; cbn [negb] in H; [|done].
    apply Z.eqb_eq in H2. split; [by rewrite <- land_lnot_fixed|].
    split; [by apply Ht|]. split; [done|].
    rewrite H2. subst desired.
    rewrite <- Z.land_assoc, (Z.land_comm (Z.lnot _)), Z.land_lnot_diag.
    apply Z.land_0_r.
Qed.

Lemma MakeBlocking_postcondition_witness :
  UDPServer_MakeBlocking 2048 2050 0 2 0 3
    = UdpOk [FcntlGetFl; FcntlSetFl 2; FcntlGetFl; SetRcvTimeo 3] /\
  ((Z.land 2050 2048 = 0%Z /\ [FcntlGetFl; FcntlSetFl 2; FcntlGetFl; SetRcvTimeo 3]
                               = [FcntlGetFl] ++ [SetRcvTimeo 3]) \/
   (Z.land 2050 2048 <> 0%Z /\
    [FcntlGetFl; FcntlSetFl 2; FcntlGetFl; SetRcvTimeo 3]
      = [FcntlGetFl; FcntlSetFl 2; FcntlGetFl] ++ [SetRcvTimeo 3] /\
    2%Z = 2%Z /\ Z.land 2 2048 = 0%Z)).
Proof.
  split; [reflexivity|].
  apply (MakeBlocking_postcondition 2048 2050 0 2 0 3
           [FcntlGetFl; FcntlSetFl 2; FcntlGetFl; SetRcvTimeo 3]).
  reflexivity.
Defined.

(** ** Every symbol is transmitted *)

Lemma N_range_cons lo hi : lo < hi -> N_range lo hi = lo :: N_range (lo + 1) hi.
Proof.
  intros H. unfold N_range.
  replace (N.to_nat (hi - lo)) with (S (N.to_nat (hi - (lo + 1)))) by lia.
  cbn [seq map]. f_equal; [lia|].
  rewrite <- seq_shift, map_map. apply map_ext. intros k. lia.
Qed.

Lemma NoDup_N_range lo hi : NoDup (N_range lo hi).
Proof.
  unfold N_range. apply NoDup_fmap_2; [|apply NoDup_seq].
  intros a b H. lia.
Qed.

Lemma in_N_range lo hi i : In i (N_range lo hi) <-> lo <= i < hi.
Proof.
  unfold N_range. rewrite in_map_iff. split.
  - intros (k & <- & Hk). apply in_seq in Hk. lia.
  - intros H. exists (N.to_nat (i - lo)). split; [lia|]. apply in_seq. lia.
Qed.

(** If the indices below [k] are all in a list without duplicates, the list
    has at least [k] elements. *)
Lemma initial_segment_length (D : list N) k :
  NoDup D -> (forall i, i < k -> In i D) -> k <= N.of_nat (length D).
Proof.
  intros Hnd Hin.
  assert (length (N_range 0 k) <= length D)%nat as Hle.
  { apply NoDup_incl_length; [apply NoDup_ListNoDup, NoDup_N_range|].
    intros i Hi. apply Hin. apply in_N_range in Hi. lia. }
  rewrite N_range_length in Hle. lia.
Qed.

Lemma wrap_add_l a b : wrap (wrap a + b) = wrap (a + b).
Proof. unfold wrap. apply N.Div0.add_mod_idemp_l. Qed.

Lemma iter_add_sz j : forall a,
  a + N.of_nat j <= SIZE_MAX -> Nat.iter j (fun x => add_sz x 1) a = a + N.of_nat j.
Proof.
  induction j as [|j IH]; intros a Ha; [cbn; lia|].
  rewrite Nat.iter_succ, IH by lia. rewrite add_sz_small by lia. lia.
Qed.

Section TxLoop.
Context (cfg : Config) (F : N).

Lemma tx_loop_spec fuel : forall sym st,
  wlp (schedule_tx_in_order cfg fuel sym F)
    (fun _ st' => exists j : nat,
       (j <= fuel)%nat /\
       (forall i, sym <= i < sym + N.of_nat j ->
          vec_lookup (ifft_cur_frame_for_symbol st) i = Some F) /\
       ((j < fuel)%nat ->
          exists x, vec_lookup (ifft_cur_frame_for_symbol st) (sym + N.of_nat j) = Some x
                    /\ x <> F) /\
       ifft_cur_frame_for_symbol st' = ifft_cur_frame_for_symbol st /\
       counters st' = counters st /\
       ifft_next_symbol st'
         = Nat.iter j (fun x => add_sz x 1) (ifft_next_symbol st) /\
       tx_calls (trace st')
         = rev (map (fun i => (F, GetDLSymbol cfg i)) (N_range sym (sym + N.of_nat j)))
           ++ tx_calls (trace st)) st.
Proof.
  induction fuel as [|fuel IH]; intros sym st; cbn [schedule_tx_in_order].
  { apply wpg_ret. exists 0%nat. split; [done|]. split; [intros i; lia|].
    split; [lia|]. split; [done|]. split; [done|]. split; [done|].
    rewrite N.add_0_r, N_range_empty by lia. done. }
  apply wpg_bind. unfold wpg at 1. rewrite vec_at_run.
  destruct (vec_lookup (ifft_cur_frame_for_symbol st) sym) as [x|] eqn:Hx; [|done].
  destruct (x =? F) eqn:HxF.
  - apply N.eqb_eq in HxF. subst x.
    unfold CallScheduleAntennasTX, assert_, call, emit.
    destruct (_ =? 0); [|by apply wpg_bind, wpg_bind, wpg_throw].
    wexec.
    eapply wpg_mono; [apply IH|]. st_simpl.
    intros ? st' (j & Hj & Hall & Hstop & Hv & Hc & Hn & Htx).
    exists (S j). split; [lia|]. split.
    { intros i Hi. destruct (N.eq_dec i sym) as [->|Hne]; [done|].
      apply Hall. lia. }
    split.
    { intros Hlt. destruct Hstop as (y & Hy & HyF); [lia|].
      exists y. split; [|done]. rewrite <- Hy. f_equal. lia. }
    split; [done|]. split; [done|]. split.
    { rewrite Hn. clear. rewrite Nat.iter_succ_r. done. }
    rewrite Htx. rewrite (N_range_cons sym) by lia.
    replace (sym + N.of_nat (S j)) with (sym + 1 + N.of_nat j) by lia.
    cbn [map rev tx_calls omap]. by rewrite <- app_assoc.
  - apply N.eqb_neq in HxF. apply wpg_ret. exists 0%nat.
    split; [lia|]. split; [intros i; lia|].
    split; [intros _; exists x; by rewrite N.add_0_r|].
    split; [done|]. split; [done|]. split; [done|].
    rewrite N.add_0_r, N_range_empty by lia. done.
Qed.

End TxLoop.

Section TxComplete.
Context (cfg : Config) (F : N) (tx0 : list (N * N)).
Context (Hn : NumDLSyms cfg <= SIZE_MAX).
Local Abbreviation n := (NumDLSyms cfg).

(** A completion that is not the last task of its symbol changes nothing
    that matters. *)
Lemma ifft_task_step t st fin st1 :
  frame_id t = F ->
  is_last_task cfg st ifft_counters F (symbol_id t) = false ->
  handle_IFFT_tag cfg t st = Ok fin st1 ->
  ifft_cur_frame_for_symbol st1 = ifft_cur_frame_for_symbol st /\
  ifft_next_symbol st1 = ifft_next_symbol st /\
  symbol_count (counters st1 ifft_counters) = symbol_count (counters st ifft_counters) /\
  max_symbol_count (counters st1 ifft_counters)
    = max_symbol_count (counters st ifft_counters) /\
  tx_calls (trace st1) = tx_calls (trace st).
Proof.
  intros HF Ht Hrun. subst F.
  unfold is_last_task in Ht. st_simpl_in Ht.
  revert Hrun. unfold handle_IFFT_tag, CompleteTask.
  unfold bind, emit, modify, gets, ret. st_simpl.
  unfold FrameCounters.CompleteTask. rewrite Ht. st_simpl.
  intros [= <- <-]. st_simpl. done.
Qed.

Lemma tx_upto_app k j :
  rev (map (fun i => (F, GetDLSymbol cfg i)) (N_range k (k + N.of_nat j)))
    ++ tx_upto cfg F k
  = tx_upto cfg F (k + N.of_nat j).
Proof.
  unfold tx_upto. rewrite <- rev_app_distr, <- map_app. do 2 f_equal.
  apply N_range_join; lia.
Qed.

Lemma period_in_range D c st i :
  period_state cfg F tx0 D c st -> In i D -> i < n.
Proof.
  intros (Hlen & Hvec & _) Hi. apply Hvec, vec_lookup_Some in Hi. lia.
Qed.

(** When as many symbols as there are have completed, all have. *)
Lemma period_full D c st i :
  period_state cfg F tx0 D c st -> NoDup D -> N.of_nat (length D) = n ->
  i < n -> In i D.
Proof.
  intros Hst Hnd Hfull Hi.
  assert (incl (N_range 0 n) D) as Hincl.
  { apply NoDup_length_incl; [by apply NoDup_ListNoDup| |].
    - rewrite N_range_length. lia.
    - intros j Hj. apply in_N_range. split; [lia|]. by eapply period_in_range. }
  apply Hincl, in_N_range. lia.
Qed.

(** The tail of the handler, from the test of the last symbol on. *)
Lemma ifft_symbol_tail t D st :
  frame_id t = F ->
  period_state cfg F tx0 D (N.of_nat (length D) - 1) st ->
  NoDup D -> 0 < N.of_nat (length D) <= n ->
  wlp (emit (PrintPerSymbolDone PrintType.kIFFT F (symbol_id t)) ;;
       let* last_ifft_symbol := CompleteSymbol cfg ifft_counters F in
       if last_ifft_symbol then
         modify (set_ifft_next_symbol 0) ;;
         emit (MasterSetTsc kIFFTDone F) ;;
         emit (PrintPerFrameDone PrintType.kIFFT F) ;;
         let* cp := gets cur_proc_frame_id in
         assert_ (F =? cp) ;;
         CheckIncrementScheduleFrame cfg F kDownlinkComplete ;;
         CheckFrameComplete cfg F
       else ret false)
      (fun _ st1 => if N.of_nat (length D) =? n
                    then all_transmitted cfg F tx0 st1
                    else period_inv cfg F tx0 D st1) st.
Proof.
  intros HF Hst Hnd HD.
  pose proof Hst as (Hlen & Hvec & Hcount & Hmax & Hlow & Hnext & Htx).
  unfold emit at 1. wexec. unfold FrameCounters.CompleteSymbol. st_simpl.
  rewrite Hcount, Hmax.
  rewrite add_sz_small by lia.
  replace (N.of_nat (length D) - 1 + 1) with (N.of_nat (length D)) by lia.
  destruct (N.of_nat (length D) =? n) eqn:Hfull.
  - apply N.eqb_eq in Hfull.
    assert (ifft_next_symbol st = n) as Hk.
    { pose proof (initial_segment_length D _ Hnd Hlow).
      destruct (N.lt_ge_cases (ifft_next_symbol st) n) as [Hlt|Hge]; [|lia].
      exfalso. apply Hnext. by eapply period_full. }
    unfold emit. wexec. unfold assert_. wcase; [|done]. wexec.
    eapply wpg_mono.
    { apply (buffered_CISF cfg (ifft_cur_frame_for_symbol st)
               (tx_upto cfg F n ++ tx0)).
      split; [reflexivity|]. st_simpl.
      change (tx_calls (trace st) = tx_upto cfg F n ++ tx0). by rewrite Htx, Hk. }
    intros ? st2 Hb. eapply wpg_mono; [apply buffered_CFC; exact Hb|].
    intros ? st3 [_ Hb3]. exact Hb3.
  - apply wpg_ret. unfold period_inv, period_state. st_simpl.
    rewrite upd_same. done.
Qed.

(** The completion of the last task of a symbol that has not completed yet. *)
(** The completion of the last task of a symbol that has not completed yet. *)
Lemma ifft_symbol_step t st fin st1 D :
  let idx := GetDLSymbolIdx cfg (symbol_id t) in
  frame_id t = F ->
  is_last_task cfg st ifft_counters F (symbol_id t) = true ->
  handle_IFFT_tag cfg t st = Ok fin st1 ->
  period_inv cfg F tx0 D st ->
  NoDup (idx :: D) ->
  N.of_nat (length D) < n ->
  if N.of_nat (length (idx :: D)) =? n
  then all_transmitted cfg F tx0 st1
  else period_inv cfg F tx0 (idx :: D) st1.
Proof.
  intros idx HF Ht Hrun (Hlen & Hvec & Hcount & Hmax & Hlow & Hnext & Htx) Hnd HD.
  apply NoDup_cons in Hnd as Hnd'. destruct Hnd' as [Hnotin HndD].
  rewrite list_elem_of_In in Hnotin.
  assert (ifft_next_symbol st <= N.of_nat (length D)) as Hk
    by (by apply initial_segment_length).
  enough (wlp (handle_IFFT_tag cfg t)
            (fun _ st1 => if N.of_nat (length (idx :: D)) =? n
                          then all_transmitted cfg F tx0 st1
                          else period_inv cfg F tx0 (idx :: D) st1) st) as H
    by exact (wpg_inv _ _ _ _ _ _ H Hrun).
  clear Hrun fin st1.
  unfold is_last_task in Ht. st_simpl_in Ht.
  unfold handle_IFFT_tag. cbv zeta. rewrite HF.
  wexec_with ltac:(rewrite ?Ht).
  unfold vec_set. wexec. fold idx.
  destruct (idx <? _) eqn:Hidx; [|done]. apply N.ltb_lt in Hidx.
  wexec.
  match goal with |- wpg _ _ _ ?s => set (sa := s) end.
  assert (forall i, vec_lookup (ifft_cur_frame_for_symbol sa) i = Some F
                    <-> In i (idx :: D)) as Hva.
  { intros i. subst sa. st_simpl. split.
    - intros [[-> _]|Hi]%vec_lookup_insert; [by left|]. right. by apply Hvec.
    - intros Hi. unfold vec_lookup. rewrite length_insert.
      destruct (N.eq_dec i idx) as [->|Hne].
      + pose proof Hidx as Hidx'. apply N.ltb_lt in Hidx' as ->.
        apply list_lookup_insert_eq. lia.
      + destruct Hi as [Hi|Hi]; [congruence|]. apply Hvec in Hi.
        unfold vec_lookup in Hi. destruct (i <? _); [|done].
        rewrite list_lookup_insert_ne by lia. done. }
  assert (length (ifft_cur_frame_for_symbol sa) = N.to_nat n) as Hlena.
  { subst sa. st_simpl. by rewrite length_insert. }
  assert (symbol_count (counters sa ifft_counters) (F mod kFrameWnd cfg)
          = N.of_nat (length D)) as Hca by exact Hcount.
  assert (max_symbol_count (counters sa ifft_counters) = n) as Hmaxa by exact Hmax.
  assert (ifft_next_symbol sa = ifft_next_symbol st) as Hnexta by reflexivity.
  assert (tx_calls (trace sa) = tx_upto cfg F (ifft_next_symbol st) ++ tx0) as Htxa
    by exact Htx.
  clearbody sa.
  assert (N.of_nat (length (idx :: D)) - 1 = N.of_nat (length D)) as Hlen1
    by (cbn [length]; lia).
  eapply wpg_mono.
  2: { intros ? sb Hmid.
       apply (ifft_symbol_tail t (idx :: D) sb HF Hmid Hnd).
       cbn [length]. lia. }
  rewrite Hlen1.
  destruct (idx =? ifft_next_symbol st) eqn:Hisnext.
  - apply N.eqb_eq in Hisnext.
    unfold GetSymbolCount. wexec. unfold FrameCounters.GetSymbolCount.
    rewrite Hca.
    eapply wpg_mono; [apply tx_loop_spec|].
    intros ? sb (j & Hj & Hall & Hstop & Hvb & Hcb & Hnb & Htxb).
    assert (ifft_next_symbol sb = idx + N.of_nat j) as Hk'.
    { rewrite Hnb, Hnexta, <- Hisnext. apply iter_add_sz. lia. }
    unfold period_state. rewrite Hvb, Hcb, Hk'.
    split; [done|]. split; [done|]. split; [done|]. split; [done|].
    split; [|split].
    + intros i Hi. destruct (N.lt_ge_cases i idx) as [Hlt|Hge].
      * right. apply Hlow. lia.
      * apply Hva, Hall. lia.
    + intros Hin.
      destruct (Nat.lt_ge_cases j (N.to_nat (N.of_nat (length D) + 1 - idx)))
        as [Hlt|Hge].
      * destruct (Hstop Hlt) as (x & Hx & HxF). apply Hva in Hin. congruence.
      * assert (idx + N.of_nat j + 1 <= N.of_nat (length (idx :: D))) as Hbad.
        { apply initial_segment_length; [done|].
          intros i Hi. destruct (N.eq_dec i (idx + N.of_nat j)) as [->|Hne]; [done|].
          destruct (N.lt_ge_cases i idx) as [Hlt'|Hge'].
          - right. apply Hlow. lia.
          - apply Hva, Hall. lia. }
        cbn [length] in Hbad. lia.
    + rewrite Htxb, Htxa, <- Hisnext. rewrite app_assoc. f_equal.
      apply tx_upto_app.
  - apply N.eqb_neq in Hisnext. apply wpg_ret.
    unfold period_state. rewrite Hnexta.
    split; [done|]. split; [done|]. split; [done|]. split; [done|].
    split; [|split; [|done]].
    + intros i Hi. right. by apply Hlow.
    + intros [Heq|Hin]; [congruence|done].
Qed.
End TxComplete.

Lemma tx_calls_rev l : tx_calls (rev l) = rev (tx_calls l).
Proof.
  unfold tx_calls. induction l as [|a l IH]; [done|]. cbn [rev].
  rewrite omap_app, IH. destruct a as [[]| | | | | | | | | | | | | | | | |];
    cbn; by rewrite ?app_nil_r.
Qed.

Lemma ifft_run_inv cfg F tx0 st done st1 :
  NumDLSyms cfg <= SIZE_MAX ->
  ifft_run cfg F st done st1 ->
  forall D,
    NoDup (D ++ done) ->
    N.of_nat (length (D ++ done)) = NumDLSyms cfg ->
    (period_inv cfg F tx0 D st /\ N.of_nat (length D) < NumDLSyms cfg) \/
    (all_transmitted cfg F tx0 st /\ N.of_nat (length D) = NumDLSyms cfg) ->
    all_transmitted cfg F tx0 st1.
Proof.
  intros Hn Hrun.
  induction Hrun as [st|st t fin st1 done st2 HF Ht Hstep _ IH
                       |st t fin st1 done st2 HF Ht Hstep _ IH];
    intros D Hnd Hlen Hst.
  - rewrite app_nil_r in Hlen. destruct Hst as [[_ Hlt]|[Hall _]]; [lia|done].
  - apply (IH D Hnd Hlen).
    destruct (ifft_task_step cfg F t st fin st1 HF Ht Hstep)
      as (Hv & Hk & Hc & Hm & Htx).
    destruct Hst as [[Hinv Hlt]|[Hall Hfull]]; [left|right]; (split; [|done]).
    + unfold period_inv, period_state in *. by rewrite Hv, Hk, Hc, Hm, Htx.
    + unfold all_transmitted in *. by rewrite Htx.
  - set (idx := GetDLSymbolIdx cfg (symbol_id t)) in *.
    rewrite length_app in Hlen. cbn [length] in Hlen.
    destruct Hst as [[Hinv Hlt]|[Hall Hfull]]; [|lia].
    assert (NoDup ((idx :: D) ++ done)) as Hnd'.
    { cbn [app]. by rewrite Permutation_middle. }
    assert (NoDup (idx :: D)) as HndD.
    { cbn [app] in Hnd'. apply NoDup_cons in Hnd' as [Hni Hnd'].
      apply NoDup_app in Hnd' as (HD & _ & _).
      apply NoDup_cons. split; [|done]. intros Hin. apply Hni.
      apply elem_of_app. by left. }
    pose proof (ifft_symbol_step cfg F tx0 Hn t st fin st1 D HF Ht Hstep Hinv HndD Hlt)
      as Hpost.
    apply (IH (idx :: D) Hnd').
    { rewrite length_app. cbn [length]. lia. }
    fold idx in Hpost.
    destruct (N.of_nat (length (idx :: D)) =? NumDLSyms cfg) eqn:E.
    + right. split; [done|]. by apply N.eqb_eq.
    + left. split; [done|]. apply N.eqb_neq in E. cbn [length] in *. lia.
Qed.

(** X20.  Every downlink symbol is transmitted.  Start where no IFFT of
    frame F has completed ([ifft_next_symbol_] is 0, the IFFT symbol count of
    the slot of F is 0 and no entry of [ifft_cur_frame_for_symbol_] is F) and
    let the IFFT completions of F be handled one after the other, in any
    order of the symbols and of the tasks, until the last task of every
    downlink symbol has completed, each symbol once.  Then, whatever the
    order was, [ScheduleAntennasTX] has been called for every downlink
    symbol of F exactly once, in the order of the symbol indices
    0, 1, ..., [NumDLSyms]-1. *)
Theorem every_symbol_transmitted cfg F st0 done st1 :
  NumDLSyms cfg <= SIZE_MAX ->
  length (ifft_cur_frame_for_symbol st0) = N.to_nat (NumDLSyms cfg) ->
  Forall (fun f => f <> F) (ifft_cur_frame_for_symbol st0) ->
  ifft_next_symbol st0 = 0 ->
  symbol_count (counters st0 ifft_counters) (F mod kFrameWnd cfg) = 0 ->
  max_symbol_count (counters st0 ifft_counters) = NumDLSyms cfg ->
  ifft_run cfg F st0 done st1 ->
  NoDup done ->
  N.of_nat (length done) = NumDLSyms cfg ->
  tx_calls (rev (trace st1))
    = tx_calls (rev (trace st0))
      ++ map (fun i => (F, GetDLSymbol cfg i)) (N_range 0 (NumDLSyms cfg)).
Proof.
  intros Hn Hlen Hfresh Hnext Hcount Hmax Hrun Hnd Hdone.
  assert (all_transmitted cfg F (tx_calls (trace st0)) st1) as Hall.
  { apply (ifft_run_inv cfg F _ st0 done st1 Hn Hrun []); [done|done|].
    assert (period_inv cfg F (tx_calls (trace st0)) [] st0) as Hinv.
    { unfold period_inv, period_state. rewrite Hnext.
      split; [done|]. split.
      { intros i. split; [|done]. intros Hi. exfalso.
        unfold vec_lookup in Hi. destruct (i <? _); [|done].
        apply list_elem_of_lookup_2 in Hi.
        rewrite List.Forall_forall in Hfresh.
        by apply (Hfresh F); [apply list_elem_of_In|]. }
      split; [done|]. split; [done|]. split; [intros i; lia|]. split; [by intros []|].
      done. }
    destruct (N.eq_dec (NumDLSyms cfg) 0) as [Hz|Hz].
    - right. split; [|by rewrite Hz].
      destruct Hinv as (_ & _ & _ & _ & _ & _ & Htx).
      unfold all_transmitted. by rewrite Hz, Htx, Hnext.
    - left. split; [done|]. cbn [length]. lia. }
  unfold all_transmitted, tx_upto in Hall.
  rewrite !tx_calls_rev, Hall, rev_app_distr, rev_involutive. done.
Qed.

Lemma every_symbol_transmitted_witness :
  tx_calls (rev (trace before_ifft)) = [] /\
  tx_calls (rev (trace ifft_second_done)) = [] /\
  map (fun i => (0, GetDLSymbol (test_cfg false false 0 2 0 3) i))
      (N_range 0 (NumDLSyms (test_cfg false false 0 2 0 3))) = [(0, 1); (0, 2)] /\
  tx_calls (rev (trace ifft_both_done))
    = tx_calls (rev (trace before_ifft))
      ++ map (fun i => (0, GetDLSymbol (test_cfg false false 0 2 0 3) i))
             (N_range 0 (NumDLSyms (test_cfg false false 0 2 0 3))).
Proof.
  split; [vm_compute; reflexivity|].
  split; [vm_compute; reflexivity|].
  split; [vm_compute; reflexivity|].
  apply (every_symbol_transmitted (test_cfg false false 0 2 0 3) 0 before_ifft
           [GetDLSymbolIdx (test_cfg false false 0 2 0 3) (symbol_id (mkTag 0 2 0));
            GetDLSymbolIdx (test_cfg false false 0 2 0 3) (symbol_id (mkTag 0 1 0))]
           ifft_both_done).
  - vm_compute. discriminate.
  - vm_compute. reflexivity.
  - vm_compute. repeat constructor; discriminate.
  - vm_compute. reflexivity.
  - vm_compute. reflexivity.
  - vm_compute. reflexivity.
  - apply (ifft_run_symbol (test_cfg false false 0 2 0 3) 0 before_ifft (mkTag 0 2 0)
             false ifft_second_done _ ifft_both_done);
      [vm_compute; reflexivity..|].
    apply (ifft_run_symbol (test_cfg false false 0 2 0 3) 0 ifft_second_done
             (mkTag 0 1 0) false ifft_both_done [] ifft_both_done);
      [vm_compute; reflexivity..|].
    constructor.
  - apply (bool_decide_unpack _). vm_compute. exact I.
  - vm_compute. reflexivity.
Defined.
